(** * field-mapping: layer import and task-map state, verified against the routes

    A shallow embedding of the route modules of the field-survey application:
    the two revisions of the [layer-create] action (one attaches the layer to
    its [dispatcher], the other to its [admins]) and the two revisions of the
    [TaskMap] route (one places new points with a popup at the click, the other
    with a crosshair at the map centre).

    JavaScript strings are sequences of UTF-16 code units, and that is how they
    are modelled: [value.length] counts code units while [Array.from(value)]
    walks code points, and the corruption scrub uses both. *)

From Stdlib Require Import String Ascii DecimalString.
From Stdlib Require DecimalNat.
From Stdlib Require Import NArith ZArith QArith Bool Lia.
From Stdlib Require Import List Permutation.
Import ListNotations.

Set Warnings "-register-all".

Set Implicit Arguments.

(** ** JavaScript values *)

Module JS.

(** A UTF-16 code unit, [0 <= u < 65536]. *)
Definition code_unit := N.

Definition jsstring := list code_unit.

Definition jsstring_eq_dec : forall a b : jsstring, {a = b} + {a <> b} :=
  list_eq_dec N.eq_dec.

Definition jsstring_eqb (a b : jsstring) : bool :=
  if jsstring_eq_dec a b then true else false.

(** An ASCII literal as a JavaScript string. *)
Definition str (s : string) : jsstring :=
  map N_of_ascii (list_ascii_of_string s).

(** The same, with every apostrophe read as a double quote: test data for
    JSON text is written with apostrophes. *)
Definition jsq (s : string) : jsstring :=
  map (fun u => if N.eqb u 39 then 34%N else u) (str s).

(** The values the routes handle. [JSON.parse] produces the JSON fragment
    ([Null], [Bool], [Num], [Str], [Arr], [Obj]); [Undefined] is what a
    missing property reads as, and [Builtin] stands for a value found on a
    built-in prototype (a method, say), which is not data.

    A number is an exact rational (the rounding of a double is not
    modelled: no route computes with numbers, they are only passed on).
    An object is its own properties in insertion order, keys unique. *)
Inductive value : Type :=
| Undefined
| Null
| Bool (b : bool)
| Num (n : Q)
| Str (s : jsstring)
| Arr (items : list value)
| Obj (members : list (jsstring * value))
| Builtin (tag : N).

(** Truthiness, as [!v], [a && b] and [c ? x : y] read a value. *)
Definition truthy_value (v : value) : bool :=
  match v with
  | Undefined | Null => false
  | Bool b => b
  | Num n => negb (Qeq_bool n 0)
  | Str s => match s with [] => false | _ => true end
  | Arr _ | Obj _ | Builtin _ => true
  end.

(** Own-property lookup in an object's member list. *)
Fixpoint lookup (k : jsstring) (ms : list (jsstring * value)) : option value :=
  match ms with
  | [] => None
  | (k', v) :: r => if jsstring_eqb k k' then Some v else lookup k r
  end.

(** [o[k] = v] on an own property: a key already present keeps its place
    and takes the new value, a new key goes last. *)
Fixpoint obj_set (k : jsstring) (v : value) (ms : list (jsstring * value))
  : list (jsstring * value) :=
  match ms with
  | [] => [(k, v)]
  | (k', v') :: r =>
      if jsstring_eqb k k' then (k', v) :: r else (k', v') :: obj_set k v r
  end.

(** The decimal spelling of an array index, as a property key. *)
Definition index_key (i : nat) : jsstring :=
  str (NilEmpty.string_of_uint (Nat.to_uint i)).

(** What a route can throw. *)
Inductive error : Type :=
| SyntaxError                       (* JSON.parse on malformed text *)
| TypeError                         (* property read on null/undefined, call of a non-function *)
| PrismaValidationError             (* arguments do not fit the schema *)
| UniqueConstraintFailed (target : jsstring)   (* Prisma P2002 *)
| RecordNotFound.                   (* Prisma P2025, findUniqueOrThrow *)

Inductive outcome (A : Type) : Type :=
| Ok (a : A)
| Throw (e : error).
Arguments Ok {A} a.
Arguments Throw {A} e.

Definition bind {A B} (m : outcome A) (f : A -> outcome B) : outcome B :=
  match m with
  | Ok a => f a
  | Throw e => Throw e
  end.

Fixpoint mapM {A B} (f : A -> outcome B) (l : list A) : outcome (list B) :=
  match l with
  | [] => Ok []
  | a :: r => bind (f a) (fun b => bind (mapM f r) (fun bs => Ok (b :: bs)))
  end.

(** Reading a property. *)
Section Get.

(** What reading [v[k]] gives when [k] is not an own property of a
    parsed object: the elements and [length] of an array, the units of
    a string, the members of the built-in prototypes, or [undefined].
    It is the runtime's, and is left open. *)
Variable other_get : value -> jsstring -> value.

(** [v[k]] *)
Definition Get (v : value) (k : jsstring) : outcome value :=
  match v with
  | Undefined | Null => Throw TypeError
  | Obj ms =>
      match lookup k ms with
      | Some x => Ok x
      | None => Ok (other_get v k)
      end
  | _ => Ok (other_get v k)
  end.

End Get.

(** The own enumerable properties [{ ...f }] copies. *)
Fixpoint indexed (i : nat) (l : list value) : list (jsstring * value) :=
  match l with
  | [] => []
  | x :: r => (index_key i, x) :: indexed (S i) r
  end.

Definition spread (f : value) : list (jsstring * value) :=
  match f with
  | Obj ms => ms
  | Arr items => indexed 0 items
  | Str s => indexed 0 (map (fun u => Str [u]) s)
  | _ => []
  end.

(** A runtime for examples: the elements and [length] of an array, the
    units and [length] of a string, and the members of the built-in
    prototypes, each read as some built-in value. *)
Definition object_prototype : list jsstring :=
  map str ["constructor"; "__proto__"; "hasOwnProperty"; "isPrototypeOf";
           "propertyIsEnumerable"; "toLocaleString"; "toString"; "valueOf";
           "__defineGetter__"; "__defineSetter__"; "__lookupGetter__";
           "__lookupSetter__"]%string.

Definition array_prototype : list jsstring :=
  map str ["at"; "concat"; "copyWithin"; "entries"; "every"; "fill"; "filter";
           "find"; "findIndex"; "findLast"; "findLastIndex"; "flat"; "flatMap";
           "forEach"; "includes"; "indexOf"; "join"; "keys"; "lastIndexOf";
           "map"; "pop"; "push"; "reduce"; "reduceRight"; "reverse"; "shift";
           "slice"; "some"; "sort"; "splice"; "unshift"; "values"]%string.

Definition string_prototype : list jsstring :=
  map str ["anchor"; "at"; "big"; "blink"; "bold"; "charAt"; "charCodeAt";
           "codePointAt"; "concat"; "endsWith"; "fixed"; "fontcolor";
           "fontsize"; "includes"; "indexOf"; "italics"; "lastIndexOf"; "link";
           "localeCompare"; "match"; "matchAll"; "normalize"; "padEnd";
           "padStart"; "repeat"; "replace"; "replaceAll"; "search"; "slice";
           "small"; "split"; "startsWith"; "strike"; "sub"; "substr";
           "substring"; "sup"; "toLocaleLowerCase"; "toLocaleUpperCase";
           "toLowerCase"; "toUpperCase"; "trim"; "trimEnd"; "trimLeft";
           "trimRight"; "trimStart"]%string.

Definition number_prototype : list jsstring :=
  map str ["toExponential"; "toFixed"; "toPrecision"]%string.

Definition function_prototype : list jsstring :=
  map str ["apply"; "bind"; "call"]%string.

Definition inherited (protos : list jsstring) (k : jsstring) : value :=
  if existsb (jsstring_eqb k) (protos ++ object_prototype)
  then Builtin 0 else Undefined.

Definition node_get (v : value) (k : jsstring) : value :=
  match v with
  | Arr items =>
      if jsstring_eqb k (str "length")
      then Num (inject_Z (Z.of_nat (length items)))
      else match lookup k (indexed 0 items) with
           | Some x => x
           | None => inherited array_prototype k
           end
  | Str s =>
      if jsstring_eqb k (str "length")
      then Num (inject_Z (Z.of_nat (length s)))
      else match lookup k (indexed 0 (map (fun u => Str [u]) s)) with
           | Some x => x
           | None => inherited string_prototype k
           end
  | Num _ => inherited number_prototype k
  | Builtin _ => inherited function_prototype k
  | _ => inherited [] k
  end.

End JS.

Export JS.

Notation "x <- m ;; k" := (JS.bind m (fun x => k))
  (at level 61, m at next level, right associativity).

(** ** JSON.parse *)

Module JSON.

(** *** Lexical grammar

    The text is read one code unit at a time; the scanner state says what it
    is in the middle of. *)

Inductive token : Type :=
| TLBrace | TRBrace | TLBrack | TRBrack | TColon | TComma
| TString (s : jsstring)
| TNumber (literal : jsstring)
| TTrue | TFalse | TNull.

Inductive lex_state : Type :=
| LDefault
| LString (racc : jsstring)                 (* inside a string, units so far reversed *)
| LEscape (racc : jsstring)                 (* after a backslash *)
| LUnicode (racc : jsstring) (ds : list N)  (* after \u, hex digits so far *)
| LWord (racc : jsstring).                  (* inside a number or a literal name *)

Definition is_ws (u : N) : bool :=
  N.eqb u 32 || N.eqb u 9 || N.eqb u 10 || N.eqb u 13.

Definition is_digit (u : N) : bool := N.leb 48 u && N.leb u 57.

Definition is_lower (u : N) : bool := N.leb 97 u && N.leb u 122.

(** Units that can stand in a number or in [true], [false], [null]. *)
Definition is_word (u : N) : bool :=
  is_digit u || is_lower u
  || N.eqb u 45 || N.eqb u 43 || N.eqb u 46 || N.eqb u 69.

Definition hex_digit (u : N) : option N :=
  if is_digit u then Some (u - 48)%N
  else if N.leb 97 u && N.leb u 102 then Some (u - 87)%N
  else if N.leb 65 u && N.leb u 70 then Some (u - 55)%N
  else None.

(** The number grammar: an optional minus; then a single zero, or a
    non-zero digit and any digits; then optionally a dot and one or more
    digits; then optionally e or E, an optional sign, one or more digits. *)
Inductive num_state : Type :=
| NStart | NMinus | NZero | NInt | NDot | NFrac | NExp | NExpSign | NExpDigits | NBad.

Definition num_step (st : num_state) (u : N) : num_state :=
  let e := N.eqb u 101 || N.eqb u 69 in
  match st with
  | NStart => if N.eqb u 45 then NMinus
              else if N.eqb u 48 then NZero
              else if is_digit u then NInt else NBad
  | NMinus => if N.eqb u 48 then NZero
              else if is_digit u then NInt else NBad
  | NZero => if N.eqb u 46 then NDot else if e then NExp else NBad
  | NInt => if is_digit u then NInt
            else if N.eqb u 46 then NDot else if e then NExp else NBad
  | NDot => if is_digit u then NFrac else NBad
  | NFrac => if is_digit u then NFrac else if e then NExp else NBad
  | NExp => if is_digit u then NExpDigits
            else if N.eqb u 43 || N.eqb u 45 then NExpSign else NBad
  | NExpSign => if is_digit u then NExpDigits else NBad
  | NExpDigits => if is_digit u then NExpDigits else NBad
  | NBad => NBad
  end.

Definition is_number (w : jsstring) : bool :=
  match fold_left num_step w NStart with
  | NZero | NInt | NFrac | NExpDigits => true
  | _ => false
  end.

(** The value of a number literal: mantissa digits, the count of those
    after the dot, and the exponent. *)
Record num_acc : Type := {
  acc_neg : bool; acc_mant : Z; acc_scale : Z;
  acc_eneg : bool; acc_exp : Z; acc_phase : N   (* 0 integer, 1 fraction, 2 exponent *)
}.

Definition num_read (a : num_acc) (u : N) : num_acc :=
  let set_phase p := {| acc_neg := acc_neg a; acc_mant := acc_mant a;
                        acc_scale := acc_scale a; acc_eneg := acc_eneg a;
                        acc_exp := acc_exp a; acc_phase := p |} in
  if N.eqb u 46 then set_phase 1%N
  else if N.eqb u 101 || N.eqb u 69 then set_phase 2%N
  else if N.eqb u 45 then
    if N.eqb (acc_phase a) 2
    then {| acc_neg := acc_neg a; acc_mant := acc_mant a; acc_scale := acc_scale a;
            acc_eneg := true; acc_exp := acc_exp a; acc_phase := acc_phase a |}
    else {| acc_neg := true; acc_mant := acc_mant a; acc_scale := acc_scale a;
            acc_eneg := acc_eneg a; acc_exp := acc_exp a; acc_phase := acc_phase a |}
  else if is_digit u then
    let d := Z.of_N (u - 48) in
    if N.eqb (acc_phase a) 2
    then {| acc_neg := acc_neg a; acc_mant := acc_mant a; acc_scale := acc_scale a;
            acc_eneg := acc_eneg a; acc_exp := (acc_exp a * 10 + d)%Z;
            acc_phase := acc_phase a |}
    else {| acc_neg := acc_neg a; acc_mant := (acc_mant a * 10 + d)%Z;
            acc_scale := if N.eqb (acc_phase a) 1
                         then (acc_scale a + 1)%Z else acc_scale a;
            acc_eneg := acc_eneg a; acc_exp := acc_exp a; acc_phase := acc_phase a |}
  else a.

Definition number_value (w : jsstring) : Q :=
  let a := fold_left num_read w
             {| acc_neg := false; acc_mant := 0; acc_scale := 0;
                acc_eneg := false; acc_exp := 0; acc_phase := 0 |} in
  let m := if acc_neg a then (- acc_mant a)%Z else acc_mant a in
  let e := ((if acc_eneg a then - acc_exp a else acc_exp a) - acc_scale a)%Z in
  if (0 <=? e)%Z then inject_Z (m * 10 ^ e)
  else Qred (Qmake m (Z.to_pos (10 ^ (- e)))).

Definition word_token (w : jsstring) : option token :=
  if jsstring_eqb w (str "true") then Some TTrue
  else if jsstring_eqb w (str "false") then Some TFalse
  else if jsstring_eqb w (str "null") then Some TNull
  else if is_number w then Some (TNumber w)
  else None.

Definition punct (u : N) : option token :=
  if N.eqb u 123 then Some TLBrace
  else if N.eqb u 125 then Some TRBrace
  else if N.eqb u 91 then Some TLBrack
  else if N.eqb u 93 then Some TRBrack
  else if N.eqb u 58 then Some TColon
  else if N.eqb u 44 then Some TComma
  else None.

(** One unit read outside any token. The tokens are collected reversed. *)
Definition lex_default (u : N) (rtoks : list token)
  : option (lex_state * list token) :=
  if is_ws u then Some (LDefault, rtoks)
  else if N.eqb u 34 then Some (LString [], rtoks)
  else if is_word u then Some (LWord [u], rtoks)
  else match punct u with
       | Some t => Some (LDefault, t :: rtoks)
       | None => None
       end.

Definition escape (u : N) : option N :=
  if N.eqb u 34 then Some 34%N          (* quote *)
  else if N.eqb u 92 then Some 92%N     (* backslash *)
  else if N.eqb u 47 then Some 47%N     (* slash *)
  else if N.eqb u 98 then Some 8%N      (* backspace *)
  else if N.eqb u 102 then Some 12%N    (* form feed *)
  else if N.eqb u 110 then Some 10%N    (* line feed *)
  else if N.eqb u 114 then Some 13%N    (* carriage return *)
  else if N.eqb u 116 then Some 9%N     (* tab *)
  else None.

Definition lex_step (st : lex_state) (rtoks : list token) (u : N)
  : option (lex_state * list token) :=
  match st with
  | LDefault => lex_default u rtoks
  | LWord racc =>
      if is_word u then Some (LWord (u :: racc), rtoks)
      else match word_token (rev racc) with
           | Some t => lex_default u (t :: rtoks)
           | None => None
           end
  | LString racc =>
      if N.eqb u 34 then Some (LDefault, TString (rev racc) :: rtoks)
      else if N.eqb u 92 then Some (LEscape racc, rtoks)
      else if N.ltb u 32 then None
      else Some (LString (u :: racc), rtoks)
  | LEscape racc =>
      if N.eqb u 117 then Some (LUnicode racc [], rtoks)
      else match escape u with
           | Some c => Some (LString (c :: racc), rtoks)
           | None => None
           end
  | LUnicode racc ds =>
      match hex_digit u with
      | Some d =>
          match ds with
          | [a; b; c] =>
              Some (LString ((((a * 16 + b) * 16 + c) * 16 + d)%N :: racc), rtoks)
          | _ => Some (LUnicode racc (ds ++ [d]), rtoks)
          end
      | None => None
      end
  end.

Fixpoint lex_from (st : lex_state) (rtoks : list token) (text : jsstring)
  : option (list token) :=
  match text with
  | [] =>
      match st with
      | LDefault => Some (rev rtoks)
      | LWord racc =>
          match word_token (rev racc) with
          | Some t => Some (rev (t :: rtoks))
          | None => None
          end
      | _ => None
      end
  | u :: r =>
      match lex_step st rtoks u with
      | Some (st', rtoks') => lex_from st' rtoks' r
      | None => None
      end
  end.

Definition lex (text : jsstring) : option (list token) :=
  lex_from LDefault [] text.

(** *** Syntactic grammar

    A stack of the containers that are open, and what may come next. *)

Inductive frame : Type :=
| InArr (ritems : list value)                              (* elements so far, reversed *)
| InObj (ms : list (jsstring * value)) (key : option jsstring).  (* members so far, key awaiting its value *)

Inductive mode : Type :=
| ExpectValue          (* at the start, after a colon, after a comma in an array *)
| ExpectValueOrClose   (* just after [ *)
| ExpectKeyOrClose     (* just after { *)
| ExpectKey            (* after a comma in an object *)
| ExpectColon          (* after a key *)
| AfterValue           (* after an element or member: comma or close *)
| Done (v : value).    (* the top-level value is complete *)

(** A complete value goes to the innermost open container, or is the result. *)
Definition push_value (v : value) (stk : list frame) : option (mode * list frame) :=
  match stk with
  | [] => Some (Done v, [])
  | InArr ritems :: r => Some (AfterValue, InArr (v :: ritems) :: r)
  | InObj ms (Some k) :: r => Some (AfterValue, InObj (obj_set k v ms) None :: r)
  | InObj _ None :: _ => None
  end.

Definition open_value (t : token) (stk : list frame) : option (mode * list frame) :=
  match t with
  | TString s => push_value (Str s) stk
  | TNumber n => push_value (Num (number_value n)) stk
  | TTrue => push_value (Bool true) stk
  | TFalse => push_value (Bool false) stk
  | TNull => push_value Null stk
  | TLBrack => Some (ExpectValueOrClose, InArr [] :: stk)
  | TLBrace => Some (ExpectKeyOrClose, InObj [] None :: stk)
  | _ => None
  end.

Definition take_key (t : token) (stk : list frame) : option (mode * list frame) :=
  match t, stk with
  | TString k, InObj ms None :: r => Some (ExpectColon, InObj ms (Some k) :: r)
  | _, _ => None
  end.

Definition close_arr (stk : list frame) : option (mode * list frame) :=
  match stk with
  | InArr ritems :: r => push_value (Arr (rev ritems)) r
  | _ => None
  end.

Definition close_obj (stk : list frame) : option (mode * list frame) :=
  match stk with
  | InObj ms None :: r => push_value (Obj ms) r
  | _ => None
  end.

Definition parse_step (m : mode) (stk : list frame) (t : token)
  : option (mode * list frame) :=
  match m with
  | ExpectValue => open_value t stk
  | ExpectValueOrClose =>
      match t with
      | TRBrack => close_arr stk
      | _ => open_value t stk
      end
  | ExpectKeyOrClose =>
      match t with
      | TRBrace => close_obj stk
      | _ => take_key t stk
      end
  | ExpectKey => take_key t stk
  | ExpectColon =>
      match t with
      | TColon => Some (ExpectValue, stk)
      | _ => None
      end
  | AfterValue =>
      match t, stk with
      | TComma, InArr _ :: _ => Some (ExpectValue, stk)
      | TComma, InObj _ None :: _ => Some (ExpectKey, stk)
      | TRBrack, _ => close_arr stk
      | TRBrace, _ => close_obj stk
      | _, _ => None
      end
  | Done _ => None
  end.

Fixpoint parse_from (m : mode) (stk : list frame) (toks : list token)
  : option value :=
  match toks with
  | [] => match m with Done v => Some v | _ => None end
  | t :: r =>
      match parse_step m stk t with
      | Some (m', stk') => parse_from m' stk' r
      | None => None
      end
  end.

(** The text as a JSON value, before any reviver runs. *)
Definition parse_text (text : jsstring) : outcome value :=
  match lex text with
  | Some toks =>
      match parse_from ExpectValue [] toks with
      | Some v => Ok v
      | None => Throw SyntaxError
      end
  | None => Throw SyntaxError
  end.

(** *** The reviver walk

    [InternalizeJSONProperty]: the children of a container are revived
    first and put back under their keys (a child revived to [undefined] is
    deleted from an object), then the reviver is called on the container
    itself. *)
Section Reviver.
Variable reviver : jsstring -> value -> value.

Definition keep_defined (k : jsstring) (v : value) (r : list (jsstring * value))
  : list (jsstring * value) :=
  match v with
  | Undefined => r
  | _ => (k, v) :: r
  end.

Fixpoint internalize (key : jsstring) (v : value) : value :=
  match v with
  | Arr items =>
      let fix elements (i : nat) (l : list value) : list value :=
        match l with
        | [] => []
        | x :: r => internalize (index_key i) x :: elements (S i) r
        end in
      reviver key (Arr (elements 0%nat items))
  | Obj ms =>
      let fix members (l : list (jsstring * value)) : list (jsstring * value) :=
        match l with
        | [] => []
        | (k, x) :: r => keep_defined k (internalize k x) (members r)
        end in
      reviver key (Obj (members ms))
  | _ => reviver key v
  end.

(** The two loops of the walk, by name. *)
Fixpoint elements (i : nat) (l : list value) : list value :=
  match l with
  | [] => []
  | x :: r => internalize (index_key i) x :: elements (S i) r
  end.

Fixpoint members (l : list (jsstring * value)) : list (jsstring * value) :=
  match l with
  | [] => []
  | (k, x) :: r => keep_defined k (internalize k x) (members r)
  end.

(** [JSON.parse(text, reviver)] *)
Definition parse (text : jsstring) : outcome value :=
  v <- parse_text text ;; Ok (internalize [] v).
End Reviver.

End JSON.

(** ** The database behind the ORM *)

Module Prisma.

(** Modelled from the spec: the Prisma schema is not part of the sources.
    The rows carry the fields the data model lists for Layer, Feature and
    Assignment; a Layer is owned through [dispatcher] in one revision of the
    action and through [admins] in the other, and [name] is unique (the
    loaders look a layer up with [findUniqueOrThrow({ where: { name } })]). *)
Record LayerRow : Type := {
  layer_id : Z;
  layer_name : jsstring;
  layer_labelField : option jsstring;
  layer_dispatcherId : option Z;
  layer_adminIds : list Z;
  layer_defaultSurveyId : option Z
}.

Record FeatureRow : Type := {
  feature_id : Z;
  feature_layerId : Z;
  feature_geojson : value;
  feature_label : option jsstring
}.

Record AssignmentRow : Type := {
  assignment_id : Z;
  assignment_featureId : Z;
  assignment_assigneeId : Z;
  assignment_surveyId : option Z;
  assignment_completed : bool
}.

Record DB : Type := {
  layers : list LayerRow;
  features : list FeatureRow;
  assignments : list AssignmentRow;
  userIds : list Z;       (* the users a layer can be connected to *)
  surveyIds : list Z      (* the surveys a layer can default to *)
}.

(** An autoincrement key: above every key in use. *)
Definition next_id (ids : list Z) : Z := (fold_right Z.max 0 ids + 1)%Z.

(** A route handler: it reads and writes the database and returns or throws. *)
Definition io (A : Type) : Type := DB -> outcome A * DB.

Definition ret {A} (a : A) : io A := fun db => (Ok a, db).

Definition lift {A} (o : outcome A) : io A := fun db => (o, db).

Definition iobind {A B} (m : io A) (f : A -> io B) : io B :=
  fun db =>
    match m db with
    | (Ok a, db') => f a db'
    | (Throw e, db') => (Throw e, db')
    end.

(** The argument of [prisma.layer.create({ data })] as the actions build it.
    A [connect] carries the id it was given, which may be [undefined]; the
    default survey's id is the result of [parseInt], [None] for [NaN] and
    for an infinity, which are no integer to the ORM alike. *)
Record LayerCreateInput : Type := {
  name : jsstring;
  labelField : option jsstring;
  dispatcher : option (option Z);          (* { connect: { id } } *)
  admins : option (option Z);              (* { connect: { id } } *)
  features_createMany : option value;      (* { createMany: { data } } *)
  defaultSurvey : option (option Z)        (* { connect: { id } } or undefined *)
}.

Definition is_undefined (v : value) : bool :=
  match v with Undefined => true | _ => false end.

(** One element of [createMany.data] against the Feature columns a nested
    create may set: [geojson], required, any JSON value but [null]; [label],
    an optional string. A property whose value is [undefined] counts as
    absent; any other key is refused (a key chosen by the caller too: the
    import form sends [geojson] only, and keys are generated). *)
Definition feature_input (v : value) : option (value * option jsstring) :=
  match v with
  | Obj ms =>
      if forallb (fun kv => is_undefined (snd kv)
                            || jsstring_eqb (fst kv) (str "geojson")
                            || jsstring_eqb (fst kv) (str "label")) ms
      then
        match lookup (str "geojson") ms with
        | None | Some Undefined | Some Null | Some (Builtin _) => None
        | Some g =>
            match lookup (str "label") ms with
            | None | Some Undefined | Some Null => Some (g, None)
            | Some (Str s) => Some (g, Some s)
            | Some _ => None
            end
        end
      else None
  | _ => None
  end.

Fixpoint feature_inputs (l : list value) : option (list (value * option jsstring)) :=
  match l with
  | [] => Some []
  | v :: r =>
      match feature_input v, feature_inputs r with
      | Some x, Some xs => Some (x :: xs)
      | _, _ => None
      end
  end.

(** [createMany.data] is one record or an array of records. *)
Definition createMany_data (data : value) : option (list (value * option jsstring)) :=
  match data with
  | Arr items => feature_inputs items
  | Obj _ => feature_inputs [data]
  | _ => None
  end.

(** A [connect] needs an id. *)
Definition connect_id (c : option (option Z)) : option (option Z) :=
  match c with
  | None => Some None
  | Some (Some id) => Some (Some id)
  | Some None => None
  end.

(** The checks made before any statement reaches the database. *)
Definition validate (input : LayerCreateInput)
  : option (option Z * option Z * option Z * list (value * option jsstring)) :=
  match connect_id (dispatcher input), connect_id (admins input),
        connect_id (defaultSurvey input) with
  | Some d, Some a, Some s =>
      match features_createMany input with
      | None => Some (d, a, s, [])
      | Some data =>
          match createMany_data data with
          | Some rows => Some (d, a, s, rows)
          | None => None
          end
      end
  | _, _, _ => None
  end.

Definition known (ids : list Z) (c : option Z) : bool :=
  match c with
  | None => true
  | Some id => existsb (Z.eqb id) ids
  end.

Fixpoint feature_rows (layerId : Z) (firstId : Z)
         (rows : list (value * option jsstring)) : list FeatureRow :=
  match rows with
  | [] => []
  | (g, l) :: r =>
      {| feature_id := firstId; feature_layerId := layerId;
         feature_geojson := g; feature_label := l |}
      :: feature_rows layerId (firstId + 1)%Z r
  end.

(** [prisma.layer.create({ data })], the one write of the action. The ORM
    is a library, modelled by what it documents: the arguments are checked
    against the schema first; a nested write is one transaction, so the
    layer and its features are stored together or not at all; a name
    already taken fails the unique constraint; a [connect] to a record that
    does not exist fails with record-not-found. *)
Definition layer_create (input : LayerCreateInput) : io LayerRow :=
  fun db =>
    match validate input with
    | None => (Throw PrismaValidationError, db)
    | Some (d, a, s, rows) =>
        if existsb (fun l => jsstring_eqb (layer_name l) (name input)) (layers db)
        then (Throw (UniqueConstraintFailed (str "name")), db)
        else if negb (known (userIds db) d && known (userIds db) a
                      && known (surveyIds db) s)
        then (Throw RecordNotFound, db)
        else
          let id := next_id (map layer_id (layers db)) in
          let row := {| layer_id := id;
                        layer_name := name input;
                        layer_labelField := labelField input;
                        layer_dispatcherId := d;
                        layer_adminIds := match a with Some x => [x] | None => [] end;
                        layer_defaultSurveyId := s |} in
          (Ok row,
           {| layers := layers db ++ [row];
              features := features db
                          ++ feature_rows id (next_id (map feature_id (features db))) rows;
              assignments := assignments db;
              userIds := userIds db;
              surveyIds := surveyIds db |})
    end.

(** [prisma.layer.findUniqueOrThrow({ where: { name } })] *)
Definition layer_findUniqueOrThrow (nm : jsstring) : io LayerRow :=
  fun db =>
    match find (fun l => jsstring_eqb (layer_name l) nm) (layers db) with
    | Some l => (Ok l, db)
    | None => (Throw RecordNotFound, db)
    end.

(** A Feature with its Assignment, as [include: { assignment: true }]
    returns it. *)
Record FeatureWithAssignment : Type := {
  feature : FeatureRow;
  assignment : AssignmentRow
}.

Definition assignment_of (db : DB) (f : FeatureRow) : option AssignmentRow :=
  find (fun a => Z.eqb (assignment_featureId a) (feature_id f)) (assignments db).

(** [prisma.feature.findMany({ where: { layerId, assignment: { is: {
    assigneeId } } }, include: { assignment: true } })] *)
Definition feature_findMany (layerId assigneeId : Z) : io (list FeatureWithAssignment) :=
  fun db =>
    (Ok (flat_map
           (fun f =>
              if Z.eqb (feature_layerId f) layerId then
                match assignment_of db f with
                | Some a =>
                    if Z.eqb (assignment_assigneeId a) assigneeId
                    then [{| feature := f; assignment := a |}]
                    else []
                | None => []
                end
              else [])
           (features db)),
     db).

End Prisma.

Notation "x <~ m ;; k" := (Prisma.iobind m (fun x => k))
  (at level 61, m at next level, right associativity).

(** ** The redirect of the framework *)

Module Remix.

(** [redirect(url, init)] builds a response and sets [url] as its
    [Location] header, and a header refuses some values with a [TypeError].
    The check is the one the Fetch standard gives [Headers.set]: the value
    is a byte string, so every code unit is at most 255; tabs, line feeds,
    carriage returns and spaces at its two ends are dropped; and what is
    left holds no NUL, no line feed and no carriage return. *)
Definition is_http_whitespace (u : N) : bool :=
  N.eqb u 9 || N.eqb u 10 || N.eqb u 13 || N.eqb u 32.

Fixpoint drop_whitespace (s : jsstring) : jsstring :=
  match s with
  | u :: r => if is_http_whitespace u then drop_whitespace r else s
  | [] => []
  end.

Definition normalize (s : jsstring) : jsstring :=
  rev (drop_whitespace (rev (drop_whitespace s))).

Definition header_value_ok (s : jsstring) : bool :=
  forallb (fun u => N.leb u 255) s
  && forallb (fun u => negb (N.eqb u 0 || N.eqb u 10 || N.eqb u 13))
             (normalize s).

(** The answer is modelled by the URL the action asks for; here is only
    whether [redirect] returns. *)
Definition redirect (url : jsstring) : outcome unit :=
  if header_value_ok url then Ok tt else Throw TypeError.

End Remix.

(** ** The layer-create action *)

Module LayerCreate.

(** [Array.from(value)] on a string: its code points, a surrogate pair
    taken together, an unpaired surrogate on its own. *)
Definition is_high (u : N) : bool := N.leb 55296 u && N.leb u 56319.
Definition is_low (u : N) : bool := N.leb 56320 u && N.leb u 57343.

Fixpoint Array_from (s : jsstring) : list jsstring :=
  match s with
  | [] => []
  | c :: r =>
      match r with
      | d :: r' =>
          if is_high c && is_low d then [c; d] :: Array_from r'
          else [c] :: Array_from r
      | [] => [[c]]
      end
  end.

(** [new Set(xs)] spread back into an array: the distinct elements in the
    order they first appear. *)
Definition Set_add (x : jsstring) (seen : list jsstring) : list jsstring :=
  if existsb (jsstring_eqb x) seen then seen else seen ++ [x].

Definition Set_of (xs : list jsstring) : list jsstring :=
  fold_left (fun seen x => Set_add x seen) xs [].

(** The reviver both revisions pass to [JSON.parse]. *)
Definition reviver (key : jsstring) (v : value) : value :=
  match v with
  | Str s =>
      if (length s =? 254)%nat && (length (Set_of (Array_from s)) =? 1)%nat
      then Str []
      else v
  | _ => v
  end.

(** The submitted form and the session that came with the request. An entry
    the form does not carry reads as [undefined]. *)
Record Request : Type := {
  form_features : option jsstring;
  form_name : option jsstring;
  form_field : option jsstring;
  form_surveyId : option jsstring;
  session_userId : option Z
}.

(** The redirect an action answers with, by the URL it gave to [redirect],
    and the [task] entry of the session committed in its cookie. *)
Record Response : Type := {
  location : jsstring;
  session_task : option jsstring
}.

(** [String(x)] on a form entry *)
Definition String_ (x : option jsstring) : jsstring :=
  match x with
  | Some s => s
  | None => str "undefined"
  end.

(** [features == ""] *)
Definition is_empty_string (x : option jsstring) : bool :=
  match x with
  | Some [] => true
  | _ => false
  end.

(** The truthiness of a form entry: present and not empty. *)
Definition truthy (x : option jsstring) : bool :=
  match x with
  | Some (_ :: _) => true
  | _ => false
  end.

(** [parseInt(s)]: leading white space, a sign, [0x] for hexadecimal, then
    the longest run of digits, read as a double. [None] is a result that is
    no finite number: [NaN] where no digit is found, an infinity where the
    digits run past the largest double. *)
Definition is_strws (u : N) : bool :=
  (N.leb 9 u && N.leb u 13) || N.eqb u 32 || N.eqb u 160 || N.eqb u 5760
  || (N.leb 8192 u && N.leb u 8202) || N.eqb u 8232 || N.eqb u 8233
  || N.eqb u 8239 || N.eqb u 8287 || N.eqb u 12288 || N.eqb u 65279.

Fixpoint trim_start (s : jsstring) : jsstring :=
  match s with
  | u :: r => if is_strws u then trim_start r else s
  | [] => []
  end.

Definition digit_value (radix u : N) : option N :=
  let d := if N.leb 48 u && N.leb u 57 then Some (u - 48)%N
           else if N.leb 97 u && N.leb u 122 then Some (u - 87)%N
           else if N.leb 65 u && N.leb u 90 then Some (u - 55)%N
           else None in
  match d with
  | Some x => if N.ltb x radix then Some x else None
  | None => None
  end.

Fixpoint digits_prefix (radix : N) (acc : option N) (s : jsstring) : option N :=
  match s with
  | u :: r =>
      match digit_value radix u with
      | Some d =>
          digits_prefix radix
            (Some (match acc with Some a => a * radix + d | None => d end)%N) r
      | None => acc
      end
  | [] => acc
  end.

(** The double nearest to a natural number, a tie going to the even
    mantissa; [None] where that is past the largest double. *)
Definition to_double (n : N) : option N :=
  if N.ltb n (2 ^ 53) then Some n
  else
    let e := (N.log2 n - 52)%N in
    let q := N.shiftr n e in
    let r := N.land n (N.ones e) in
    let half := N.shiftl 1 (e - 1) in
    let q' := if N.ltb half r || (N.eqb r half && N.odd q)
              then (q + 1)%N else q in
    let m := N.shiftl q' e in
    if N.ltb m (2 ^ 1024) then Some m else None.

Definition parseInt (s : jsstring) : option Z :=
  let s1 := trim_start s in
  let '(neg, s2) := match s1 with
                    | 45%N :: r => (true, r)
                    | 43%N :: r => (false, r)
                    | _ => (false, s1)
                    end in
  let '(radix, s3) := match s2 with
                      | 48%N :: x :: r =>
                          if N.eqb x 120 || N.eqb x 88 then (16%N, r) else (10%N, s2)
                      | _ => (10%N, s2)
                      end in
  match digits_prefix radix None s3 with
  | Some n =>
      match to_double n with
      | Some m => Some (if neg then - Z.of_N m else Z.of_N m)%Z
      | None => None
      end
  | None => None
  end.

(** [surveyId ? { connect: { id: parseInt(surveyId) } } : undefined] *)
Definition defaultSurvey_of (surveyId : option jsstring) : option (option Z) :=
  if truthy surveyId then Some (parseInt (String_ surveyId)) else None.

(** *** The revision that owns the layer through [dispatcher] *)
Module Dispatcher.

(** The [if (features == "") ... else ...] that fills [layer]. *)
Definition layer (req : Request) (parsedFeatures : value)
  : Prisma.LayerCreateInput :=
  if is_empty_string (form_features req) then
    {| Prisma.name := String_ (form_name req);
       Prisma.labelField := Some (String_ (form_field req));
       Prisma.dispatcher := Some (session_userId req);
       Prisma.admins := None;
       Prisma.features_createMany := None;
       Prisma.defaultSurvey := defaultSurvey_of (form_surveyId req) |}
  else
    {| Prisma.name := String_ (form_name req);
       Prisma.labelField := Some (String_ (form_field req));
       Prisma.dispatcher := Some (session_userId req);
       Prisma.admins := None;
       Prisma.features_createMany := Some parsedFeatures;
       Prisma.defaultSurvey := defaultSurvey_of (form_surveyId req) |}.

(** The action: the write, then the redirect to the page of the new
    layer. The session belongs to the session module, which is not part of
    the sources: [session.set] and [commitSession] are taken to return. *)
Definition action (req : Request) : Prisma.io Response :=
  parsedFeatures <~ Prisma.lift
    (JSON.parse reviver (String_ (form_features req))) ;;
  _ <~ Prisma.layer_create (layer req parsedFeatures) ;;
  _ <~ Prisma.lift
    (Remix.redirect (str "/admin/layers/" ++ String_ (form_name req))) ;;
  Prisma.ret {| location := str "/admin/layers/" ++ String_ (form_name req);
                session_task := form_name req |}.

End Dispatcher.

(** *** The revision that owns the layer through [admins] *)
Module Admins.

Section Runtime.

(** The runtime's part of a property read, see [JS.Get]. *)
Variable other_get : value -> jsstring -> value.

(** [(f) => ({ ...f, label: f.geojson.properties[String(field)] })] *)
Definition with_label (field : option jsstring) (f : value) : outcome value :=
  g <- Get other_get f (str "geojson") ;;
  p <- Get other_get g (str "properties") ;;
  l <- Get other_get p (String_ field) ;;
  Ok (Obj (obj_set (str "label") l (spread f))).

(** [parsedFeatures.map(...)]: only an array has [map]. *)
Definition map_features (field : option jsstring) (parsedFeatures : value)
  : outcome value :=
  match parsedFeatures with
  | Arr items => data <- mapM (with_label field) items ;; Ok (Arr data)
  | _ => Throw TypeError
  end.

(** The [if (features == "") ... else ...] that fills [layer]. *)
Definition layer (req : Request) (parsedFeatures : value)
  : outcome Prisma.LayerCreateInput :=
  if is_empty_string (form_features req) then
    Ok {| Prisma.name := String_ (form_name req);
          Prisma.labelField := None;
          Prisma.dispatcher := None;
          Prisma.admins := Some (session_userId req);
          Prisma.features_createMany := None;
          Prisma.defaultSurvey := defaultSurvey_of (form_surveyId req) |}
  else
    data <- map_features (form_field req) parsedFeatures ;;
    Ok {| Prisma.name := String_ (form_name req);
          Prisma.labelField := None;
          Prisma.dispatcher := None;
          Prisma.admins := Some (session_userId req);
          Prisma.features_createMany := Some data;
          Prisma.defaultSurvey := defaultSurvey_of (form_surveyId req) |}.

Definition action (req : Request) : Prisma.io Response :=
  parsedFeatures <~ Prisma.lift
    (JSON.parse reviver (String_ (form_features req))) ;;
  l <~ Prisma.lift (layer req parsedFeatures) ;;
  _ <~ Prisma.layer_create l ;;
  _ <~ Prisma.lift (Remix.redirect (str "/admin/layers")) ;;
  Prisma.ret {| location := str "/admin/layers"; session_task := None |}.

End Runtime.

End Admins.

(** Either revision, picked by name. *)
Inductive revision : Type := ByDispatcher | ByAdmins.

Definition action (other_get : value -> jsstring -> value) (r : revision)
  : Request -> Prisma.io Response :=
  match r with
  | ByDispatcher => Dispatcher.action
  | ByAdmins => Admins.action other_get
  end.

End LayerCreate.

(** ** The task map *)

Module TaskMap.

Import Prisma.

Record LngLat : Type := { lng : Q; lat : Q }.

Record ViewState : Type := { longitude : Q; latitude : Q; zoom : Q }.

(** The query both revisions of the loader run. *)
Definition query (userId : Z) (taskId : jsstring)
  : io (list FeatureWithAssignment * LayerRow) :=
  layer <~ layer_findUniqueOrThrow taskId ;;
  assignments <~ feature_findMany (layer_id layer) userId ;;
  ret (assignments, layer).

(** What the route component is given: the loader data and the user id
    from the outlet context. *)
Record Props : Type := {
  assignments_ : list FeatureWithAssignment;
  layer_ : LayerRow;
  userId_ : Z
}.

(** A feature of a GeoJSON source, as the map hands it back on a click. *)
Record MapFeature : Type := {
  mf_id : Z;
  mf_geometry : value;
  mf_properties : list (jsstring * value)
}.

(** [feature.properties.k] *)
Definition property (f : MapFeature) (k : string) : value :=
  match lookup (str k) (mf_properties f) with
  | Some v => v
  | None => Undefined
  end.

Definition id_value (x : option Z) : value :=
  match x with
  | Some i => Num (inject_Z i)
  | None => Null
  end.

Section Collections.
Variable other_get : value -> jsstring -> value.

(** The [map] callback of both collections; [flag] is the literal the
    collection writes into [completed]. *)
Definition map_feature (flag : bool) (f : FeatureWithAssignment)
  : outcome MapFeature :=
  geometry <- Get other_get (feature_geojson (feature f)) (str "geometry") ;;
  properties <- Get other_get (feature_geojson (feature f)) (str "properties") ;;
  Ok {| mf_id := feature_id (feature f);
        mf_geometry := geometry;
        mf_properties :=
          obj_set (str "completed") (Bool flag)
            (obj_set (str "assignmentId")
               (Num (inject_Z (assignment_id (assignment f))))
               (obj_set (str "surveyId")
                  (id_value (assignment_surveyId (assignment f)))
                  (spread properties))) |}.

Definition completedAssignments (assignments : list FeatureWithAssignment)
  : outcome (list MapFeature) :=
  mapM (map_feature true)
       (filter (fun f => assignment_completed (assignment f)) assignments).

Definition todoAssignments (assignments : list FeatureWithAssignment)
  : outcome (list MapFeature) :=
  mapM (map_feature false)
       (filter (fun f => negb (assignment_completed (assignment f))) assignments).
End Collections.

(** [e.lngLat] and [e.features] of a map click: the features of the
    interactive layers [todo] and [done] under the pointer. *)
Record ClickEvent : Type := {
  lngLat : LngLat;
  hit : list MapFeature
}.

(** What the client sends to the server. *)
Inductive Submission : Type :=
| CreatePoint (layerId : Z) (coordinates : LngLat) (userId : Z)   (* POST /layer/feature-create *)
| OpenSurvey (assignmentId : value) (viewState : ViewState).      (* POST to the route itself *)

(** *** The revision with the Add Point popup *)
Module Popup.

Definition loader := query.

Record State : Type := {
  showPopup : bool;
  addPoint : bool;
  basemap : jsstring;
  dCoords : LngLat;
  cCoords : LngLat;
  completed : value;
  assignment : value
}.

Definition init : State :=
  {| showPopup := false; addPoint := false; basemap := str "streets-v11";
     dCoords := {| lng := 0; lat := 0 |}; cCoords := {| lng := 0; lat := 0 |};
     completed := Undefined; assignment := Undefined |}.

Definition initialViewState : ViewState :=
  {| longitude := -12244 # 100; latitude := 3775 # 100; zoom := 12 |}.

Definition onFeatureClick (e : ClickEvent) (st : State) : State :=
  match hit e with
  | f :: _ =>
      {| showPopup := true; addPoint := addPoint st; basemap := basemap st;
         dCoords := lngLat e; cCoords := cCoords st;
         completed := property f "completed";
         assignment := property f "assignmentId" |}
  | [] =>
      {| showPopup := showPopup st; addPoint := true; basemap := basemap st;
         dCoords := lngLat e; cCoords := cCoords st;
         completed := completed st; assignment := assignment st |}
  end.

Definition onMove (st : State) : State :=
  {| showPopup := false; addPoint := false; basemap := basemap st;
     dCoords := dCoords st; cCoords := cCoords st;
     completed := completed st; assignment := assignment st |}.

Definition closePopup (st : State) : State :=
  {| showPopup := false; addPoint := addPoint st; basemap := basemap st;
     dCoords := dCoords st; cCoords := cCoords st;
     completed := completed st; assignment := assignment st |}.

Definition closeAddPoint (st : State) : State :=
  {| showPopup := showPopup st; addPoint := false; basemap := basemap st;
     dCoords := dCoords st; cCoords := cCoords st;
     completed := completed st; assignment := assignment st |}.

Definition createPoint (p : Props) (st : State) : State * Submission :=
  (closeAddPoint st,
   CreatePoint (layer_id (layer_ p)) (dCoords st) (userId_ p)).

Definition setCurrentLocation (c : LngLat) (st : State) : State :=
  {| showPopup := showPopup st; addPoint := addPoint st; basemap := basemap st;
     dCoords := dCoords st; cCoords := c;
     completed := completed st; assignment := assignment st |}.

Definition setBasemap (b : jsstring) (st : State) : State :=
  {| showPopup := showPopup st; addPoint := addPoint st; basemap := b;
     dCoords := dCoords st; cCoords := cCoords st;
     completed := completed st; assignment := assignment st |}.

(** What is on screen: the feature popup, with where it stands and
    whether it carries the Complete Survey link, and the Add Point popup
    with where it stands. *)
Record View : Type := {
  featurePopup : option (LngLat * bool);
  addPointPopup : option LngLat
}.

Definition render (st : State) : View :=
  {| featurePopup :=
       if showPopup st
       then Some (dCoords st,
                  negb (truthy_value (completed st)) && truthy_value (assignment st))
       else None;
     addPointPopup := if addPoint st then Some (dCoords st) else None |}.

(** The component together with the map camera, which the map keeps to
    itself in this revision, and what has been sent. *)
Record World : Type := {
  ui : State;
  camera : ViewState;
  submitted : list Submission
}.

Inductive Event : Type :=
| Click (e : ClickEvent)
| CameraChange (vs : ViewState)     (* a pan or a zoom: the map fires onMove *)
| ClosePopup
| CloseAddPoint
| ConfirmAddPoint                   (* the Add Point button *)
| Geolocate (c : LngLat)
| SelectBasemap (b : jsstring).

Definition start : World :=
  {| ui := init; camera := initialViewState; submitted := [] |}.

Definition step (p : Props) (w : World) (ev : Event) : World :=
  let keep st := {| ui := st; camera := camera w; submitted := submitted w |} in
  match ev with
  | Click e => keep (onFeatureClick e (ui w))
  | CameraChange vs =>
      {| ui := onMove (ui w); camera := vs; submitted := submitted w |}
  | ClosePopup => keep (closePopup (ui w))
  | CloseAddPoint => keep (closeAddPoint (ui w))
  | ConfirmAddPoint =>
      match addPointPopup (render (ui w)) with
      | Some _ =>
          let '(st, s) := createPoint p (ui w) in
          {| ui := st; camera := camera w; submitted := submitted w ++ [s] |}
      | None => w
      end
  | Geolocate c => keep (setCurrentLocation c (ui w))
  | SelectBasemap b => keep (setBasemap b (ui w))
  end.

Definition run (p : Props) (evs : list Event) (w : World) : World :=
  fold_left (step p) evs w.

End Popup.

(** *** The revision with the crosshair *)
Module Crosshair.

Definition loader (userId : Z) (taskId : jsstring) (savedState : option ViewState)
  : io (list FeatureWithAssignment * LayerRow * option ViewState) :=
  r <~ query userId taskId ;;
  ret (r, savedState).

Record State : Type := {
  showPopup : bool;
  addPoint : bool;
  basemap : jsstring;
  dCoords : LngLat;
  cCoords : LngLat;
  preventZoom : bool;
  viewState : ViewState;
  completed : value;
  assignment : value
}.

Definition defaultViewState : ViewState :=
  {| longitude := -12244 # 100; latitude := 3775 # 100; zoom := 12 |}.

Definition init (savedState : option ViewState) : State :=
  {| showPopup := false; addPoint := false; basemap := str "satellite";
     dCoords := {| lng := 0; lat := 0 |}; cCoords := {| lng := 0; lat := 0 |};
     preventZoom := true;
     viewState := match savedState with
                  | Some vs => vs
                  | None => defaultViewState
                  end;
     completed := Undefined; assignment := Undefined |}.

Definition onFeatureClick (e : ClickEvent) (st : State) : State :=
  match hit e with
  | f :: _ =>
      {| showPopup := true; addPoint := false; basemap := basemap st;
         dCoords := lngLat e; cCoords := cCoords st;
         preventZoom := preventZoom st; viewState := viewState st;
         completed := property f "completed";
         assignment := property f "assignmentId" |}
  | [] =>
      {| showPopup := showPopup st;
         addPoint := if addPoint st then false else addPoint st;
         basemap := basemap st;
         dCoords := lngLat e; cCoords := cCoords st;
         preventZoom := preventZoom st; viewState := viewState st;
         completed := completed st; assignment := assignment st |}
  end.

Definition onMove (vs : ViewState) (st : State) : State :=
  {| showPopup := false; addPoint := addPoint st; basemap := basemap st;
     dCoords := dCoords st; cCoords := cCoords st;
     preventZoom := preventZoom st; viewState := vs;
     completed := completed st; assignment := assignment st |}.

(** [onZoom]: the first zoom is stopped, [e.target.stop()]. *)
Definition onZoom (st : State) : State :=
  {| showPopup := showPopup st; addPoint := addPoint st; basemap := basemap st;
     dCoords := dCoords st; cCoords := cCoords st;
     preventZoom := if preventZoom st then false else preventZoom st;
     viewState := viewState st;
     completed := completed st; assignment := assignment st |}.

Definition closePopup (st : State) : State :=
  {| showPopup := false; addPoint := addPoint st; basemap := basemap st;
     dCoords := dCoords st; cCoords := cCoords st;
     preventZoom := preventZoom st; viewState := viewState st;
     completed := completed st; assignment := assignment st |}.

(** The button with the plus or the cross: [setAddPoint(!addPoint)] *)
Definition toggleAddPoint (st : State) : State :=
  {| showPopup := showPopup st; addPoint := negb (addPoint st); basemap := basemap st;
     dCoords := dCoords st; cCoords := cCoords st;
     preventZoom := preventZoom st; viewState := viewState st;
     completed := completed st; assignment := assignment st |}.

Definition createPoint (p : Props) (st : State) : State * Submission :=
  (st,
   CreatePoint (layer_id (layer_ p))
               {| lng := longitude (viewState st); lat := latitude (viewState st) |}
               (userId_ p)).

Definition getSurvey (st : State) : State * Submission :=
  (st, OpenSurvey (assignment st) (viewState st)).

Definition setCurrentLocation (c : LngLat) (st : State) : State :=
  {| showPopup := showPopup st; addPoint := addPoint st; basemap := basemap st;
     dCoords := dCoords st; cCoords := c;
     preventZoom := preventZoom st; viewState := viewState st;
     completed := completed st; assignment := assignment st |}.

Definition setBasemap (b : jsstring) (st : State) : State :=
  {| showPopup := showPopup st; addPoint := addPoint st; basemap := b;
     dCoords := dCoords st; cCoords := cCoords st;
     preventZoom := preventZoom st; viewState := viewState st;
     completed := completed st; assignment := assignment st |}.

(** What is on screen: the feature popup, with where it stands and
    whether it carries the Complete Survey button, and whether the
    crosshair with its Add Point button is shown. *)
Record View : Type := {
  featurePopup : option (LngLat * bool);
  addPointButton : bool
}.

Definition render (st : State) : View :=
  {| featurePopup :=
       if showPopup st
       then Some (dCoords st,
                  negb (truthy_value (completed st)) && truthy_value (assignment st))
       else None;
     addPointButton := addPoint st |}.

(** The component together with the map camera and what has been sent.
    The map starts at [initialViewState={viewState}]. *)
Record World : Type := {
  ui : State;
  camera : ViewState;
  submitted : list Submission
}.

Inductive Event : Type :=
| Click (e : ClickEvent)
| Pan (vs : ViewState)              (* the map fires onMove *)
| Zoom (vs : ViewState)             (* the map fires onMove, then onZoom *)
| ClosePopup
| ToggleAddPoint
| ConfirmAddPoint                   (* the Add Point button *)
| CompleteSurvey                    (* the Complete Survey button *)
| Geolocate (c : LngLat)
| SelectBasemap (b : jsstring).

Definition start (savedState : option ViewState) : World :=
  {| ui := init savedState; camera := viewState (init savedState);
     submitted := [] |}.

Definition step (p : Props) (w : World) (ev : Event) : World :=
  let keep st := {| ui := st; camera := camera w; submitted := submitted w |} in
  match ev with
  | Click e => keep (onFeatureClick e (ui w))
  | Pan vs =>
      {| ui := onMove vs (ui w); camera := vs; submitted := submitted w |}
  | Zoom vs =>
      {| ui := onZoom (onMove vs (ui w)); camera := vs; submitted := submitted w |}
  | ClosePopup => keep (closePopup (ui w))
  | ToggleAddPoint => keep (toggleAddPoint (ui w))
  | ConfirmAddPoint =>
      if addPointButton (render (ui w)) then
        let '(st, s) := createPoint p (ui w) in
        {| ui := st; camera := camera w; submitted := submitted w ++ [s] |}
      else w
  | CompleteSurvey =>
      match featurePopup (render (ui w)) with
      | Some (_, true) =>
          let '(st, s) := getSurvey (ui w) in
          {| ui := st; camera := camera w; submitted := submitted w ++ [s] |}
      | _ => w
      end
  | Geolocate c => keep (setCurrentLocation c (ui w))
  | SelectBasemap b => keep (setBasemap b (ui w))
  end.

Definition run (p : Props) (evs : list Event) (w : World) : World :=
  fold_left (step p) evs w.

End Crosshair.

End TaskMap.

(** ** The assignment state model *)

Module Assignments.

Import Prisma TaskMap.

(** The GeoJSON of a point. *)
Definition point_geojson (c : LngLat) : value :=
  Obj [(str "type", Str (str "Feature"));
       (str "geometry",
        Obj [(str "type", Str (str "Point"));
             (str "coordinates", Arr [Num (lng c); Num (lat c)])]);
       (str "properties", Obj [])].

(** Modelled from the spec: the handler of [/layer/feature-create] is not
    part of the sources. A field-added point creates one Feature, its
    geometry the point at the submitted coordinates, and one Assignment,
    its assignee the submitting surveyor and [completed] false, both or
    neither. *)
Definition feature_create (layerId : Z) (coordinates : LngLat) (userId : Z)
  : io (FeatureRow * AssignmentRow) :=
  fun db =>
    let f := {| feature_id := next_id (map feature_id (features db));
                feature_layerId := layerId;
                feature_geojson := point_geojson coordinates;
                feature_label := None |} in
    let a := {| assignment_id := next_id (map assignment_id (assignments db));
                assignment_featureId := feature_id f;
                assignment_assigneeId := userId;
                assignment_surveyId := None;
                assignment_completed := false |} in
    (Ok (f, a),
     {| layers := layers db;
        features := features db ++ [f];
        assignments := assignments db ++ [a];
        userIds := userIds db;
        surveyIds := surveyIds db |}).

Definition mark_completed (id : Z) (a : AssignmentRow) : AssignmentRow :=
  if Z.eqb (assignment_id a) id then
    {| assignment_id := assignment_id a;
       assignment_featureId := assignment_featureId a;
       assignment_assigneeId := assignment_assigneeId a;
       assignment_surveyId := assignment_surveyId a;
       assignment_completed := true |}
  else a.

(** Modelled from the spec: the handler that takes a survey response is
    not part of the sources. A completion sets [completed] of its
    Assignment to true; nothing sets it back. *)
Definition complete (assignmentId : Z) : io unit :=
  fun db =>
    (Ok tt,
     {| layers := layers db;
        features := features db;
        assignments := map (mark_completed assignmentId) (assignments db);
        userIds := userIds db;
        surveyIds := surveyIds db |}).

(** The server's answer to a submission of the task map. *)
Definition serve (s : Submission) : io unit :=
  match s with
  | CreatePoint layerId coordinates userId =>
      _ <~ feature_create layerId coordinates userId ;; ret tt
  | OpenSurvey _ _ => ret tt
  end.

(** Every write of the system: the two revisions of layer-create, a
    field-added point, a completion. *)
Inductive op : Type :=
| LayerCreateDispatcher (req : LayerCreate.Request)
| LayerCreateAdmins (req : LayerCreate.Request)
| AddPoint (layerId : Z) (coordinates : LngLat) (userId : Z)
| Complete (assignmentId : Z).

Section Runtime.
Variable other_get : value -> jsstring -> value.

Definition apply (db : DB) (o : op) : DB :=
  match o with
  | LayerCreateDispatcher req => snd (LayerCreate.Dispatcher.action req db)
  | LayerCreateAdmins req => snd (LayerCreate.Admins.action other_get req db)
  | AddPoint l c u => snd (feature_create l c u db)
  | Complete id => snd (complete id db)
  end.

Definition apply_all (ops : list op) (db : DB) : DB := fold_left apply ops db.
End Runtime.

End Assignments.

(** ** Vocabulary of the statements *)

Import Prisma LayerCreate.

(** A value of the JSON fragment: no [undefined] and no built-in inside. *)
Fixpoint is_json (v : value) : bool :=
  match v with
  | Undefined | Builtin _ => false
  | Arr items => forallb is_json items
  | Obj ms => forallb (fun kv : jsstring * value => let (_, x) := kv in is_json x) ms
  | _ => true
  end.

(** The containers a parse has open hold JSON values only. *)
Definition frame_json (f : JSON.frame) : bool :=
  match f with
  | JSON.InArr ritems => forallb is_json ritems
  | JSON.InObj ms _ => is_json (Obj ms)
  end.

Definition mode_json (m : JSON.mode) : bool :=
  match m with
  | JSON.Done v => is_json v
  | _ => true
  end.

(** A place in a value: array indices and object keys from the root. *)
Inductive selector : Type :=
| Index (i : nat)
| Key (k : jsstring).

Fixpoint value_at (p : list selector) (v : value) : option value :=
  match p, v with
  | [], _ => Some v
  | Index i :: r, Arr items =>
      match nth_error items i with
      | Some x => value_at r x
      | None => None
      end
  | Key k :: r, Obj ms =>
      match lookup k ms with
      | Some x => value_at r x
      | None => None
      end
  | _, _ => None
  end.

(** A character as [Array.from] yields it: one code unit, or a high
    surrogate followed by a low surrogate. *)
Definition code_point (c : jsstring) : Prop :=
  (exists u, c = [u]) \/
  (exists h l, is_high h = true /\ is_low l = true /\ c = [h; l]).

(** The string is copies of one character. *)
Definition one_character_repeated (s : jsstring) : Prop :=
  exists c n, code_point c /\ s = concat (repeat c n).

(** What a successful import leaves behind: one new layer under a key not
    in use, and the given feature rows, all linked to it. *)
Definition created (db db' : DB) (layer : LayerRow) (rows : list FeatureRow) : Prop :=
  layers db' = layers db ++ [layer] /\
  features db' = features db ++ rows /\
  assignments db' = assignments db /\
  Forall (fun r => feature_layerId r = layer_id layer) rows /\
  ~ In (layer_id layer) (map layer_id (layers db)).

(** [properties[field]] of a submitted record, when the record has a
    [geojson] object with a [properties] object that has the key. *)
Definition own_label (field : jsstring) (item : value) : option value :=
  match item with
  | Obj ms =>
      match lookup (str "geojson") ms with
      | Some (Obj gm) =>
          match lookup (str "properties") gm with
          | Some (Obj props) => lookup field props
          | _ => None
          end
      | _ => None
      end
  | _ => None
  end.

(** The stored label is the value itself: a string as that string, [null]
    as no label. *)
Definition label_matches (lab : option jsstring) (l : value) : Prop :=
  match lab with
  | Some s => l = Str s
  | None => l = Null \/ l = Undefined
  end.

(** The labels of the stored features are derived from the label field. *)
Definition labels_derived (act : Request -> io Response) : Prop :=
  forall req db items resp db',
    form_features req <> Some [] ->
    JSON.parse reviver (String_ (form_features req)) = Ok (Arr items) ->
    act req db = (Ok resp, db') ->
    exists layer rows,
      created db db' layer rows /\
      Forall2 (fun item row =>
                 forall l, own_label (String_ (form_field req)) item = Some l ->
                           label_matches (feature_label row) l)
              items rows.

(** A record as the import form builds it, [{ geojson: f }], whose feature
    has the label field with a string in it. *)
Definition form_record (field : jsstring) (v : value) : bool :=
  match v with
  | Obj [(k, Obj gm)] =>
      jsstring_eqb k (str "geojson")
      && match own_label field v with
         | Some (Str _) => true
         | _ => false
         end
  | _ => false
  end.

(** The request is one the database takes: records as the form builds them,
    a known user, no survey or a known one, a name not in use. *)
Definition acceptable (req : Request) (db : DB) (items : list value) : Prop :=
  forallb (form_record (String_ (form_field req))) items = true /\
  (exists uid, session_userId req = Some uid /\ In uid (userIds db)) /\
  match defaultSurvey_of (form_surveyId req) with
  | None => True
  | Some None => False
  | Some (Some sid) => In sid (surveyIds db)
  end /\
  (forall l, In l (layers db) -> layer_name l <> String_ (form_name req)).

(** The argument the action hands to the ORM, when it gets that far. *)
Definition prepare (other_get : value -> jsstring -> value) (r : revision)
           (req : Request) : outcome LayerCreateInput :=
  parsedFeatures <- JSON.parse reviver (String_ (form_features req)) ;;
  match r with
  | ByDispatcher => Ok (Dispatcher.layer req parsedFeatures)
  | ByAdmins => Admins.layer other_get req parsedFeatures
  end.

(** The response of a revision. *)
Definition response (r : revision) (req : Request) : Response :=
  match r with
  | ByDispatcher =>
      {| location := str "/admin/layers/" ++ String_ (form_name req);
         session_task := form_name req |}
  | ByAdmins => {| location := str "/admin/layers"; session_task := None |}
  end.

(** Text every runtime takes as a header value as it is: tabs, the
    printable ASCII and the code units from 128 to 255. *)
Definition header_text (s : jsstring) : bool :=
  forallb (fun u => N.eqb u 9 || (N.leb 32 u && N.leb u 126)
                    || (N.leb 128 u && N.leb u 255)) s.

(** The text has a code unit no byte holds. *)
Definition beyond_bytes (s : jsstring) : Prop :=
  exists u, In u s /\ (255 < u)%N.

(** ** Vocabulary of the task map *)

Import TaskMap.

(** The features the map view asks for: those of the layer whose
    assignment is the surveyor's. *)
Definition fetched (db : DB) (layerId userId : Z) (f : FeatureRow) : bool :=
  Z.eqb (feature_layerId f) layerId
  && match assignment_of db f with
     | Some a => Z.eqb (assignment_assigneeId a) userId
     | None => false
     end.

Definition fid (x : FeatureWithAssignment) : Z := feature_id (feature x).

Definition is_completed (x : FeatureWithAssignment) : bool :=
  assignment_completed (assignment x).

(** The point under the crosshair. *)
Definition centre (vs : ViewState) : LngLat :=
  {| lng := longitude vs; lat := latitude vs |}.

(** A camera move closes the feature popup and leaves add-point mode as it
    is: the revision with the Add Point popup. *)
Definition popup_move_keeps_mode : Prop :=
  forall p w vs,
    let w' := Popup.step p w (Popup.CameraChange vs) in
    Popup.featurePopup (Popup.render (Popup.ui w')) = None /\
    Popup.addPoint (Popup.ui w') = Popup.addPoint (Popup.ui w).

(** The same for the revision with the crosshair, for a pan and for a zoom. *)
Definition crosshair_move_keeps_mode : Prop :=
  forall p w vs,
    (let w' := Crosshair.step p w (Crosshair.Pan vs) in
     Crosshair.featurePopup (Crosshair.render (Crosshair.ui w')) = None /\
     Crosshair.addPoint (Crosshair.ui w') = Crosshair.addPoint (Crosshair.ui w)) /\
    (let w' := Crosshair.step p w (Crosshair.Zoom vs) in
     Crosshair.featurePopup (Crosshair.render (Crosshair.ui w')) = None /\
     Crosshair.addPoint (Crosshair.ui w') = Crosshair.addPoint (Crosshair.ui w)).

(** Confirming Add Point sends one request for a point at the map centre:
    the revision with the Add Point popup. *)
Definition popup_sends_centre : Prop :=
  forall p evs,
    let w := Popup.run p evs Popup.start in
    Popup.addPointPopup (Popup.render (Popup.ui w)) <> None ->
    Popup.submitted (Popup.step p w Popup.ConfirmAddPoint)
    = Popup.submitted w
      ++ [CreatePoint (layer_id (layer_ p)) (centre (Popup.camera w)) (userId_ p)].

(** The same for the revision with the crosshair. *)
Definition crosshair_sends_centre : Prop :=
  forall p saved evs,
    let w := Crosshair.run p evs (Crosshair.start saved) in
    Crosshair.addPointButton (Crosshair.render (Crosshair.ui w)) = true ->
    Crosshair.submitted (Crosshair.step p w Crosshair.ConfirmAddPoint)
    = Crosshair.submitted w
      ++ [CreatePoint (layer_id (layer_ p)) (centre (Crosshair.camera w)) (userId_ p)].

Definition is_click (ev : Popup.Event) : bool :=
  match ev with Popup.Click _ => true | _ => false end.

(** What the server stores for a create-point request. *)
Definition point_stored (layerId : Z) (c : LngLat) (userId : Z) : Prop :=
  forall db,
    exists f a db',
      Assignments.serve (CreatePoint layerId c userId) db = (Ok tt, db') /\
      layers db' = layers db /\
      features db' = features db ++ [f] /\
      assignments db' = assignments db ++ [a] /\
      feature_layerId f = layerId /\
      feature_geojson f = Assignments.point_geojson c /\
      assignment_featureId a = feature_id f /\
      assignment_assigneeId a = userId /\
      assignment_completed a = false.

(** The features on the map: the two collections built from the loader
    data. *)
Definition shown (other_get : value -> jsstring -> value) (p : Props)
           (mf : MapFeature) : Prop :=
  exists done todo,
    completedAssignments other_get (assignments_ p) = Ok done /\
    todoAssignments other_get (assignments_ p) = Ok todo /\
    In mf (done ++ todo).

(** The clicks of a session hit only features on the map. *)
Definition popup_clicks_shown (other_get : value -> jsstring -> value)
           (p : Props) (evs : list Popup.Event) : Prop :=
  forall e mf, In (Popup.Click e) evs -> In mf (hit e) -> shown other_get p mf.

Definition crosshair_clicks_shown (other_get : value -> jsstring -> value)
           (p : Props) (evs : list Crosshair.Event) : Prop :=
  forall e mf, In (Crosshair.Click e) evs -> In mf (hit e) -> shown other_get p mf.

(** The assignment the popup is about is one of the fetched ones, and it is
    not completed. *)
Definition open_assignment (p : Props) (assignment : value) : Prop :=
  exists x,
    In x (assignments_ p) /\
    assignment = Num (inject_Z (assignment_id (Prisma.assignment x))) /\
    is_completed x = false.

(** What the component remembers of the last feature clicked: nothing
    yet, or the id and the flag of a fetched assignment. *)
Definition about (p : Props) (completed assignment : value) : Prop :=
  assignment = Undefined \/
  exists x,
    In x (assignments_ p) /\
    assignment = Num (inject_Z (assignment_id (Prisma.assignment x))) /\
    completed = Bool (is_completed x).

(** ** Examples to run the definitions on *)

Definition props_one : Props :=
  {| assignments_ := [];
     layer_ := {| layer_id := 1; layer_name := str "Roads";
                  layer_labelField := None; layer_dispatcherId := None;
                  layer_adminIds := [7%Z]; layer_defaultSurveyId := None |};
     userId_ := 7 |}.

Definition click_nothing : ClickEvent :=
  {| lngLat := {| lng := 1; lat := 2 |}; hit := [] |}.

(** A layer with three features: one surveyed by user 7, one still to do
    for user 7, one assigned to user 8. *)
Definition geo (nm : string) : value :=
  Obj [(str "type", Str (str "Feature"));
       (str "geometry", Obj [(str "type", Str (str "Point"));
                             (str "coordinates", Arr [Num 1; Num 2])]);
       (str "properties", Obj [(str "name", Str (str nm))])].

Definition db_survey : DB :=
  {| layers := [{| layer_id := 1; layer_name := str "Roads";
                   layer_labelField := None; layer_dispatcherId := None;
                   layer_adminIds := [7%Z]; layer_defaultSurveyId := None |}];
     features :=
       [{| feature_id := 1; feature_layerId := 1;
           feature_geojson := geo "A"; feature_label := Some (str "A") |};
        {| feature_id := 2; feature_layerId := 1;
           feature_geojson := geo "B"; feature_label := Some (str "B") |};
        {| feature_id := 3; feature_layerId := 1;
           feature_geojson := geo "C"; feature_label := Some (str "C") |}];
     assignments :=
       [{| assignment_id := 11; assignment_featureId := 1;
           assignment_assigneeId := 7; assignment_surveyId := Some 3%Z;
           assignment_completed := true |};
        {| assignment_id := 12; assignment_featureId := 2;
           assignment_assigneeId := 7; assignment_surveyId := Some 3%Z;
           assignment_completed := false |};
        {| assignment_id := 13; assignment_featureId := 3;
           assignment_assigneeId := 8; assignment_surveyId := None;
           assignment_completed := false |}];
     userIds := [7%Z; 8%Z];
     surveyIds := [3%Z] |}.

(** A feature whose [name] is the filler: 254 times the letter x. *)
Definition filler_text : jsstring :=
  jsq "[{'geojson':{'properties':{'name':'" ++ repeat 120%N 254
      ++ jsq "','kind':'ab'}}}]".

(** A database with one layer, one user and one survey. *)
Definition db_one : DB :=
  {| layers := [{| layer_id := 1; layer_name := str "Roads";
                   layer_labelField := None; layer_dispatcherId := None;
                   layer_adminIds := [7%Z]; layer_defaultSurveyId := None |}];
     features := [];
     assignments := [];
     userIds := [7%Z];
     surveyIds := [3%Z] |}.

Definition request (features name : jsstring) : Request :=
  {| form_features := Some features;
     form_name := Some name;
     form_field := Some (str "name");
     form_surveyId := Some (str "3");
     session_userId := Some 7%Z |}.

(** The name Nihonbashi in kanji: three code units, each above 255. *)
Definition kanji_name : jsstring := [26085; 26412; 27211]%N.

Definition one_feature : jsstring :=
  jsq "[{'geojson':{'type':'Feature','properties':{'name':'A'}}}]".

Definition two_features : jsstring :=
  jsq "[{'geojson':{'properties':{'name':'A'}}},{'geojson':{'properties':{'name':'B'}}}]".

Definition props_survey : Props :=
  {| assignments_ :=
       [{| feature := {| feature_id := 1; feature_layerId := 1;
                         feature_geojson := geo "A"; feature_label := Some (str "A") |};
           assignment := {| assignment_id := 11; assignment_featureId := 1;
                            assignment_assigneeId := 7; assignment_surveyId := Some 3%Z;
                            assignment_completed := true |} |};
        {| feature := {| feature_id := 2; feature_layerId := 1;
                         feature_geojson := geo "B"; feature_label := Some (str "B") |};
           assignment := {| assignment_id := 12; assignment_featureId := 2;
                            assignment_assigneeId := 7; assignment_surveyId := Some 3%Z;
                            assignment_completed := false |} |}];
     layer_ := {| layer_id := 1; layer_name := str "Roads";
                  layer_labelField := None; layer_dispatcherId := None;
                  layer_adminIds := [7%Z]; layer_defaultSurveyId := None |};
     userId_ := 7 |}.

(** The feature of the [todo] layer, and a click on it. *)
Definition todo_feature : MapFeature :=
  match todoAssignments node_get (assignments_ props_survey) with
  | Ok (mf :: _) => mf
  | _ => {| mf_id := 0; mf_geometry := Undefined; mf_properties := [] |}
  end.

Definition click_todo : ClickEvent :=
  {| lngLat := {| lng := 1; lat := 2 |}; hit := [todo_feature] |}.


(** ** Vocabulary of the further properties *)

(** What the walk may do to one node: a string is revived, a container
    keeps its length or its keys, anything else stays. *)
Definition same_node (x x' : value) : Prop :=
  match x with
  | Str s => x' = reviver [] (Str s)
  | Arr l => exists l', x' = Arr l' /\ length l' = length l
  | Obj m => exists m', x' = Obj m' /\ map fst m' = map fst m
  | _ => x' = x
  end.

(** The [properties] object of a submitted record. *)
Definition properties_of (item : value) : option (list (jsstring * value)) :=
  match item with
  | Obj ms =>
      match lookup (str "geojson") ms with
      | Some (Obj gm) =>
          match lookup (str "properties") gm with
          | Some (Obj props) => Some props
          | _ => None
          end
      | _ => None
      end
  | _ => None
  end.

(** A record whose feature has [properties: null], which GeoJSON allows. *)
Definition null_properties (item : value) : Prop :=
  exists ms gm,
    item = Obj ms /\
    lookup (str "geojson") ms = Some (Obj gm) /\
    lookup (str "properties") gm = Some Null.

Definition null_properties_text : jsstring :=
  jsq "[{'geojson':{'properties':{'name':'A'}}},{'geojson':{'type':'Feature','properties':null}}]".

Definition no_name_text : jsstring :=
  jsq "[{'geojson':{'properties':{'kind':'tree'}}}]".

(** ** The new-layer form *)

Module NewLayer.

(** [s.split(".")]: the pieces between the dots, at least one. *)
Fixpoint split_dot (s : jsstring) : list jsstring :=
  match s with
  | [] => [[]]
  | u :: r =>
      if N.eqb u 46 then [] :: split_dot r
      else match split_dot r with
           | seg :: segs => (u :: seg) :: segs
           | [] => [[u]]
           end
  end.

(** [layerUrl.split(".").pop()] *)
Definition extension (layerUrl : jsstring) : jsstring :=
  last (split_dot layerUrl) [].

Section Upload.

(** A file of the input, and the URL the upload endpoint answers with for
    it ([await response.json()]). *)
Variable File : Type.
Variable upload : File -> jsstring.

(** The loop of [handleShpUpload]: every file is uploaded, and [shpUrl] is
    the URL of the last one whose extension is [shp]. *)
Definition shpUrl_of (files : list File) : jsstring :=
  fold_left
    (fun shpUrl file =>
       let layerUrl := upload file in
       if jsstring_eqb (extension layerUrl) (str "shp") then layerUrl else shpUrl)
    files [].

End Upload.

(** An array index as a property key: the decimal spelling, without
    leading zeros, of a number below 2^32 - 1. *)
Definition index_of (k : jsstring) : option N :=
  match k with
  | [] => None
  | [48%N] => Some 0%N
  | 48%N :: _ => None
  | _ =>
      if forallb JSON.is_digit k then
        let n := fold_left (fun a u => (a * 10 + (u - 48))%N) k 0%N in
        if N.ltb n 4294967295 then Some n else None
      else None
  end.

Fixpoint insert_key (n : N) (k : jsstring) (l : list (N * jsstring))
  : list (N * jsstring) :=
  match l with
  | [] => [(n, k)]
  | (m, k') :: r =>
      if N.leb n m then (n, k) :: l else (m, k') :: insert_key n k r
  end.

(** The index keys of an object in ascending order. *)
Fixpoint index_keys (keys : list jsstring) : list (N * jsstring) :=
  match keys with
  | [] => []
  | k :: r =>
      match index_of k with
      | Some n => insert_key n k (index_keys r)
      | None => index_keys r
      end
  end.

Definition named_keys (keys : list jsstring) : list jsstring :=
  filter (fun k => match index_of k with Some _ => false | None => true end) keys.

(** [Object.keys(v)]: the index keys in ascending order, then the other
    keys in the order they were created. *)
Definition Object_keys (v : value) : outcome (list jsstring) :=
  match v with
  | Undefined | Null => Throw TypeError
  | Obj ms => Ok (map snd (index_keys (map fst ms)) ++ named_keys (map fst ms))
  | Arr items => Ok (map fst (indexed 0 items))
  | Str s => Ok (map fst (indexed 0 (map (fun u => Str [u]) s)))
  | _ => Ok []
  end.

Section Runtime.
Variable other_get : value -> jsstring -> value.

(** [v[0]] *)
Definition first_of (v : value) : outcome value :=
  match v with
  | Arr (x :: _) => Ok x
  | Arr [] => Ok Undefined
  | _ => Get other_get v (str "0")
  end.

(** The options of the label-field select, after its placeholder:
    [formData.features && formData.features.length > 0 &&
     Object.keys(JSON.parse(formData.features)[0].geojson.properties)] *)
Definition label_options (features : jsstring) : outcome (list jsstring) :=
  match features with
  | [] => Ok []
  | _ =>
      parsed <- JSON.parse_text features ;;
      first <- first_of parsed ;;
      g <- Get other_get first (str "geojson") ;;
      p <- Get other_get g (str "properties") ;;
      Object_keys p
  end.

End Runtime.

End NewLayer.

(** No dot in the string. *)
Definition no_dot (s : jsstring) : bool :=
  forallb (fun u => negb (N.eqb u 46)) s.

(** One turn of the upload loop. *)
Definition shp_pick {File : Type} (upload : File -> jsstring)
           (shpUrl : jsstring) (file : File) : jsstring :=
  if jsstring_eqb (NewLayer.extension (upload file)) (str "shp")
  then upload file else shpUrl.

Definition is_shp {File : Type} (upload : File -> jsstring) (f : File) : bool :=
  jsstring_eqb (NewLayer.extension (upload f)) (str "shp").

(** ** More of the task map *)

Module MapControls.

Import TaskMap.

(** [mapStyle] of the revision with the Add Point popup, and whether its
    [custom] branch with the raster tiles is rendered. *)
Definition popup_mapStyle (basemap : jsstring) : jsstring :=
  if jsstring_eqb basemap (str "custom")
  then str "mapbox://styles/mapbox/satellite-v9"
  else str "mapbox://styles/mapbox/" ++ basemap.

Definition popup_tiles (basemap : jsstring) : bool :=
  jsstring_eqb basemap (str "custom").

(** The entries of its basemap menu: what each [onClick] passes to
    [setBasemap]. *)
Definition popup_menu : list jsstring :=
  [str "streets-v11"; str "outdoors-v11"; str "satellite-v9"; str "dark-v10"].

(** The same for the revision with the crosshair. *)
Definition crosshair_mapStyle (basemap : jsstring) : jsstring :=
  if jsstring_eqb basemap (str "satellite")
  then str "mapbox://styles/mapbox/satellite-v9"
  else str "mapbox://styles/mapbox/" ++ basemap.

Definition crosshair_tiles (basemap : jsstring) : bool :=
  jsstring_eqb basemap (str "satellite").

Definition crosshair_menu : list jsstring :=
  [str "satellite"; str "streets-v11"; str "outdoors-v11"; str "dark-v10"].

(** What [getDirections] hands to the directions control:
    [setOrigin([cCoords.lng, cCoords.lat])] and
    [setDestination([dCoords.lng, dCoords.lat])]. *)
Record Route : Type := { origin : LngLat; destination : LngLat }.

Definition popup_getDirections (st : Popup.State) : Route :=
  {| origin := Popup.cCoords st; destination := Popup.dCoords st |}.

Definition crosshair_getDirections (st : Crosshair.State) : Route :=
  {| origin := Crosshair.cCoords st; destination := Crosshair.dCoords st |}.

End MapControls.

(** The basemap events of a session come from the menu. *)
Definition popup_menu_events (evs : list Popup.Event) : Prop :=
  forall b, In (Popup.SelectBasemap b) evs -> In b MapControls.popup_menu.

Definition crosshair_menu_events (evs : list Crosshair.Event) : Prop :=
  forall b, In (Crosshair.SelectBasemap b) evs -> In b MapControls.crosshair_menu.

(** Where the last click of a session was, and the last position the
    geolocate control reported; [(0, 0)] before any. *)
Definition null_island : LngLat := {| lng := 0; lat := 0 |}.

Definition popup_last_click_at (evs : list Popup.Event) : LngLat :=
  fold_left (fun c ev => match ev with Popup.Click e => lngLat e | _ => c end)
            evs null_island.

Definition popup_last_fix (evs : list Popup.Event) : LngLat :=
  fold_left (fun c ev => match ev with Popup.Geolocate x => x | _ => c end)
            evs null_island.

Definition crosshair_last_click_at (evs : list Crosshair.Event) : LngLat :=
  fold_left (fun c ev => match ev with Crosshair.Click e => lngLat e | _ => c end)
            evs null_island.

Definition crosshair_last_fix (evs : list Crosshair.Event) : LngLat :=
  fold_left (fun c ev => match ev with Crosshair.Geolocate x => x | _ => c end)
            evs null_island.

(** The clicks of a session that hit no feature. *)
Definition empty_clicks (evs : list Popup.Event) : nat :=
  length (filter (fun ev => match ev with
                            | Popup.Click e => match hit e with [] => true | _ => false end
                            | _ => false
                            end) evs).

(** A request for this layer, by this user. *)
Definition own_request (p : Props) (s : Submission) : Prop :=
  match s with
  | CreatePoint l _ u => l = layer_id (layer_ p) /\ u = userId_ p
  | OpenSurvey a _ => open_assignment p a
  end.

Definition is_create (s : Submission) : bool :=
  match s with CreatePoint _ _ _ => true | OpenSurvey _ _ => false end.

(** ** Opening a survey from the map *)

Module SurveyRoute.

Import TaskMap.

Section Text.

(** The JSON text of a view state, what [JSON.stringify] and [JSON.parse]
    do between it and the view state, whether the text is a truthy
    string, and [String(assignment)]: they are the runtime's. *)
Variable Text : Type.
Variable stringify : ViewState -> Text.
Variable parse : Text -> ViewState.
Variable truthy_text : Text -> bool.
Variable String_value : value -> jsstring.

(** The session entries the route reads and writes. *)
Record Session : Type := {
  userId : option Z;
  viewState : option Text
}.

(** The entries of the submitted form; one that is missing reads as
    [undefined]. *)
Record Form : Type := {
  assignmentId : option jsstring;
  viewState_entry : option Text
}.

(** What [getSurvey] submits. *)
Definition getSurvey_form (st : Crosshair.State) : Form :=
  {| assignmentId := Some (String_value (Crosshair.assignment st));
     viewState_entry := Some (stringify (Crosshair.viewState st)) |}.

(** The action of the route: the view state goes into the session, and the
    answer redirects to the assignment, when [redirect] takes the URL. The
    result is the session the answer commits and the URL it redirects to. *)
Definition action (taskId : jsstring) (session : Session) (form : Form)
  : outcome (Session * jsstring) :=
  let url := str "/tasks/" ++ taskId ++ str "/"
             ++ LayerCreate.String_ (assignmentId form) in
  _ <- Remix.redirect url ;;
  Ok ({| userId := userId session; viewState := viewState_entry form |}, url).

(** [session.get("viewState")] in the loader, and
    [savedState ? JSON.parse(savedState) : ...] in the component. *)
Definition savedState (session : Session) : option Text := viewState session.

Definition restored (saved : option Text) : option ViewState :=
  match saved with
  | Some t => if truthy_text t then Some (parse t) else None
  | None => None
  end.

End Text.

End SurveyRoute.

(** ** The survey select *)

(** The decimal spelling of an integer. *)
Definition decimal (id : Z) : jsstring :=
  match id with
  | Z.neg q => 45%N :: index_key (Pos.to_nat q)
  | _ => index_key (Z.to_nat id)
  end.

(** [<option value={survey.id}>]: the value of an option is [String(id)].
    The id is a number, and for a safe integer, one below 2^53 in size,
    that is its decimal spelling. Past that range a number is spelled from
    its shortest digits, with an exponent from 1e21 on, and not every
    integer is a number; no option is modelled there: [None]. *)
Definition survey_option (id : Z) : option jsstring :=
  if (Z.abs id <? 2 ^ 53)%Z then Some (decimal id) else None.

(** * Properties *)

(** ** Strings and sets of strings *)

Lemma jsstring_eqb_eq (a b : jsstring) : jsstring_eqb a b = true <-> a = b.
Proof.
  unfold jsstring_eqb. destruct (jsstring_eq_dec a b); split; congruence.
Qed.

Lemma jsstring_eqb_refl (a : jsstring) : jsstring_eqb a a = true.
Proof. now apply jsstring_eqb_eq. Qed.

Lemma jsstring_eqb_neq (a b : jsstring) : jsstring_eqb a b = false <-> a <> b.
Proof.
  unfold jsstring_eqb. destruct (jsstring_eq_dec a b); split; congruence.
Qed.

Lemma Set_add_spec (x : jsstring) (seen : list jsstring) :
  (In x seen /\ Set_add x seen = seen) \/
  (~ In x seen /\ Set_add x seen = seen ++ [x]).
Proof.
  unfold Set_add. destruct (existsb (jsstring_eqb x) seen) eqn:E.
  - left. split; [|reflexivity].
    apply existsb_exists in E as (y & Hy & Hxy).
    apply jsstring_eqb_eq in Hxy. now subst.
  - right. split; [|reflexivity].
    intros Hin. assert (existsb (jsstring_eqb x) seen = true); [|congruence].
    apply existsb_exists. exists x. split; [assumption|apply jsstring_eqb_refl].
Qed.

(** Adding to a set only ever appends. *)
Lemma Set_fold_prefix (xs seen : list jsstring) :
  exists extra,
    fold_left (fun seen x => Set_add x seen) xs seen = seen ++ extra.
Proof.
  revert seen. induction xs as [|x xs IH]; intros seen; simpl.
  - exists []. now rewrite app_nil_r.
  - destruct (Set_add_spec x seen) as [[_ ->]|[_ ->]].
    + apply IH.
    + destruct (IH (seen ++ [x])) as (extra & ->).
      exists (x :: extra). now rewrite <- app_assoc.
Qed.

Lemma Set_fold_In (xs seen : list jsstring) (x : jsstring) :
  In x xs -> In x (fold_left (fun seen x => Set_add x seen) xs seen).
Proof.
  revert seen. induction xs as [|y xs IH]; intros seen; simpl; [tauto|].
  intros [->|Hin]; [|now apply IH].
  destruct (Set_fold_prefix xs (Set_add x seen)) as (extra & ->).
  apply in_or_app. left.
  destruct (Set_add_spec x seen) as [[H ->]|[_ ->]]; [assumption|].
  apply in_or_app. right. now left.
Qed.

Lemma Set_fold_absorb (xs seen : list jsstring) :
  (forall x, In x xs -> In x seen) ->
  fold_left (fun seen x => Set_add x seen) xs seen = seen.
Proof.
  revert seen. induction xs as [|y xs IH]; intros seen H; simpl; [reflexivity|].
  destruct (Set_add_spec y seen) as [[_ ->]|[Hn _]].
  - apply IH. intros x Hx. apply H. now right.
  - exfalso. apply Hn, H. now left.
Qed.

(** A set has one element exactly when the list is one value, one or more
    times. *)
Lemma Set_of_single (xs : list jsstring) :
  length (Set_of xs) = 1%nat <-> exists c n, xs = repeat c (S n).
Proof.
  unfold Set_of. split.
  - destruct xs as [|c xs]; simpl; [discriminate|].
    intros Hlen. exists c, (length xs). simpl. f_equal.
    assert (Hall : forall x, In x xs -> x = c).
    { intros x Hx.
      pose proof (Set_fold_In xs (Set_add c []) x Hx) as Hin.
      destruct (Set_fold_prefix xs (Set_add c [])) as (extra & E).
      rewrite E in Hlen, Hin. unfold Set_add in Hlen, Hin. simpl in Hlen, Hin.
      destruct extra; [|discriminate].
      destruct Hin as [Hin|[]]. now symmetry. }
    clear Hlen. induction xs as [|y ys IH]; simpl; [reflexivity|].
    f_equal; [apply Hall; now left|].
    apply IH. intros x Hx. apply Hall. now right.
  - intros (c & n & ->). simpl.
    rewrite Set_fold_absorb; [reflexivity|].
    intros x Hx. apply repeat_spec in Hx. subst. unfold Set_add. simpl. now left.
Qed.

(** ** Code points *)

Lemma high_not_low (u : N) : is_high u && is_low u = false.
Proof.
  unfold is_high, is_low.
  destruct (N.leb_spec 55296 u), (N.leb_spec u 56319),
           (N.leb_spec 56320 u), (N.leb_spec u 57343); simpl; try reflexivity; lia.
Qed.

Lemma Array_from_cons2 (c d : N) (r : jsstring) :
  Array_from (c :: d :: r) =
  if is_high c && is_low d then [c; d] :: Array_from r
  else [c] :: Array_from (d :: r).
Proof. reflexivity. Qed.

(** Induction over a string one character at a time. *)
Lemma by_code_points (P : jsstring -> Prop) :
  P [] ->
  (forall c, P [c]) ->
  (forall c d r, is_high c && is_low d = true -> P r -> P (c :: d :: r)) ->
  (forall c d r, is_high c && is_low d = false -> P (d :: r) -> P (c :: d :: r)) ->
  forall s, P s.
Proof.
  intros Hnil Hone Hpair Hunit s.
  assert (H : forall n s, (length s <= n)%nat -> P s).
  { induction n as [|n IH]; intros [|c [|d r]] Hlen; simpl in Hlen;
      try assumption; try apply Hone; try lia.
    destruct (is_high c && is_low d) eqn:E.
    - apply Hpair; [assumption|]. apply IH. lia.
    - apply Hunit; [assumption|]. apply IH. simpl. lia. }
  apply (H (length s)). lia.
Qed.

Lemma concat_Array_from (s : jsstring) : concat (Array_from s) = s.
Proof.
  induction s as [| c | c d r E IH | c d r E IH] using by_code_points;
    try reflexivity; rewrite Array_from_cons2, E; cbn [concat app];
    now rewrite IH.
Qed.

Lemma Array_from_code_points (s : jsstring) : Forall code_point (Array_from s).
Proof.
  induction s as [| c | c d r E IH | c d r E IH] using by_code_points.
  - constructor.
  - simpl. constructor; [|constructor]. left. now exists c.
  - rewrite Array_from_cons2, E. constructor; [|assumption].
    right. exists c, d. apply andb_prop in E. tauto.
  - rewrite Array_from_cons2, E. constructor; [|assumption].
    left. now exists c.
Qed.

Lemma Array_from_repeat (c : jsstring) (n : nat) :
  code_point c -> Array_from (concat (repeat c n)) = repeat c n.
Proof.
  intros [(u & ->)|(h & l & Hh & Hl & ->)]; induction n as [|n IH];
    try reflexivity.
  - change (concat (repeat [u] (S n))) with (u :: concat (repeat [u] n)).
    destruct n as [|n]; [reflexivity|].
    change (concat (repeat [u] (S n))) with (u :: concat (repeat [u] n)) in *.
    rewrite Array_from_cons2, high_not_low.
    change (repeat [u] (S (S n))) with ([u] :: repeat [u] (S n)).
    f_equal. exact IH.
  - change (concat (repeat [h; l] (S n)))
      with (h :: l :: concat (repeat [h; l] n)).
    rewrite Array_from_cons2, Hh, Hl.
    change (repeat [h; l] (S n)) with ([h; l] :: repeat [h; l] n).
    cbn [andb]. f_equal. exact IH.
Qed.

(** The set built by the reviver has one element exactly for the strings
    that are one character repeated, the empty string apart. *)
Lemma single_character_set (s : jsstring) :
  s <> [] ->
  (length (Set_of (Array_from s)) = 1%nat <-> one_character_repeated s).
Proof.
  intros Hne. rewrite Set_of_single. split.
  - intros (c & n & E). exists c, (S n). split.
    + pose proof (Array_from_code_points s) as H. rewrite E in H.
      now inversion H.
    + rewrite <- E. symmetry. apply concat_Array_from.
  - intros (c & n & Hc & ->). rewrite Array_from_repeat by assumption.
    destruct n as [|n]; [now contradiction Hne|]. now exists c, n.
Qed.

(** ** The scrub rule *)

(** C1, on one value: what the reviver does with a string. *)
Lemma reviver_string (key s : jsstring) :
  (length s = 254%nat /\ one_character_repeated s ->
   reviver key (Str s) = Str []) /\
  (length s = 254%nat /\ ~ one_character_repeated s ->
   reviver key (Str s) = Str s) /\
  (length s <> 254%nat -> reviver key (Str s) = Str s).
Proof.
  unfold reviver. repeat split.
  - intros [Hlen Hone].
    assert (Hne : s <> []) by (intros ->; discriminate).
    apply (single_character_set Hne) in Hone.
    rewrite Hlen, Hone. reflexivity.
  - intros [Hlen Hmany].
    assert (Hne : s <> []) by (intros ->; discriminate).
    rewrite Hlen. simpl.
    destruct (Nat.eqb_spec (length (Set_of (Array_from s))) 1) as [E|E];
      [|reflexivity].
    exfalso. apply Hmany. now apply (single_character_set Hne).
  - intros Hlen. apply Nat.eqb_neq in Hlen. now rewrite Hlen.
Qed.

Lemma reviver_key (k k' : jsstring) (v : value) : reviver k v = reviver k' v.
Proof. reflexivity. Qed.

Lemma reviver_not_string (k : jsstring) (v : value) :
  (forall s, v <> Str s) -> reviver k v = v.
Proof. destruct v; intros H; try reflexivity. now contradiction (H s). Qed.

Lemma reviver_defined (k : jsstring) (v : value) :
  v <> Undefined -> reviver k v <> Undefined.
Proof.
  destruct v; simpl; try congruence.
  intros _. now destruct (_ && _).
Qed.

(** ** The reviver walk *)

Lemma internalize_Arr (k : jsstring) (items : list value) :
  JSON.internalize reviver k (Arr items)
  = Arr (JSON.elements reviver 0 items).
Proof. reflexivity. Qed.

Lemma internalize_Obj (k : jsstring) (ms : list (jsstring * value)) :
  JSON.internalize reviver k (Obj ms) = Obj (JSON.members reviver ms).
Proof. reflexivity. Qed.

Lemma internalize_defined (k : jsstring) (v : value) :
  v <> Undefined -> JSON.internalize reviver k v <> Undefined.
Proof.
  destruct v; try (now apply reviver_defined); try congruence.
  - rewrite internalize_Arr. congruence.
  - rewrite internalize_Obj. congruence.
Qed.

Lemma nth_error_elements (items : list value) (n i : nat) (x : value) :
  nth_error items i = Some x ->
  nth_error (JSON.elements reviver n items) i
  = Some (JSON.internalize reviver (index_key (n + i)) x).
Proof.
  revert n i. induction items as [|y items IH]; intros n [|i]; simpl;
    try discriminate.
  - intros [= ->]. now rewrite Nat.add_0_r.
  - intros H. rewrite (IH (S n) i H). do 3 f_equal. lia.
Qed.

Lemma is_json_defined (v : value) : is_json v = true -> v <> Undefined.
Proof. destruct v; simpl; congruence. Qed.

Lemma lookup_members (ms : list (jsstring * value)) (k : jsstring) (x : value) :
  is_json (Obj ms) = true ->
  lookup k ms = Some x ->
  lookup k (JSON.members reviver ms) = Some (JSON.internalize reviver k x).
Proof.
  induction ms as [|[k' y] ms IH]; simpl; [discriminate|].
  intros Hj. apply andb_prop in Hj as [Hy Hms].
  unfold JSON.keep_defined.
  destruct (JSON.internalize reviver k' y) eqn:E;
    try (simpl; destruct (jsstring_eqb k k') eqn:Ek;
         [ apply jsstring_eqb_eq in Ek; subst k'; intros [= <-]; now rewrite E
         | now apply IH ]).
  exfalso. revert E. apply internalize_defined. now apply is_json_defined.
Qed.

Lemma is_json_nth (items : list value) (i : nat) (x : value) :
  is_json (Arr items) = true -> nth_error items i = Some x -> is_json x = true.
Proof.
  simpl. intros H Hx. apply nth_error_In in Hx.
  rewrite forallb_forall in H. now apply H.
Qed.

Lemma is_json_lookup (ms : list (jsstring * value)) (k : jsstring) (x : value) :
  is_json (Obj ms) = true -> lookup k ms = Some x -> is_json x = true.
Proof.
  induction ms as [|[k' y] ms IH]; simpl; [discriminate|].
  intros Hj. apply andb_prop in Hj as [Hy Hms].
  destruct (jsstring_eqb k k'); [now intros [= <-]|now apply IH].
Qed.

(** Every string in the parsed value is revived where it stands. *)
Lemma internalize_at (p : list selector) :
  forall (v : value) (key s : jsstring),
    is_json v = true ->
    value_at p v = Some (Str s) ->
    value_at p (JSON.internalize reviver key v) = Some (reviver [] (Str s)).
Proof.
  induction p as [|[i|k] p IH]; intros v key s Hj.
  - simpl. intros [= ->]. reflexivity.
  - destruct v; try (simpl; discriminate). cbn [value_at].
    destruct (nth_error items i) as [x|] eqn:Hx; [|discriminate].
    intros Hat. rewrite internalize_Arr. cbn [value_at].
    rewrite (nth_error_elements _ 0 _ Hx).
    apply IH; [now apply (is_json_nth _ _ Hj Hx)|assumption].
  - destruct v; try (simpl; discriminate). cbn [value_at].
    destruct (lookup k members) as [x|] eqn:Hx; [|discriminate].
    intros Hat. rewrite internalize_Obj. cbn [value_at].
    rewrite (lookup_members _ _ Hj Hx).
    apply IH; [now apply (is_json_lookup _ _ Hj Hx)|assumption].
Qed.

(** ** The parser yields JSON values *)

Lemma obj_set_json (k : jsstring) (v : value) (ms : list (jsstring * value)) :
  is_json v = true -> is_json (Obj ms) = true ->
  is_json (Obj (obj_set k v ms)) = true.
Proof.
  intros Hv. induction ms as [|[k' y] ms IH]; simpl.
  - now rewrite Hv.
  - intros H. apply andb_prop in H as [Hy Hms].
    destruct (jsstring_eqb k k'); simpl.
    + now rewrite Hv.
    + rewrite Hy. now apply IH.
Qed.

Ltac json_step :=
  repeat match goal with
         | H : Some _ = Some _ |- _ => injection H as <- <-
         | H : None = Some _ |- _ => discriminate H
         | |- _ /\ _ => split
         end;
  try assumption;
  repeat match goal with
         | |- forallb _ (_ :: _) = true => apply andb_true_intro; split
         end; simpl; auto.

Lemma push_value_json (v : value) (stk : list JSON.frame) m stk' :
  is_json v = true -> forallb frame_json stk = true ->
  JSON.push_value v stk = Some (m, stk') ->
  mode_json m = true /\ forallb frame_json stk' = true.
Proof.
  intros Hv Hstk. destruct stk as [|[ritems|ms [k|]] r]; simpl; intros E;
    try apply andb_prop in Hstk as [Hf Hr]; json_step.
  - now rewrite Hv.
  - now apply obj_set_json.
Qed.

Lemma close_arr_json (stk : list JSON.frame) m stk' :
  forallb frame_json stk = true ->
  JSON.close_arr stk = Some (m, stk') ->
  mode_json m = true /\ forallb frame_json stk' = true.
Proof.
  destruct stk as [|[ritems|ms k] r]; simpl; try discriminate.
  intros H. apply andb_prop in H as [Hf Hr].
  apply push_value_json; [|assumption].
  simpl. rewrite forallb_forall in *. intros x Hx. apply Hf.
  now apply in_rev.
Qed.

Lemma close_obj_json (stk : list JSON.frame) m stk' :
  forallb frame_json stk = true ->
  JSON.close_obj stk = Some (m, stk') ->
  mode_json m = true /\ forallb frame_json stk' = true.
Proof.
  destruct stk as [|[ritems|ms [k|]] r]; simpl; try discriminate.
  intros H. apply andb_prop in H as [Hf Hr].
  now apply push_value_json.
Qed.

Lemma open_value_json (t : JSON.token) (stk : list JSON.frame) m stk' :
  forallb frame_json stk = true ->
  JSON.open_value t stk = Some (m, stk') ->
  mode_json m = true /\ forallb frame_json stk' = true.
Proof.
  intros Hstk. destruct t; simpl; try discriminate;
    try (now apply push_value_json); intros E; json_step.
Qed.

Lemma take_key_json (t : JSON.token) (stk : list JSON.frame) m stk' :
  forallb frame_json stk = true ->
  JSON.take_key t stk = Some (m, stk') ->
  mode_json m = true /\ forallb frame_json stk' = true.
Proof.
  intros Hstk. destruct t; simpl; try discriminate.
  destruct stk as [|[ritems|ms [k|]] r]; simpl; try discriminate.
  intros E. simpl in Hstk. apply andb_prop in Hstk as [Hf Hr]. json_step.
Qed.

Lemma parse_step_json (m : JSON.mode) (stk : list JSON.frame) (t : JSON.token) m' stk' :
  forallb frame_json stk = true ->
  JSON.parse_step m stk t = Some (m', stk') ->
  mode_json m' = true /\ forallb frame_json stk' = true.
Proof.
  intros Hstk. destruct m; simpl; try discriminate.
  - now apply open_value_json.
  - destruct t; try (now apply open_value_json). now apply close_arr_json.
  - destruct t; try (now apply take_key_json). now apply close_obj_json.
  - now apply take_key_json.
  - destruct t; try discriminate. intros E. json_step.
  - destruct t; try discriminate;
      try (now apply close_arr_json); try (now apply close_obj_json).
    destruct stk as [|[ritems|ms [k|]] r]; try discriminate; intros E; json_step.
Qed.

Lemma parse_from_json (toks : list JSON.token) :
  forall m stk v,
    mode_json m = true -> forallb frame_json stk = true ->
    JSON.parse_from m stk toks = Some v -> is_json v = true.
Proof.
  induction toks as [|t toks IH]; intros m stk v Hm Hstk; simpl.
  - destruct m; try discriminate. now intros [= <-].
  - destruct (JSON.parse_step m stk t) as [[m' stk']|] eqn:E; [|discriminate].
    destruct (parse_step_json _ _ _ Hstk E). now apply IH.
Qed.

Lemma parse_text_json (text : jsstring) (v : value) :
  JSON.parse_text text = Ok v -> is_json v = true.
Proof.
  unfold JSON.parse_text. destruct (JSON.lex text) as [toks|]; [|discriminate].
  destruct (JSON.parse_from JSON.ExpectValue [] toks) as [w|] eqn:E;
    [|discriminate].
  intros [= <-]. now apply (parse_from_json toks JSON.ExpectValue [] eq_refl eq_refl E).
Qed.

(** C1: every string value of the parsed features is scrubbed exactly when
    it is 254 code units long and one character repeated; a string of 254
    units with two or more distinct characters and a string of any other
    length stay as they are. Characters are what [Array.from] yields, so a
    surrogate pair counts as one. *)
Theorem scrub_rule (text : jsstring) (parsed : value) :
  JSON.parse_text text = Ok parsed ->
  exists revived,
    JSON.parse reviver text = Ok revived /\
    forall (p : list selector) (s : jsstring),
      value_at p parsed = Some (Str s) ->
      (length s = 254%nat /\ one_character_repeated s ->
       value_at p revived = Some (Str [])) /\
      (length s = 254%nat /\ ~ one_character_repeated s ->
       value_at p revived = Some (Str s)) /\
      (length s <> 254%nat -> value_at p revived = Some (Str s)).
Proof.
  intros Hparse. exists (JSON.internalize reviver [] parsed). split.
  - unfold JSON.parse. now rewrite Hparse.
  - intros p s Hat.
    pose proof (@internalize_at p parsed [] s (parse_text_json _ Hparse) Hat) as H.
    destruct (reviver_string [] s) as (H1 & H2 & H3).
    repeat split; intros Hs; rewrite H; f_equal; auto.
Qed.

Lemma scrub_rule_witness :
  exists revived,
    JSON.parse reviver filler_text = Ok revived /\
    value_at [Index 0; Key (str "geojson"); Key (str "properties"); Key (str "name")]
             revived = Some (Str []) /\
    value_at [Index 0; Key (str "geojson"); Key (str "properties"); Key (str "kind")]
             revived = Some (Str (str "ab")).
Proof.
  destruct (JSON.parse_text filler_text) as [parsed|] eqn:E;
    [|vm_compute in E; discriminate E].
  destruct (scrub_rule filler_text E) as (revived & Hr & H).
  exists revived. split; [exact Hr|]. split.
  - apply (H _ (repeat 120%N 254)).
    + vm_compute in E. injection E as <-. vm_compute. reflexivity.
    + split; [reflexivity|]. exists [120%N], 254%nat. split; [|reflexivity].
      left. now exists 120%N.
  - apply (H _ (str "ab")).
    + vm_compute in E. injection E as <-. vm_compute. reflexivity.
    + vm_compute. discriminate.
Defined.

(** ** The ORM *)

Lemma fold_max_ge (ids : list Z) (x : Z) :
  In x ids -> (x <= fold_right Z.max 0 ids)%Z.
Proof.
  induction ids as [|y ids IH]; simpl; [tauto|].
  intros [->|H]; [lia|]. specialize (IH H). lia.
Qed.

Lemma next_id_fresh (ids : list Z) : ~ In (next_id ids) ids.
Proof.
  intros H. apply fold_max_ge in H. unfold next_id in H. lia.
Qed.

Lemma feature_rows_spec (id first : Z) (rows : list (value * option jsstring)) :
  Forall2 (fun r row => feature_layerId row = id
                        /\ feature_geojson row = fst r
                        /\ feature_label row = snd r)
          rows (feature_rows id first rows).
Proof.
  revert first. induction rows as [|[g l] rows IH]; intros first; simpl;
    constructor; auto.
Qed.

Lemma feature_rows_linked (id first : Z) (rows : list (value * option jsstring)) :
  Forall (fun r => feature_layerId r = id) (feature_rows id first rows).
Proof.
  revert first. induction rows as [|[g l] rows IH]; intros first; simpl;
    constructor; auto.
Qed.

Lemma layer_create_throw (input : LayerCreateInput) (db db' : DB) (e : error) :
  layer_create input db = (Throw e, db') ->
  db' = db /\
  (e = PrismaValidationError
   \/ (e = UniqueConstraintFailed (str "name")
       /\ exists l, In l (layers db) /\ layer_name l = name input)
   \/ e = RecordNotFound).
Proof.
  unfold layer_create.
  destruct (validate input) as [[[[d a] s] rows]|]; [|intros [= <- <-]; auto].
  destruct (existsb _ (layers db)) eqn:E.
  - intros [= <- <-]. split; [reflexivity|]. right. left. split; [reflexivity|].
    apply existsb_exists in E as (l & Hl & Hn). apply jsstring_eqb_eq in Hn.
    now exists l.
  - destruct (negb _); intros [= <- <-]. auto.
Qed.

Lemma layer_create_ok (input : LayerCreateInput) (db db' : DB) (row : LayerRow) :
  layer_create input db = (Ok row, db') ->
  exists d a s rows,
    validate input = Some (d, a, s, rows) /\
    layer_name row = name input /\
    layer_labelField row = labelField input /\
    created db db' row
            (feature_rows (layer_id row) (next_id (map feature_id (features db))) rows).
Proof.
  unfold layer_create.
  destruct (validate input) as [[[[d a] s] rows]|]; [|discriminate].
  destruct (existsb _ (layers db)); [discriminate|].
  destruct (negb _); [discriminate|].
  intros [= <- <-]. exists d, a, s, rows. unfold created. simpl.
  repeat split; auto using feature_rows_linked, next_id_fresh.
Qed.

(** The ORM takes a valid argument when the name is free and the connected
    records exist. *)
Lemma layer_create_accepts (input : LayerCreateInput) (db : DB) d a s rows :
  validate input = Some (d, a, s, rows) ->
  (forall l, In l (layers db) -> layer_name l <> name input) ->
  known (userIds db) d = true -> known (userIds db) a = true ->
  known (surveyIds db) s = true ->
  exists row db', layer_create input db = (Ok row, db').
Proof.
  intros Hv Hname Hd Ha Hs. unfold layer_create. rewrite Hv.
  destruct (existsb _ (layers db)) eqn:E.
  - apply existsb_exists in E as (l & Hl & Hn). apply jsstring_eqb_eq in Hn.
    now contradiction (Hname l Hl).
  - rewrite Hd, Ha, Hs. simpl. eauto.
Qed.

(** ** The action, step by step *)


Lemma action_cases (other_get : value -> jsstring -> value) (r : revision)
      (req : Request) (db : DB) :
  action other_get r req db =
  match prepare other_get r req with
  | Throw e => (Throw e, db)
  | Ok input =>
      match layer_create input db with
      | (Ok _, db') =>
          match Remix.redirect (location (response r req)) with
          | Ok _ => (Ok (response r req), db')
          | Throw e => (Throw e, db')
          end
      | (Throw e, db') => (Throw e, db')
      end
  end.
Proof.
  unfold prepare, action, Dispatcher.action, Admins.action, iobind, lift, ret, bind.
  destruct r; destruct (JSON.parse reviver _) as [pf|e]; reflexivity.
Qed.

(** A run that throws leaves the database as it was, unless it is the
    redirect that threw: then the write has been done. *)
Lemma action_throw (other_get : value -> jsstring -> value) (r : revision)
      (req : Request) (db db' : DB) (e : error) :
  action other_get r req db = (Throw e, db') ->
  db' = db \/
  (Remix.redirect (location (response r req)) = Throw e /\
   exists input row,
     prepare other_get r req = Ok input /\
     layer_create input db = (Ok row, db')).
Proof.
  rewrite action_cases. destruct (prepare other_get r req) as [input|e'].
  - destruct (layer_create input db) as [[row|e''] db''] eqn:E.
    + destruct (Remix.redirect _) as [u|e''] eqn:R; [discriminate|].
      intros [= <- <-]. right. split; [reflexivity|]. now exists input, row.
    + intros [= <- <-]. left. now apply layer_create_throw in E.
  - intros [= <- <-]. now left.
Qed.

(** The list of layers is a URL every runtime redirects to. *)
Lemma admins_redirect (req : Request) :
  Remix.redirect (location (response ByAdmins req)) = Ok tt.
Proof. reflexivity. Qed.

Lemma mapM_Forall2 {A B} (f : A -> outcome B) (l : list A) (bs : list B) :
  mapM f l = Ok bs -> Forall2 (fun a b => f a = Ok b) l bs.
Proof.
  revert bs. induction l as [|a l IH]; simpl; intros bs.
  - intros [= <-]. constructor.
  - destruct (f a) as [b|] eqn:E; simpl; [|discriminate].
    destruct (mapM f l) as [bs'|]; simpl; [|discriminate].
    intros [= <-]. constructor; auto.
Qed.

Lemma feature_inputs_Forall2 (l : list value) rows :
  feature_inputs l = Some rows ->
  Forall2 (fun v r => feature_input v = Some r) l rows.
Proof.
  revert rows. induction l as [|v l IH]; simpl; intros rows.
  - intros [= <-]. constructor.
  - destruct (feature_input v) as [x|] eqn:E; [|discriminate].
    destruct (feature_inputs l) as [xs|]; [|discriminate].
    intros [= <-]. constructor; auto.
Qed.

Lemma validate_rows (input : LayerCreateInput) d a s rows (items : list value) :
  validate input = Some (d, a, s, rows) ->
  features_createMany input = Some (Arr items) ->
  feature_inputs items = Some rows.
Proof.
  unfold validate.
  destruct (connect_id (dispatcher input)), (connect_id (admins input)),
    (connect_id (defaultSurvey input)); try discriminate.
  intros H E. rewrite E in H. simpl in H.
  destruct (feature_inputs items); [|discriminate]. now injection H as <- <- <- <-.
Qed.

(** What reaches the ORM for an array of submitted records: the records
    themselves in one revision, each with its label in the other. *)
Lemma prepare_data (other_get : value -> jsstring -> value) (r : revision)
      (req : Request) (items : list value) (input : LayerCreateInput) :
  form_features req <> Some [] ->
  JSON.parse reviver (String_ (form_features req)) = Ok (Arr items) ->
  prepare other_get r req = Ok input ->
  name input = String_ (form_name req) /\
  defaultSurvey input = defaultSurvey_of (form_surveyId req) /\
  match r with
  | ByDispatcher =>
      labelField input = Some (String_ (form_field req)) /\
      dispatcher input = Some (session_userId req) /\ admins input = None /\
      features_createMany input = Some (Arr items)
  | ByAdmins =>
      dispatcher input = None /\ admins input = Some (session_userId req) /\
      exists data,
        features_createMany input = Some (Arr data) /\
        Forall2 (fun item d =>
                   Admins.with_label other_get (form_field req) item = Ok d)
                items data
  end.
Proof.
  intros Hne Hp. unfold prepare. rewrite Hp. simpl.
  assert (He : is_empty_string (form_features req) = false).
  { destruct (form_features req) as [[|]|]; try reflexivity. now contradiction Hne. }
  destruct r.
  - intros [= <-]. unfold Dispatcher.layer. rewrite He. simpl.
    repeat split; reflexivity.
  - unfold Admins.layer. rewrite He. simpl.
    destruct (mapM _ items) as [data|] eqn:E; simpl; [|discriminate].
    intros [= <-]. simpl. repeat split. exists data. split; [reflexivity|].
    now apply mapM_Forall2.
Qed.

Lemma feature_inputs_length (l : list value) rows :
  feature_inputs l = Some rows -> length rows = length l.
Proof.
  intros H. apply feature_inputs_Forall2 in H.
  symmetry. now apply Forall2_length in H.
Qed.

Lemma feature_rows_length (id first : Z) rows :
  length (feature_rows id first rows) = length rows.
Proof.
  symmetry. exact (Forall2_length (feature_rows_spec id first rows)).
Qed.

(** What a successful run has done. *)
Lemma action_ok (other_get : value -> jsstring -> value) (r : revision)
      (req : Request) (db db' : DB) (resp : Response) :
  action other_get r req db = (Ok resp, db') ->
  resp = response r req /\
  exists input d a s irows layer,
    prepare other_get r req = Ok input /\
    validate input = Some (d, a, s, irows) /\
    layer_labelField layer = labelField input /\
    created db db' layer
            (feature_rows (layer_id layer)
                          (next_id (map feature_id (features db))) irows).
Proof.
  rewrite action_cases. destruct (prepare other_get r req) as [input|e];
    [|discriminate].
  destruct (layer_create input db) as [[row|e] db''] eqn:E; [|discriminate].
  destruct (Remix.redirect _) as [u|e]; [|discriminate].
  intros [= <- <-]. split; [reflexivity|].
  apply layer_create_ok in E as (d & a & s & irows & Hv & _ & Hl & Hc).
  now exists input, d, a, s, irows, row.
Qed.

(** The rows that reach the database, one per submitted record. *)
Lemma submitted_rows (other_get : value -> jsstring -> value) (r : revision)
      (req : Request) (items : list value) (input : LayerCreateInput) d a s irows :
  form_features req <> Some [] ->
  JSON.parse reviver (String_ (form_features req)) = Ok (Arr items) ->
  prepare other_get r req = Ok input ->
  validate input = Some (d, a, s, irows) ->
  exists data,
    feature_inputs data = Some irows /\
    match r with
    | ByDispatcher => data = items
    | ByAdmins =>
        Forall2 (fun item x =>
                   Admins.with_label other_get (form_field req) item = Ok x)
                items data
    end.
Proof.
  intros Hne Hp Hprep Hv.
  destruct (prepare_data other_get r req Hne Hp Hprep) as (_ & _ & H).
  destruct r.
  - destruct H as (_ & _ & _ & Hf). exists items. split; [|reflexivity].
    now apply (validate_rows _ Hv).
  - destruct H as (_ & _ & data & Hf & Hall). exists data. split; [|assumption].
    now apply (validate_rows _ Hv).
Qed.

Lemma submitted_rows_length (other_get : value -> jsstring -> value) (r : revision)
      (req : Request) (items : list value) (input : LayerCreateInput) d a s irows :
  form_features req <> Some [] ->
  JSON.parse reviver (String_ (form_features req)) = Ok (Arr items) ->
  prepare other_get r req = Ok input ->
  validate input = Some (d, a, s, irows) ->
  length irows = length items.
Proof.
  intros Hne Hp Hprep Hv.
  destruct (submitted_rows other_get r req Hne Hp Hprep Hv) as (data & Hd & H).
  apply feature_inputs_length in Hd. rewrite Hd.
  destruct r; [now subst|]. symmetry. now apply Forall2_length in H.
Qed.

(** ** Records of the import form *)

Lemma form_record_inv (f : jsstring) (v : value) :
  form_record f v = true ->
  exists gm props s,
    v = Obj [(str "geojson", Obj gm)] /\
    lookup (str "properties") gm = Some (Obj props) /\
    lookup f props = Some (Str s).
Proof.
  destruct v as [| | | | | |ms|]; try discriminate.
  destruct ms as [|[k g] [|]]; try discriminate;
    destruct g as [| | | | | |gm|]; try discriminate.
  unfold form_record. intros H. apply andb_prop in H as [Hk H].
  apply jsstring_eqb_eq in Hk. subst k.
  unfold own_label in H. cbn [lookup] in H. rewrite jsstring_eqb_refl in H.
  destruct (lookup (str "properties") gm) as [[| | | | | |props|]|] eqn:Hp;
    try discriminate.
  destruct (lookup f props) as [[| | | |s| | |]|] eqn:Hl; try discriminate.
  now exists gm, props, s.
Qed.

Lemma with_label_form (other_get : value -> jsstring -> value)
      (fld : option jsstring) gm props s :
  lookup (str "properties") gm = Some (Obj props) ->
  lookup (String_ fld) props = Some (Str s) ->
  Admins.with_label other_get fld (Obj [(str "geojson", Obj gm)])
  = Ok (Obj [(str "geojson", Obj gm); (str "label", Str s)]).
Proof.
  intros Hp Hl. unfold Admins.with_label, Get. cbn [lookup].
  rewrite jsstring_eqb_refl. cbn [bind]. rewrite Hp. cbn [bind]. rewrite Hl.
  reflexivity.
Qed.

Lemma acceptable_items (other_get : value -> jsstring -> value)
      (fld : option jsstring) (items : list value) :
  forallb (form_record (String_ fld)) items = true ->
  (exists rows, feature_inputs items = Some rows) /\
  (exists data rows,
      mapM (Admins.with_label other_get fld) items = Ok data /\
      feature_inputs data = Some rows).
Proof.
  induction items as [|v items IH]; simpl.
  - intros _. split; [now exists []|now exists [], []].
  - intros H. apply andb_prop in H as [Hv Hs].
    destruct (IH Hs) as ((rows & Hr) & (data & rows' & Hm & Hr')).
    apply form_record_inv in Hv as (gm & props & s & -> & Hp & Hl). split.
    + exists ((Obj gm, None) :: rows).
      change (feature_input (Obj [(str "geojson", Obj gm)]))
        with (Some (Obj gm, @None jsstring)).
      now rewrite Hr.
    + exists (Obj [(str "geojson", Obj gm); (str "label", Str s)] :: data),
        ((Obj gm, Some s) :: rows').
      rewrite (with_label_form other_get fld gm Hp Hl). cbn [bind].
      rewrite Hm. cbn [bind]. split; [reflexivity|]. cbn [feature_inputs].
      change (feature_input (Obj [(str "geojson", Obj gm); (str "label", Str s)]))
        with (Some (Obj gm, Some s)).
      now rewrite Hr'.
Qed.

Lemma known_In (ids : list Z) (id : Z) : In id ids -> known ids (Some id) = true.
Proof.
  intros H. simpl. apply existsb_exists. exists id. split; [assumption|].
  apply Z.eqb_refl.
Qed.

Lemma prepare_name (other_get : value -> jsstring -> value) (r : revision)
      (req : Request) (input : LayerCreateInput) :
  prepare other_get r req = Ok input -> name input = String_ (form_name req).
Proof.
  unfold prepare. destruct (JSON.parse reviver _) as [pf|]; [|discriminate].
  cbn [bind]. destruct r.
  - intros [= <-]. unfold Dispatcher.layer.
    now destruct (is_empty_string (form_features req)).
  - unfold Admins.layer. destruct (is_empty_string (form_features req)).
    + now intros [= <-].
    + destruct (Admins.map_features _ _ _); [|discriminate]. now intros [= <-].
Qed.

(** An acceptable request gets as far as the write, and the write is done. *)
Lemma acceptable_written (other_get : value -> jsstring -> value) (r : revision)
      (req : Request) (db : DB) (items : list value) :
  form_features req <> Some [] ->
  JSON.parse reviver (String_ (form_features req)) = Ok (Arr items) ->
  acceptable req db items ->
  exists input row db',
    prepare other_get r req = Ok input /\
    layer_create input db = (Ok row, db').
Proof.
  intros Hne Hp (Hrec & (uid & Hu & Huid) & Hsurvey & Hname).
  assert (He : is_empty_string (form_features req) = false).
  { destruct (form_features req) as [[|]|]; try reflexivity. now contradiction Hne. }
  destruct (acceptable_items other_get (form_field req) items Hrec)
    as ((rows & Hr) & (data & rows' & Hm & Hr')).
  assert (Hs : exists s, connect_id (defaultSurvey_of (form_surveyId req)) = Some s
                         /\ known (surveyIds db) s = true).
  { destruct (defaultSurvey_of (form_surveyId req)) as [[sid|]|].
    - exists (Some sid). split; [reflexivity|now apply known_In].
    - contradiction.
    - now exists None. }
  destruct Hs as (s & Hs & Hks).
  assert (H : exists input d a irows,
             prepare other_get r req = Ok input /\
             validate input = Some (d, a, s, irows) /\
             name input = String_ (form_name req) /\
             known (userIds db) d = true /\ known (userIds db) a = true).
  { unfold prepare. rewrite Hp. cbn [bind]. destruct r.
    - eexists _, (Some uid), None, rows. split; [reflexivity|].
      unfold Dispatcher.layer. rewrite He. unfold validate. cbn.
      rewrite Hu, Hs. cbn. rewrite Hr.
      repeat split; try reflexivity. now apply known_In.
    - unfold Admins.layer, Admins.map_features. rewrite He, Hm. cbn [bind].
      eexists _, None, (Some uid), rows'. split; [reflexivity|].
      unfold validate. cbn. rewrite Hu, Hs. cbn. rewrite Hr'.
      repeat split; try reflexivity. now apply known_In. }
  destruct H as (input & d & a & irows & Hprep & Hv & Hn & Hd & Ha).
  rewrite <- Hn in Hname.
  destruct (layer_create_accepts input db Hv Hname Hd Ha Hks) as (row & db' & E).
  now exists input, row, db'.
Qed.

(** What the write leaves behind, whatever comes after it. *)
Lemma written_rows (other_get : value -> jsstring -> value) (r : revision)
      (req : Request) (db db' : DB) (items : list value)
      (input : LayerCreateInput) (row : LayerRow) :
  form_features req <> Some [] ->
  JSON.parse reviver (String_ (form_features req)) = Ok (Arr items) ->
  prepare other_get r req = Ok input ->
  layer_create input db = (Ok row, db') ->
  exists rows, created db db' row rows /\ length rows = length items.
Proof.
  intros Hne Hp Hprep E.
  apply layer_create_ok in E as (d & a & s & irows & Hv & _ & _ & Hc).
  exists (feature_rows (layer_id row)
                       (next_id (map feature_id (features db))) irows).
  split; [assumption|]. rewrite feature_rows_length.
  now apply (submitted_rows_length other_get r req Hne Hp Hprep Hv).
Qed.

(** ** Header values *)

Lemma drop_whitespace_In (s : jsstring) (u : N) :
  In u (Remix.drop_whitespace s) -> In u s.
Proof.
  induction s as [|v s IH]; simpl; [auto|].
  destruct (Remix.is_http_whitespace v); [|auto].
  intros H. right. now apply IH.
Qed.

Lemma normalize_In (s : jsstring) (u : N) : In u (Remix.normalize s) -> In u s.
Proof.
  unfold Remix.normalize. intros H.
  apply in_rev, drop_whitespace_In, in_rev in H. now apply drop_whitespace_In.
Qed.

(** Header text is a header value. *)
Lemma header_text_redirect (url : jsstring) :
  header_text url = true -> Remix.redirect url = Ok tt.
Proof.
  intros H. unfold Remix.redirect, Remix.header_value_ok.
  assert (Hall : forall u, In u url ->
                           N.leb u 255 = true /\
                           negb (N.eqb u 0 || N.eqb u 10 || N.eqb u 13) = true).
  { intros u Hu. unfold header_text in H.
    rewrite forallb_forall in H. specialize (H u Hu).
    destruct (N.eqb_spec u 0); [subst; discriminate H|].
    destruct (N.eqb_spec u 10); [subst; discriminate H|].
    destruct (N.eqb_spec u 13); [subst; discriminate H|].
    split; [|reflexivity]. apply N.leb_le.
    apply orb_prop in H as [H|H].
    - apply orb_prop in H as [H|H].
      + apply N.eqb_eq in H. lia.
      + apply andb_prop in H as [_ H]. apply N.leb_le in H. lia.
    - apply andb_prop in H as [_ H]. now apply N.leb_le in H. }
  assert (H1 : forallb (fun u => N.leb u 255) url = true).
  { apply forallb_forall. intros u Hu. now apply Hall. }
  assert (H2 : forallb (fun u => negb (N.eqb u 0 || N.eqb u 10 || N.eqb u 13))
                       (Remix.normalize url) = true).
  { apply forallb_forall. intros u Hu. apply Hall. now apply normalize_In. }
  now rewrite H1, H2.
Qed.

(** A code unit above 255 is in no header value. *)
Lemma beyond_bytes_redirect (url : jsstring) :
  beyond_bytes url -> Remix.redirect url = Throw TypeError.
Proof.
  intros (u & Hu & Hbig). unfold Remix.redirect, Remix.header_value_ok.
  assert (H : forallb (fun u => N.leb u 255) url = false).
  { apply not_true_is_false. intros H. rewrite forallb_forall in H.
    specialize (H u Hu). apply N.leb_le in H. lia. }
  now rewrite H.
Qed.

(** An acceptable request goes through when the redirect returns. *)
Lemma acceptable_runs (other_get : value -> jsstring -> value) (r : revision)
      (req : Request) (db : DB) (items : list value) :
  form_features req <> Some [] ->
  JSON.parse reviver (String_ (form_features req)) = Ok (Arr items) ->
  acceptable req db items ->
  Remix.redirect (location (response r req)) = Ok tt ->
  exists resp db', action other_get r req db = (Ok resp, db').
Proof.
  intros Hne Hp Hacc Hred.
  destruct (@acceptable_written other_get r req db items Hne Hp Hacc)
    as (input & row & db' & Hprep & E).
  exists (response r req), db'. now rewrite action_cases, Hprep, E, Hred.
Qed.

(** C2, what the code does: the revision that redirects to the page of
    the new layer writes first and redirects after, and a name with a code
    unit above 255 makes no header value. A request with such a name that
    the database takes stores its layer and all N features, and then the
    run throws a [TypeError]: the run has failed and the rows exist. *)
Theorem redirect_failure_keeps_rows (req : Request) (db : DB)
        (items : list value) :
  form_features req <> Some [] ->
  JSON.parse reviver (String_ (form_features req)) = Ok (Arr items) ->
  acceptable req db items ->
  beyond_bytes (String_ (form_name req)) ->
  exists db' layer rows,
    Dispatcher.action req db = (Throw TypeError, db') /\
    created db db' layer rows /\ length rows = length items /\
    layer_name layer = String_ (form_name req).
Proof.
  intros Hne Hp Hacc Hname.
  destruct (@acceptable_written node_get ByDispatcher req db items Hne Hp Hacc)
    as (input & row & db' & Hprep & E).
  destruct (@written_rows node_get ByDispatcher req db db' items input row
             Hne Hp Hprep E) as (rows & Hc & Hlen).
  exists db', row, rows. split; [|split; [exact Hc|split; [exact Hlen|]]].
  - change (Dispatcher.action req db) with (action node_get ByDispatcher req db).
    rewrite action_cases, Hprep, E. cbn [response location].
    rewrite beyond_bytes_redirect; [reflexivity|].
    destruct Hname as (u & Hu & Hbig). exists u. split; [|assumption].
    apply in_or_app. now right.
  - apply layer_create_ok in E as (? & ? & ? & ? & _ & Hn & _).
    rewrite Hn. now apply (prepare_name _ _ _ Hprep).
Qed.

Lemma redirect_failure_keeps_rows_witness :
  exists db' layer rows,
    Dispatcher.action (request two_features kanji_name) db_one
    = (Throw TypeError, db') /\
    created db_one db' layer rows /\ length rows = 2%nat /\
    layer_name layer = kanji_name.
Proof.
  refine (@redirect_failure_keeps_rows (request two_features kanji_name) db_one
            [_; _] _ _ _ _).
  - discriminate.
  - vm_compute. reflexivity.
  - repeat split.
    + exists 7%Z. split; [reflexivity|now left].
    + now left.
    + intros l [<-|[]]. discriminate.
  - exists 26085%N. split; [now left|reflexivity].
Defined.

(** X19: when the URL of the redirect is header text (it always is in
    the revision that redirects to the list of layers), a run of
    layer-create on a features input that parses to N records either
    stores one new layer and N features linked to it, or throws and stores
    nothing; and a request with records as the import form builds them, a
    known user and survey and a free name is stored. *)
Theorem import_all_or_nothing (other_get : value -> jsstring -> value)
        (r : revision) (req : Request) (db : DB) (items : list value) :
  form_features req <> Some [] ->
  JSON.parse reviver (String_ (form_features req)) = Ok (Arr items) ->
  header_text (location (response r req)) = true ->
  ((exists e, action other_get r req db = (Throw e, db)) \/
   (exists resp db' layer rows,
       action other_get r req db = (Ok resp, db') /\
       created db db' layer rows /\ length rows = length items)) /\
  (acceptable req db items ->
   exists resp db' layer rows,
     action other_get r req db = (Ok resp, db') /\
     created db db' layer rows /\ length rows = length items).
Proof.
  intros Hne Hp Htext. apply header_text_redirect in Htext.
  assert (Hok : forall resp db',
             action other_get r req db = (Ok resp, db') ->
             exists layer rows,
               created db db' layer rows /\ length rows = length items).
  { intros resp db' E.
    destruct (action_ok _ _ _ _ E)
      as (_ & input & d & a & s & irows & layer & Hprep & Hv & _ & Hc).
    exists layer, (feature_rows (layer_id layer)
                                (next_id (map feature_id (features db))) irows).
    split; [assumption|]. rewrite feature_rows_length.
    now apply (submitted_rows_length other_get r req Hne Hp Hprep Hv). }
  split.
  - destruct (action other_get r req db) as [[resp|e] db'] eqn:E.
    + right. destruct (Hok resp db' eq_refl) as (layer & rows & H).
      now exists resp, db', layer, rows.
    + left. exists e.
      destruct (action_throw _ _ _ _ E) as [->|(R & _)]; [reflexivity|].
      rewrite Htext in R. discriminate R.
  - intros Hacc.
    destruct (@acceptable_runs other_get r req db items Hne Hp Hacc Htext)
      as (resp & db' & E).
    destruct (Hok resp db' E) as (layer & rows & H).
    now exists resp, db', layer, rows.
Qed.

Lemma import_all_or_nothing_witness :
  exists resp db' layer rows,
    action node_get ByDispatcher (request two_features (str "Hydrants")) db_one
    = (Ok resp, db') /\
    created db_one db' layer rows /\ length rows = 2%nat.
Proof.
  refine (proj2 (@import_all_or_nothing node_get ByDispatcher
                   (request two_features (str "Hydrants")) db_one
                   [_; _] _ _ _) _).
  - discriminate.
  - vm_compute. reflexivity.
  - reflexivity.
  - repeat split.
    + exists 7%Z. split; [reflexivity|now left].
    + now left.
    + intros l [<-|[]]. discriminate.
Defined.

(** ** Labels *)

Lemma lookup_obj_set (k : jsstring) (v : value) (ms : list (jsstring * value)) :
  lookup k (obj_set k v ms) = Some v.
Proof.
  induction ms as [|[k' y] ms IH]; simpl.
  - now rewrite jsstring_eqb_refl.
  - destruct (jsstring_eqb k k') eqn:E; simpl; rewrite E; [reflexivity|exact IH].
Qed.

Lemma lookup_obj_set_other (k k' : jsstring) (v : value)
      (ms : list (jsstring * value)) :
  jsstring_eqb k k' = false -> lookup k (obj_set k' v ms) = lookup k ms.
Proof.
  intros Hk. induction ms as [|[k1 y] ms IH]; simpl.
  - now rewrite Hk.
  - destruct (jsstring_eqb k' k1) eqn:E; simpl.
    + apply jsstring_eqb_eq in E. subst k1. now rewrite Hk.
    + now rewrite IH.
Qed.

Lemma with_label_own (other_get : value -> jsstring -> value)
      (fld : option jsstring) (item d l : value) :
  own_label (String_ fld) item = Some l ->
  Admins.with_label other_get fld item = Ok d ->
  exists ms, d = Obj (obj_set (str "label") l ms).
Proof.
  unfold own_label, Admins.with_label, Get.
  destruct item as [| | | | | |ms|]; try discriminate.
  destruct (lookup (str "geojson") ms) as [[| | | | | |gm|]|]; try discriminate.
  cbn [bind].
  destruct (lookup (str "properties") gm) as [[| | | | | |props|]|];
    try discriminate.
  cbn [bind]. intros ->. cbn [bind spread]. intros [= <-]. now exists ms.
Qed.

Lemma feature_input_label (ms : list (jsstring * value)) (g l : value)
      (lab : option jsstring) :
  feature_input (Obj ms) = Some (g, lab) ->
  lookup (str "label") ms = Some l ->
  label_matches lab l.
Proof.
  unfold feature_input. intros H Hl. rewrite Hl in H.
  destruct (forallb _ ms); [|discriminate].
  destruct (lookup (str "geojson") ms) as [[]|]; try discriminate;
    destruct l; try discriminate; injection H as <- <-; simpl; auto.
Qed.

Lemma Forall2_compose {A B C} (P : A -> B -> Prop) (Q : B -> C -> Prop)
      (l1 : list A) (l2 : list B) (l3 : list C) :
  Forall2 P l1 l2 -> Forall2 Q l2 l3 ->
  Forall2 (fun a c => exists b, P a b /\ Q b c) l1 l3.
Proof.
  intros H. revert l3. induction H; intros l3 H3; inversion H3; subst;
    constructor; eauto.
Qed.

Lemma admins_labels (other_get : value -> jsstring -> value) :
  labels_derived (Admins.action other_get).
Proof.
  intros req db items resp db' Hne Hp E.
  change (Admins.action other_get) with (action other_get ByAdmins) in E.
  destruct (action_ok _ _ _ _ E)
    as (_ & input & d & a & s & irows & layer & Hprep & Hv & _ & Hc).
  destruct (submitted_rows other_get ByAdmins req Hne Hp Hprep Hv)
    as (data & Hd & Hall).
  eexists layer, _. split; [exact Hc|].
  apply feature_inputs_Forall2 in Hd.
  pose proof (Forall2_compose (Forall2_compose Hall Hd)
                (feature_rows_spec (layer_id layer)
                   (next_id (map feature_id (features db))) irows)) as H.
  eapply Forall2_impl; [|exact H]. clear.
  intros item row (ir & (x & Hw & Hi) & (_ & _ & Hl)) l Hown.
  destruct (with_label_own _ _ _ Hown Hw) as (ms & ->).
  destruct ir as [g lab]. simpl in Hl. rewrite Hl.
  apply (feature_input_label _ Hi). apply lookup_obj_set.
Qed.

(** The other revision stores each record as it was submitted and keeps
    the name of the label field on the layer. *)
Lemma dispatcher_stores_as_submitted (req : Request) (db db' : DB)
      (items : list value) (resp : Response) :
  form_features req <> Some [] ->
  JSON.parse reviver (String_ (form_features req)) = Ok (Arr items) ->
  Dispatcher.action req db = (Ok resp, db') ->
  exists layer rows,
    created db db' layer rows /\
    layer_labelField layer = Some (String_ (form_field req)) /\
    Forall2 (fun item row =>
               feature_input item = Some (feature_geojson row, feature_label row))
            items rows.
Proof.
  intros Hne Hp E.
  change Dispatcher.action with (action node_get ByDispatcher) in E.
  destruct (action_ok _ _ _ _ E)
    as (_ & input & d & a & s & irows & layer & Hprep & Hv & Hlf & Hc).
  destruct (submitted_rows node_get ByDispatcher req Hne Hp Hprep Hv)
    as (data & Hd & ->).
  destruct (prepare_data node_get ByDispatcher req Hne Hp Hprep)
    as (_ & _ & Hfield & _).
  eexists layer, _. split; [exact Hc|]. split; [congruence|].
  apply feature_inputs_Forall2 in Hd.
  pose proof (Forall2_compose Hd
                (feature_rows_spec (layer_id layer)
                   (next_id (map feature_id (features db))) irows)) as H.
  eapply Forall2_impl; [|exact H]. clear.
  intros item row ([g lab] & Hi & (_ & Hg & Hl)). simpl in Hg, Hl.
  now rewrite Hg, Hl.
Qed.

(** C3, as the code has it: in the revision that owns the layer through
    [admins], every stored feature whose properties have the label field
    carries that value as its label, read after the scrub; the revision
    that owns it through [dispatcher] derives no label: it stores each
    record as submitted and the name of the label field on the layer. *)
Theorem label_from_field (other_get : value -> jsstring -> value) :
  labels_derived (Admins.action other_get) /\
  forall req db db' items resp,
    form_features req <> Some [] ->
    JSON.parse reviver (String_ (form_features req)) = Ok (Arr items) ->
    Dispatcher.action req db = (Ok resp, db') ->
    exists layer rows,
      created db db' layer rows /\
      layer_labelField layer = Some (String_ (form_field req)) /\
      Forall2 (fun item row =>
                 feature_input item = Some (feature_geojson row, feature_label row))
              items rows.
Proof.
  split; [apply admins_labels|].
  intros req db db' items resp. apply dispatcher_stores_as_submitted.
Qed.

Lemma label_from_field_witness :
  exists resp db' f,
    Admins.action node_get (request one_feature (str "Hydrants")) db_one
    = (Ok resp, db') /\
    features db' = [f] /\ feature_label f = Some (str "A").
Proof.
  destruct (Admins.action node_get (request one_feature (str "Hydrants")) db_one)
    as [[resp|e] db'] eqn:E; [|vm_compute in E; discriminate E].
  destruct (JSON.parse reviver (String_ (form_features
              (request one_feature (str "Hydrants"))))) as [[| | | | |items| |]|] eqn:Hp;
    try (vm_compute in Hp; discriminate Hp).
  assert (Hne : form_features (request one_feature (str "Hydrants")) <> Some [])
    by discriminate.
  destruct (proj1 (label_from_field node_get) _ _ _ _ _ Hne Hp E)
    as (layer & rows & (_ & Hf & _) & Hall).
  vm_compute in Hp. injection Hp as <-.
  inversion Hall as [|item f its fs Hlab Hrest]; subst.
  inversion Hrest; subst.
  exists resp, db', f. split; [reflexivity|]. split; [exact Hf|].
  specialize (Hlab (Str (str "A")) eq_refl).
  destruct (feature_label f); simpl in Hlab.
  - now injection Hlab as <-.
  - destruct Hlab; discriminate.
Defined.

Lemma dispatcher_example :
  exists item f db',
    JSON.parse reviver
      (String_ (form_features (request one_feature (str "Hydrants"))))
    = Ok (Arr [item]) /\
    own_label (str "name") item = Some (Str (str "A")) /\
    Dispatcher.action (request one_feature (str "Hydrants")) db_one
    = (Ok (response ByDispatcher (request one_feature (str "Hydrants"))), db') /\
    features db' = features db_one ++ [f] /\
    feature_label f = None.
Proof.
  do 3 eexists. repeat split; vm_compute; reflexivity.
Qed.

(** C3 fails as stated: the revision that owns the layer through
    [dispatcher] stores a feature whose properties have the label field
    without a label. *)
Lemma dispatcher_derives_no_label : ~ labels_derived Dispatcher.action.
Proof.
  intros H.
  destruct dispatcher_example as (item & f & db' & Hp & Hown & E & Hf & Hl).
  assert (Hne : form_features (request one_feature (str "Hydrants")) <> Some [])
    by discriminate.
  destruct (H _ _ _ _ _ Hne Hp E) as (layer & rows & (_ & Hf' & _) & Hall).
  rewrite Hf in Hf'. apply app_inv_head in Hf'. subst rows.
  inversion Hall as [|? ? ? ? Hlab _]; subst.
  specialize (Hlab _ Hown). rewrite Hl in Hlab.
  destruct Hlab; discriminate.
Qed.

(** ** Failures *)

Lemma parse_empty : JSON.parse reviver [] = Throw SyntaxError.
Proof. reflexivity. Qed.

(** C4, what the code does: the features are parsed before the action
    looks whether they are empty, and the empty string is not JSON; the
    run throws and stores nothing. *)
Theorem empty_features_throw (other_get : value -> jsstring -> value)
        (r : revision) (req : Request) (db : DB) :
  form_features req = Some [] ->
  action other_get r req db = (Throw SyntaxError, db).
Proof.
  intros He. rewrite action_cases. unfold prepare. rewrite He. reflexivity.
Qed.

Lemma empty_features_throw_witness :
  Dispatcher.action (request [] (str "Hydrants")) db_one
  = (Throw SyntaxError, db_one) /\
  Admins.action node_get (request [] (str "Hydrants")) db_one
  = (Throw SyntaxError, db_one).
Proof.
  split.
  - apply (@empty_features_throw node_get ByDispatcher). reflexivity.
  - apply (@empty_features_throw node_get ByAdmins). reflexivity.
Defined.



Lemma Get_throw (other_get : value -> jsstring -> value) (v : value)
      (k : jsstring) (e : error) :
  Get other_get v k = Throw e -> e = TypeError.
Proof.
  destruct v; simpl; try discriminate; try (now intros [= <-]).
  destruct (lookup k members); discriminate.
Qed.

Lemma with_label_throw (other_get : value -> jsstring -> value)
      (fld : option jsstring) (f : value) (e : error) :
  Admins.with_label other_get fld f = Throw e -> e = TypeError.
Proof.
  unfold Admins.with_label.
  destruct (Get other_get f (str "geojson")) as [g|e1] eqn:E1; cbn [bind];
    [|intros [= <-]; now apply Get_throw in E1].
  destruct (Get other_get g (str "properties")) as [p|e2] eqn:E2; cbn [bind];
    [|intros [= <-]; now apply Get_throw in E2].
  destruct (Get other_get p (String_ fld)) as [l|e3] eqn:E3; cbn [bind];
    [discriminate|intros [= <-]; now apply Get_throw in E3].
Qed.





(** ** The map view *)

Lemma findMany_features (db : DB) (layerId userId : Z) :
  exists l,
    feature_findMany layerId userId db = (Ok l, db) /\
    map feature l = filter (fetched db layerId userId) (features db) /\
    Forall (fun x => assignment_of db (feature x) = Some (assignment x)) l.
Proof.
  unfold feature_findMany. eexists. split; [reflexivity|].
  induction (features db) as [|f fs [IH1 IH2]]; simpl; [auto|].
  unfold fetched at 1.
  destruct (Z.eqb (feature_layerId f) layerId); simpl; [|auto].
  destruct (assignment_of db f) as [a|] eqn:Ea; simpl; [|auto].
  destruct (Z.eqb (assignment_assigneeId a) userId); simpl; [|auto].
  split; [now f_equal|]. constructor; auto.
Qed.

Lemma find_name (nm : jsstring) (ls : list LayerRow) (l : LayerRow) :
  find (fun l => jsstring_eqb (layer_name l) nm) ls = Some l ->
  In l ls /\ layer_name l = nm.
Proof.
  intros H. apply find_some in H as [Hin Hn]. now apply jsstring_eqb_eq in Hn.
Qed.

Lemma map_feature_id (other_get : value -> jsstring -> value) (flag : bool)
      (x : FeatureWithAssignment) (mf : MapFeature) :
  map_feature other_get flag x = Ok mf ->
  mf_id mf = fid x /\
  property mf "completed" = Bool flag /\
  property mf "assignmentId" = Num (inject_Z (assignment_id (assignment x))).
Proof.
  unfold map_feature.
  destruct (Get other_get _ (str "geometry")) as [g|]; cbn [bind]; [|discriminate].
  destruct (Get other_get _ (str "properties")) as [ps|]; cbn [bind]; [|discriminate].
  intros [= <-]. unfold property. cbn [mf_id mf_properties].
  split; [reflexivity|]. split.
  - now rewrite lookup_obj_set.
  - rewrite lookup_obj_set_other by reflexivity. now rewrite lookup_obj_set.
Qed.

Lemma collection_spec (other_get : value -> jsstring -> value) (flag : bool)
      (l : list FeatureWithAssignment) (mfs : list MapFeature) :
  mapM (map_feature other_get flag) l = Ok mfs ->
  map mf_id mfs = map fid l /\
  Forall (fun mf => property mf "completed" = Bool flag) mfs.
Proof.
  intros H. apply mapM_Forall2 in H.
  induction H as [|x mf l mfs Hx _ [IH1 IH2]]; simpl; [auto|].
  apply map_feature_id in Hx as (Hid & Hc & _).
  split; [now f_equal|]. constructor; auto.
Qed.

Lemma filter_partition {A} (f : A -> bool) (l : list A) :
  Permutation (filter f l ++ filter (fun x => negb (f x)) l) l.
Proof.
  induction l as [|a l IH]; simpl; [constructor|].
  destruct (f a); simpl.
  - now constructor.
  - symmetry. apply Permutation_cons_app. now symmetry.
Qed.

Lemma collection_runs (other_get : value -> jsstring -> value) (flag : bool)
      (l : list FeatureWithAssignment) :
  Forall (fun x => feature_geojson (feature x) <> Null
                   /\ feature_geojson (feature x) <> Undefined) l ->
  exists mfs, mapM (map_feature other_get flag) l = Ok mfs.
Proof.
  induction 1 as [|x l [Hn Hu] _ (mfs & IH)]; simpl; [now eexists|].
  unfold map_feature at 1, Get.
  destruct (feature_geojson (feature x)) eqn:E; try congruence;
    repeat (match goal with
            | |- context [lookup ?k ?m] => destruct (lookup k m)
            end);
    cbn [bind]; rewrite IH; cbn [bind]; now eexists.
Qed.

Lemma Forall_filter {A} (P : A -> Prop) (f : A -> bool) (l : list A) :
  Forall P l -> Forall P (filter f l).
Proof.
  induction 1; simpl; [constructor|]. destruct (f x); auto.
Qed.

(** C5: the loader returns the requested layer and exactly its features
    whose assignment is the surveyor's, each with that assignment; the two
    collections split what was fetched by the completed flag, every
    fetched feature in one of them and none in both. *)
Theorem map_view_partition (other_get : value -> jsstring -> value)
        (userId : Z) (taskId : jsstring) (db : DB) :
  (forall assignments layer db',
      query userId taskId db = (Ok (assignments, layer), db') ->
      db' = db /\ In layer (layers db) /\ layer_name layer = taskId /\
      map feature assignments
      = filter (fetched db (layer_id layer) userId) (features db) /\
      Forall (fun x => assignment_of db (feature x) = Some (assignment x))
             assignments) /\
  (forall layer, In layer (layers db) -> layer_name layer = taskId ->
                 exists assignments layer',
                   query userId taskId db = (Ok (assignments, layer'), db)) /\
  (forall assignments done todo,
      completedAssignments other_get assignments = Ok done ->
      todoAssignments other_get assignments = Ok todo ->
      map mf_id done = map fid (filter is_completed assignments) /\
      map mf_id todo = map fid (filter (fun x => negb (is_completed x)) assignments) /\
      Forall (fun mf => property mf "completed" = Bool true) done /\
      Forall (fun mf => property mf "completed" = Bool false) todo /\
      Permutation (map mf_id done ++ map mf_id todo) (map fid assignments)) /\
  (forall assignments,
      Forall (fun x => feature_geojson (feature x) <> Null
                       /\ feature_geojson (feature x) <> Undefined) assignments ->
      exists done todo,
        completedAssignments other_get assignments = Ok done /\
        todoAssignments other_get assignments = Ok todo).
Proof.
  split; [|split; [|split]].
  - intros fs layer db'. unfold query, iobind, layer_findUniqueOrThrow, ret.
    destruct (find _ (layers db)) as [l|] eqn:El; [|discriminate].
    destruct (findMany_features db (layer_id l) userId) as (fs' & -> & Hm & Ha).
    intros [= <- <- <-]. apply find_name in El as [Hin Hn]. auto.
  - intros layer Hin Hn. unfold query, iobind, layer_findUniqueOrThrow, ret.
    destruct (find _ (layers db)) as [l|] eqn:El.
    + destruct (findMany_features db (layer_id l) userId) as (fs & -> & _).
      now exists fs, l.
    + exfalso. apply (find_none _ _ El) in Hin. apply jsstring_eqb_neq in Hin.
      contradiction.
  - intros fs done todo Hd Ht.
    apply collection_spec in Hd as [Hd1 Hd2].
    apply collection_spec in Ht as [Ht1 Ht2].
    repeat split; try assumption.
    rewrite Hd1, Ht1, <- map_app. apply Permutation_map, filter_partition.
  - intros fs H. unfold completedAssignments, todoAssignments.
    destruct (collection_runs other_get true
                (Forall_filter (fun x => assignment_completed (assignment x)) H))
      as (done & ->).
    destruct (collection_runs other_get false
                (Forall_filter (fun x => negb (assignment_completed (assignment x))) H))
      as (todo & ->).
    now exists done, todo.
Qed.

Lemma map_view_partition_witness :
  exists fs layer done todo,
    query 7 (str "Roads") db_survey = (Ok (fs, layer), db_survey) /\
    map fid fs = [1%Z; 2%Z] /\
    completedAssignments node_get fs = Ok done /\
    todoAssignments node_get fs = Ok todo /\
    map mf_id done = [1%Z] /\ map mf_id todo = [2%Z].
Proof.
  destruct (map_view_partition node_get 7 (str "Roads") db_survey)
    as (T1 & T2 & T3 & T4).
  destruct (T2 _ (or_introl eq_refl) eq_refl) as (fs & layer & Hq).
  destruct (T1 fs layer db_survey Hq) as (_ & _ & _ & Hm & _).
  assert (Hfs : map fid fs = [1%Z; 2%Z]).
  { unfold fid. rewrite <- (map_map feature feature_id), Hm.
    vm_compute in Hq. injection Hq as _ <-. reflexivity. }
  assert (Hg : Forall (fun x => feature_geojson (feature x) <> Null
                                /\ feature_geojson (feature x) <> Undefined) fs).
  { vm_compute in Hq. injection Hq as <- _.
    repeat constructor; discriminate. }
  destruct (T4 fs Hg) as (done & todo & Hd & Ht).
  destruct (T3 fs done todo Hd Ht) as (H1 & H2 & _).
  exists fs, layer, done, todo. repeat split; try assumption.
  - rewrite H1. vm_compute in Hq. injection Hq as <- _. reflexivity.
  - rewrite H2. vm_compute in Hq. injection Hq as <- _. reflexivity.
Defined.

(** ** The map interaction state machine *)

Lemma crosshair_moves : crosshair_move_keeps_mode.
Proof. intros p w vs. repeat split. Qed.

(** C7, as the code has it: in the revision with the crosshair a pan or a
    zoom closes the feature popup and leaves add-point mode as it is; in
    the revision with the Add Point popup a camera move closes the feature
    popup and the Add Point popup with it. *)
Theorem camera_move_closes_popup :
  crosshair_move_keeps_mode /\
  forall p w vs,
    let w' := Popup.step p w (Popup.CameraChange vs) in
    Popup.featurePopup (Popup.render (Popup.ui w')) = None /\
    Popup.addPointPopup (Popup.render (Popup.ui w')) = None.
Proof.
  split; [exact crosshair_moves|]. intros p w vs. split; reflexivity.
Qed.

(** C7 fails as stated: in the revision with the Add Point popup a camera
    move leaves add-point mode. *)
Lemma popup_move_leaves_add_point : ~ popup_move_keeps_mode.
Proof.
  intros H.
  destruct (H props_one
              (Popup.step props_one Popup.start (Popup.Click click_nothing))
              Popup.initialViewState) as [_ Hmode].
  discriminate Hmode.
Qed.

(** C10: in the revision with the Add Point popup, a click that hits no
    feature turns add-point mode on and shows the Add Point popup at the
    click, whatever the state before. *)
Theorem click_off_feature_adds_point (p : Props) (w : Popup.World) (e : ClickEvent) :
  hit e = [] ->
  let w' := Popup.step p w (Popup.Click e) in
  Popup.addPoint (Popup.ui w') = true /\
  Popup.addPointPopup (Popup.render (Popup.ui w')) = Some (lngLat e).
Proof.
  intros He. simpl. unfold Popup.onFeatureClick. rewrite He. split; reflexivity.
Qed.

Lemma click_off_feature_adds_point_witness :
  Popup.addPointPopup
    (Popup.render (Popup.ui (Popup.step props_one Popup.start
                                        (Popup.Click click_nothing))))
  = Some {| lng := 1; lat := 2 |}.
Proof.
  apply (@click_off_feature_adds_point props_one Popup.start click_nothing).
  reflexivity.
Defined.

(** ** Adding a point *)

(** The component's [viewState] follows the camera. *)
Lemma crosshair_camera_step (p : Props) (w : Crosshair.World) (ev : Crosshair.Event) :
  Crosshair.camera w = Crosshair.viewState (Crosshair.ui w) ->
  Crosshair.camera (Crosshair.step p w ev)
  = Crosshair.viewState (Crosshair.ui (Crosshair.step p w ev)).
Proof.
  intros H. destruct ev; simpl; try assumption; try reflexivity.
  - unfold Crosshair.onFeatureClick. now destruct (hit e).
  - now destruct (Crosshair.addPoint (Crosshair.ui w)).
  - destruct (Crosshair.showPopup (Crosshair.ui w)); [|assumption].
    now destruct (negb _ && _).
Qed.

Lemma crosshair_camera_run (p : Props) (evs : list Crosshair.Event)
      (w : Crosshair.World) :
  Crosshair.camera w = Crosshair.viewState (Crosshair.ui w) ->
  Crosshair.camera (Crosshair.run p evs w)
  = Crosshair.viewState (Crosshair.ui (Crosshair.run p evs w)).
Proof.
  revert w. induction evs as [|ev evs IH]; intros w H; [assumption|].
  apply IH. now apply crosshair_camera_step.
Qed.

Lemma crosshair_centre : crosshair_sends_centre.
Proof.
  intros p saved evs w Hbutton.
  pose proof (crosshair_camera_run p evs (Crosshair.start saved) eq_refl) as Hcam.
  fold w in Hcam. unfold Crosshair.step. rewrite Hbutton. simpl.
  unfold centre. now rewrite Hcam.
Qed.

(** Only a click opens the Add Point popup or moves it. *)
Lemma popup_add_point_kept (p : Props) (w : Popup.World) (ev : Popup.Event)
      (c : LngLat) :
  is_click ev = false ->
  Popup.addPointPopup (Popup.render (Popup.ui (Popup.step p w ev))) = Some c ->
  Popup.addPointPopup (Popup.render (Popup.ui w)) = Some c.
Proof.
  destruct ev; simpl; intros Hc H; try discriminate; try exact H.
  destruct (Popup.addPoint (Popup.ui w)) eqn:E; simpl in H; [discriminate|].
  now rewrite E in H.
Qed.

Lemma popup_last_click (p : Props) (evs : list Popup.Event) (c : LngLat) :
  Popup.addPointPopup (Popup.render (Popup.ui (Popup.run p evs Popup.start)))
  = Some c ->
  exists evs1 e evs2,
    evs = evs1 ++ Popup.Click e :: evs2 /\
    forallb (fun ev => negb (is_click ev)) evs2 = true /\
    lngLat e = c.
Proof.
  induction evs as [|ev evs IH] using rev_ind; [discriminate|].
  unfold Popup.run. rewrite fold_left_app. cbn [fold_left].
  fold (Popup.run p evs Popup.start).
  destruct (is_click ev) eqn:Hc.
  - destruct ev; try discriminate. intros H.
    exists evs, e, []. repeat split.
    revert H. simpl. unfold Popup.onFeatureClick.
    destruct (hit e); simpl.
    + now intros [= <-].
    + destruct (Popup.addPoint (Popup.ui (Popup.run p evs Popup.start)));
        [now intros [= <-]|discriminate].
  - intros H. apply (popup_add_point_kept _ _ _ Hc) in H.
    destruct (IH H) as (evs1 & e & evs2 & -> & Hno & He).
    exists evs1, e, (evs2 ++ [ev]). repeat split; [|  |assumption].
    + now rewrite <- app_assoc.
    + rewrite forallb_app, Hno. simpl. now rewrite Hc.
Qed.

Lemma points_are_stored (layerId : Z) (c : LngLat) (userId : Z) :
  point_stored layerId c userId.
Proof.
  intros db. unfold Assignments.serve, Assignments.feature_create, iobind, ret.
  do 3 eexists. repeat split.
Qed.

(** C6, as the code has it: confirming Add Point sends one create-point
    request with the layer and the surveyor; in the revision with the
    crosshair its coordinates are the map centre, in the revision with the
    Add Point popup they are those of the last click, where the popup
    stands. The server part, from the specification: the request stores
    one Feature, a point at the coordinates sent, and one Assignment of it
    to that surveyor, not completed. *)
Theorem add_point_request :
  crosshair_sends_centre /\
  (forall p evs c,
      let w := Popup.run p evs Popup.start in
      Popup.addPointPopup (Popup.render (Popup.ui w)) = Some c ->
      Popup.submitted (Popup.step p w Popup.ConfirmAddPoint)
      = Popup.submitted w ++ [CreatePoint (layer_id (layer_ p)) c (userId_ p)] /\
      exists evs1 e evs2,
        evs = evs1 ++ Popup.Click e :: evs2 /\
        forallb (fun ev => negb (is_click ev)) evs2 = true /\
        lngLat e = c) /\
  (forall layerId c userId, point_stored layerId c userId).
Proof.
  split; [exact crosshair_centre|]. split; [|exact points_are_stored].
  intros p evs c w H. split; [|now apply (popup_last_click p evs)].
  unfold Popup.step. rewrite H. simpl. f_equal. f_equal. f_equal.
  revert H. simpl. destruct (Popup.addPoint (Popup.ui w)); [|discriminate].
  now intros [= <-].
Qed.

Lemma add_point_request_witness :
  Crosshair.submitted
    (Crosshair.step props_one
       (Crosshair.run props_one
          [Crosshair.Pan {| longitude := -1224 # 10; latitude := 378 # 10; zoom := 12 |};
           Crosshair.ToggleAddPoint]
          (Crosshair.start None))
       Crosshair.ConfirmAddPoint)
  = [CreatePoint 1 {| lng := -1224 # 10; lat := 378 # 10 |} 7].
Proof.
  apply (proj1 add_point_request props_one None
           [Crosshair.Pan {| longitude := -1224 # 10; latitude := 378 # 10; zoom := 12 |};
            Crosshair.ToggleAddPoint]).
  reflexivity.
Defined.

(** C6 fails as stated: in the revision with the Add Point popup the point
    goes where the click was, not to the map centre. *)
Lemma popup_sends_click_not_centre : ~ popup_sends_centre.
Proof.
  intros H.
  specialize (H props_one [Popup.Click click_nothing]).
  simpl in H. assert (Hshown : Some (lngLat click_nothing) <> None) by discriminate.
  specialize (H Hshown). discriminate H.
Qed.

(** ** The completed flag *)

Lemma action_assignments (other_get : value -> jsstring -> value) (r : revision)
      (req : Request) (db : DB) :
  assignments (snd (action other_get r req db)) = assignments db.
Proof.
  destruct (action other_get r req db) as [[resp|e] db'] eqn:E; simpl.
  - destruct (action_ok _ _ _ _ E) as (_ & ? & ? & ? & ? & ? & ? & _ & _ & _ & Hc).
    now destruct Hc as (_ & _ & Ha & _).
  - destruct (action_throw _ _ _ _ E) as [->|(_ & input & row & _ & W)];
      [reflexivity|].
    apply layer_create_ok in W as (? & ? & ? & ? & _ & _ & _ & Hc).
    now destruct Hc as (_ & _ & Ha & _).
Qed.

Lemma mark_completed_keeps (id : Z) (a : AssignmentRow) :
  assignment_id (Assignments.mark_completed id a) = assignment_id a /\
  (assignment_completed a = true ->
   assignment_completed (Assignments.mark_completed id a) = true).
Proof.
  unfold Assignments.mark_completed.
  destruct (Z.eqb (assignment_id a) id); simpl; auto.
Qed.

Lemma apply_keeps_completed (other_get : value -> jsstring -> value)
      (o : Assignments.op) (db : DB) (i : nat) (a : AssignmentRow) :
  nth_error (assignments db) i = Some a ->
  assignment_completed a = true ->
  exists a',
    nth_error (assignments (Assignments.apply other_get db o)) i = Some a' /\
    assignment_id a' = assignment_id a /\
    assignment_completed a' = true.
Proof.
  intros Hi Hc. destruct o; simpl.
  - change (Dispatcher.action req db) with (action other_get ByDispatcher req db).
    rewrite action_assignments. now exists a.
  - change (Admins.action other_get req db) with (action other_get ByAdmins req db).
    rewrite action_assignments. now exists a.
  - exists a. rewrite nth_error_app1; [auto|].
    apply nth_error_Some. congruence.
  - exists (Assignments.mark_completed assignmentId a).
    destruct (mark_completed_keeps assignmentId a) as [Hid Hk].
    split; [|auto]. now apply map_nth_error.
Qed.

Lemma completed_stays (other_get : value -> jsstring -> value)
      (ops : list Assignments.op) :
  forall (db : DB) (i : nat) (a : AssignmentRow),
    nth_error (assignments db) i = Some a ->
    assignment_completed a = true ->
    exists a',
      nth_error (assignments (Assignments.apply_all other_get ops db)) i = Some a' /\
      assignment_id a' = assignment_id a /\
      assignment_completed a' = true.
Proof.
  induction ops as [|o ops IH]; intros db i a Hi Hc; [now exists a|].
  destruct (apply_keeps_completed other_get o db i Hi Hc) as (a1 & H1 & Hid & Hc1).
  destruct (IH _ _ _ H1 Hc1) as (a' & H' & Hid' & Hc').
  exists a'. repeat split; [exact H'|congruence|assumption].
Qed.

Lemma mapM_In {A B} (f : A -> outcome B) (l : list A) (bs : list B) (b : B) :
  mapM f l = Ok bs -> In b bs -> exists a, In a l /\ f a = Ok b.
Proof.
  intros H. apply mapM_Forall2 in H.
  induction H as [|a b' l bs Hab _ IH]; simpl; [tauto|].
  intros [<-|Hin].
  - exists a. auto.
  - destruct (IH Hin) as (a' & Ha' & Hf). exists a'. auto.
Qed.

(** A feature on the map carries the id and the flag of a fetched
    assignment. *)
Lemma shown_about (other_get : value -> jsstring -> value) (p : Props)
      (mf : MapFeature) :
  shown other_get p mf ->
  about p (property mf "completed") (property mf "assignmentId").
Proof.
  intros (done & todo & Hd & Ht & Hin). right.
  apply in_app_or in Hin as [Hin|Hin].
  - destruct (mapM_In _ _ _ Hd Hin) as (x & Hx & Hm).
    apply filter_In in Hx as [Hx Hc].
    apply map_feature_id in Hm as (_ & Hcomp & Hid).
    exists x. unfold is_completed. rewrite Hc. auto.
  - destruct (mapM_In _ _ _ Ht Hin) as (x & Hx & Hm).
    apply filter_In in Hx as [Hx Hc]. apply negb_true_iff in Hc.
    apply map_feature_id in Hm as (_ & Hcomp & Hid).
    exists x. unfold is_completed. rewrite Hc. auto.
Qed.

Lemma popup_about_run (other_get : value -> jsstring -> value) (p : Props)
      (evs : list Popup.Event) :
  forall w,
    popup_clicks_shown other_get p evs ->
    about p (Popup.completed (Popup.ui w)) (Popup.assignment (Popup.ui w)) ->
    about p (Popup.completed (Popup.ui (Popup.run p evs w)))
          (Popup.assignment (Popup.ui (Popup.run p evs w))).
Proof.
  induction evs as [|ev evs IH]; intros w Hshown Hw; [assumption|].
  apply IH.
  - intros e mf He. apply Hshown. now right.
  - destruct ev; simpl; try assumption.
    + unfold Popup.onFeatureClick.
      destruct (hit e) as [|f fs] eqn:Hhit; simpl; [assumption|].
      apply (@shown_about other_get). apply (Hshown e); [now left|].
      rewrite Hhit. now left.
    + destruct (Popup.addPoint (Popup.ui w)); assumption.
Qed.

Lemma crosshair_about_run (other_get : value -> jsstring -> value) (p : Props)
      (evs : list Crosshair.Event) :
  forall w,
    crosshair_clicks_shown other_get p evs ->
    about p (Crosshair.completed (Crosshair.ui w))
          (Crosshair.assignment (Crosshair.ui w)) ->
    about p (Crosshair.completed (Crosshair.ui (Crosshair.run p evs w)))
          (Crosshair.assignment (Crosshair.ui (Crosshair.run p evs w))).
Proof.
  induction evs as [|ev evs IH]; intros w Hshown Hw; [assumption|].
  apply IH.
  - intros e mf He. apply Hshown. now right.
  - destruct ev; simpl; try assumption.
    + unfold Crosshair.onFeatureClick.
      destruct (hit e) as [|f fs] eqn:Hhit; simpl; [assumption|].
      apply (@shown_about other_get). apply (Hshown e); [now left|].
      rewrite Hhit. now left.
    + destruct (Crosshair.addPoint (Crosshair.ui w)); assumption.
    + destruct (Crosshair.showPopup (Crosshair.ui w)); [|assumption].
      destruct (negb _ && _); assumption.
Qed.

(** The button is there only for an assignment that is not completed. *)
Lemma offered_open (p : Props) (completed assignment : value) :
  about p completed assignment ->
  negb (truthy_value completed) && truthy_value assignment = true ->
  open_assignment p assignment.
Proof.
  intros [->|(x & Hx & -> & ->)] H.
  - now rewrite andb_false_r in H.
  - exists x. repeat split; [assumption|].
    apply andb_prop in H as [H _]. now apply negb_true_iff in H.
Qed.

(** C9: once an Assignment is completed it stays completed, whatever is
    written afterwards, so its flag goes from false to true at most once
    (the writes are the two revisions of layer-create and, from the
    specification, a field-added point and a completion); and both
    revisions of the map offer Complete Survey only for a fetched
    assignment whose flag is false. *)
Theorem completed_is_final (other_get : value -> jsstring -> value) :
  (forall ops db i a,
      nth_error (assignments db) i = Some a ->
      assignment_completed a = true ->
      exists a',
        nth_error (assignments (Assignments.apply_all other_get ops db)) i = Some a' /\
        assignment_id a' = assignment_id a /\
        assignment_completed a' = true) /\
  (forall p evs c,
      popup_clicks_shown other_get p evs ->
      let st := Popup.ui (Popup.run p evs Popup.start) in
      Popup.featurePopup (Popup.render st) = Some (c, true) ->
      open_assignment p (Popup.assignment st)) /\
  (forall p saved evs c,
      crosshair_clicks_shown other_get p evs ->
      let st := Crosshair.ui (Crosshair.run p evs (Crosshair.start saved)) in
      Crosshair.featurePopup (Crosshair.render st) = Some (c, true) ->
      open_assignment p (Crosshair.assignment st)).
Proof.
  split; [exact (completed_stays other_get)|]. split.
  - intros p evs c Hshown st H.
    pose proof (@popup_about_run other_get p evs Popup.start Hshown
                  (or_introl eq_refl)) as Hab.
    fold st in Hab. apply (offered_open Hab).
    revert H. simpl. destruct (Popup.showPopup st); [|discriminate].
    now intros [= _ ->].
  - intros p saved evs c Hshown st H.
    pose proof (@crosshair_about_run other_get p evs (Crosshair.start saved)
                  Hshown (or_introl eq_refl)) as Hab.
    fold st in Hab. apply (offered_open Hab).
    revert H. simpl. destruct (Crosshair.showPopup st); [|discriminate].
    now intros [= _ ->].
Qed.

Lemma completed_is_final_witness :
  (exists a',
      nth_error (assignments
                   (Assignments.apply_all node_get
                      [Assignments.Complete 12;
                       Assignments.AddPoint 1 {| lng := 1; lat := 2 |} 7;
                       Assignments.Complete 11]
                      db_survey)) 0 = Some a' /\
      assignment_id a' = 11%Z /\ assignment_completed a' = true) /\
  open_assignment props_survey (Num 12).
Proof.
  destruct (completed_is_final node_get) as (T1 & T2 & _). split.
  - apply (T1 _ db_survey 0%nat
              {| assignment_id := 11; assignment_featureId := 1;
                 assignment_assigneeId := 7; assignment_surveyId := Some 3%Z;
                 assignment_completed := true |}); reflexivity.
  - apply (T2 props_survey [Popup.Click click_todo] {| lng := 1; lat := 2 |}).
    + intros e mf [[= <-]|[]] [<-|[]].
      do 2 eexists. repeat split; [vm_compute; reflexivity..|].
      vm_compute. right. now left.
    + reflexivity.
Defined.

(** * Further properties *)

(** ** The scrub touches strings only *)

(** Induction on a value through its elements and members. *)
Lemma value_nested_ind (P : value -> Prop) :
  P Undefined -> P Null -> (forall b, P (Bool b)) -> (forall n, P (Num n)) ->
  (forall s, P (Str s)) ->
  (forall items, Forall P items -> P (Arr items)) ->
  (forall ms, Forall (fun kv => P (snd kv)) ms -> P (Obj ms)) ->
  (forall t, P (Builtin t)) ->
  forall v, P v.
Proof.
  intros HU HN HB Hn HS HA HO Hb.
  fix IH 1. intros [| |b|n|s|items|ms|t].
  - exact HU.
  - exact HN.
  - apply HB.
  - apply Hn.
  - apply HS.
  - apply HA. induction items as [|x items IHl]; constructor;
      [apply IH|exact IHl].
  - apply HO. induction ms as [|[k x] ms IHl]; constructor;
      [apply IH|exact IHl].
  - apply Hb.
Qed.

Lemma elements_length (n : nat) (items : list value) :
  length (JSON.elements reviver n items) = length items.
Proof.
  revert n. induction items as [|x items IH]; intros n; simpl; [reflexivity|].
  now rewrite IH.
Qed.

Lemma members_keys (ms : list (jsstring * value)) :
  is_json (Obj ms) = true ->
  map fst (JSON.members reviver ms) = map fst ms.
Proof.
  induction ms as [|[k x] ms IH]; simpl; [reflexivity|].
  intros H. apply andb_prop in H as [Hx Hms].
  unfold JSON.keep_defined.
  destruct (JSON.internalize reviver k x) eqn:E; simpl; try (now rewrite IH).
  exfalso. revert E. apply internalize_defined. now apply is_json_defined.
Qed.

Lemma lookup_members_none (ms : list (jsstring * value)) (k : jsstring) :
  lookup k ms = None -> lookup k (JSON.members reviver ms) = None.
Proof.
  induction ms as [|[k' y] ms IH]; simpl; [reflexivity|].
  destruct (jsstring_eqb k k') eqn:Ek; [discriminate|]. intros H.
  unfold JSON.keep_defined.
  destruct (JSON.internalize reviver k' y); simpl; rewrite ?Ek; auto.
Qed.

Lemma nth_error_elements_none (items : list value) (n i : nat) :
  nth_error items i = None -> nth_error (JSON.elements reviver n items) i = None.
Proof.
  intros H. apply nth_error_None. rewrite elements_length.
  now apply nth_error_None.
Qed.

(** The walk reaches every place of the value and no other. *)
Lemma internalize_places (p : list selector) :
  forall (v : value) (key : jsstring),
    is_json v = true ->
    match value_at p v with
    | Some x =>
        exists key',
          value_at p (JSON.internalize reviver key v)
          = Some (JSON.internalize reviver key' x)
    | None => value_at p (JSON.internalize reviver key v) = None
    end.
Proof.
  induction p as [|[i|k] p IH]; intros v key Hj.
  - simpl. now exists key.
  - destruct v; try (simpl; destruct (reviver key _); reflexivity);
      try reflexivity.
    + simpl. now destruct (_ && _).
    + cbn [value_at]. rewrite internalize_Arr. cbn [value_at].
      destruct (nth_error items i) as [x|] eqn:Hx.
      * rewrite (nth_error_elements _ 0 _ Hx).
        apply IH. now apply (is_json_nth _ _ Hj Hx).
      * now rewrite (nth_error_elements_none _ 0 _ Hx).
  - destruct v; try reflexivity.
    + simpl. now destruct (_ && _).
    + cbn [value_at]. rewrite internalize_Obj. cbn [value_at].
      destruct (lookup k members) as [x|] eqn:Hx.
      * rewrite (lookup_members _ _ Hj Hx).
        apply IH. now apply (is_json_lookup _ _ Hj Hx).
      * now rewrite (lookup_members_none _ _ Hx).
Qed.

Lemma internalize_node (key : jsstring) (x : value) :
  is_json x = true -> same_node x (JSON.internalize reviver key x).
Proof.
  destruct x; try discriminate; intros Hj; try reflexivity.
  - rewrite internalize_Arr. eexists. split; [reflexivity|].
    apply elements_length.
  - rewrite internalize_Obj. eexists. split; [reflexivity|].
    now apply members_keys.
Qed.

Lemma is_json_at (p : list selector) :
  forall v x, is_json v = true -> value_at p v = Some x -> is_json x = true.
Proof.
  induction p as [|[i|k] p IH]; intros v x Hj; simpl.
  - now intros [= <-].
  - destruct v; try discriminate.
    destruct (nth_error items i) as [y|] eqn:Hy; [|discriminate].
    apply IH. now apply (is_json_nth _ _ Hj Hy).
  - destruct v; try discriminate.
    destruct (lookup k members) as [y|] eqn:Hy; [|discriminate].
    apply IH. now apply (is_json_lookup _ _ Hj Hy).
Qed.

(** X1: parsing with the reviver gives the value parsing without it
    gives, place for place: a string is replaced by its scrub, an array
    keeps its length, an object keeps its keys in their order (a key is
    never scrubbed), a number, a boolean and null stay, and no place
    appears or disappears. *)
Theorem scrub_keeps_shape (text : jsstring) (parsed : value) :
  JSON.parse_text text = Ok parsed ->
  exists revived,
    JSON.parse reviver text = Ok revived /\
    forall p : list selector,
      match value_at p parsed with
      | Some x => exists x', value_at p revived = Some x' /\ same_node x x'
      | None => value_at p revived = None
      end.
Proof.
  intros Hparse. exists (JSON.internalize reviver [] parsed). split.
  - unfold JSON.parse. now rewrite Hparse.
  - intros p. pose proof (parse_text_json _ Hparse) as Hj.
    pose proof (@internalize_places p parsed [] Hj) as H.
    destruct (value_at p parsed) as [x|] eqn:Hx; [|exact H].
    destruct H as (key' & H). eexists. split; [exact H|].
    apply internalize_node. now apply (@is_json_at p parsed).
Qed.
Lemma scrub_keeps_shape_witness :
  exists revived m',
    JSON.parse reviver filler_text = Ok revived /\
    value_at [Index 0; Key (str "geojson"); Key (str "properties")] revived
    = Some (Obj m') /\
    map fst m' = [str "name"; str "kind"].
Proof.
  destruct (JSON.parse_text filler_text) as [parsed|] eqn:E;
    [|vm_compute in E; discriminate E].
  destruct (scrub_keeps_shape filler_text E) as (revived & Hr & H).
  specialize (H [Index 0; Key (str "geojson"); Key (str "properties")]).
  vm_compute in E. injection E as <-.
  cbv [value_at nth_error lookup] in H.
  repeat (rewrite jsstring_eqb_refl in H
          || (vm_compute (jsstring_eqb _ _) in H)).
  destruct H as (x' & Hx & m' & -> & Hm).
  exists revived, m'. repeat split; assumption.
Defined.

(** ** Scrubbing twice *)

Lemma reviver_twice (k k' : jsstring) (v : value) :
  reviver k (reviver k' v) = reviver k' v.
Proof.
  destruct v; try reflexivity. unfold reviver.
  destruct ((length s =? 254)%nat && _) eqn:E; [reflexivity|].
  now rewrite E.
Qed.

Lemma internalize_key (v : value) :
  forall k k', JSON.internalize reviver k v = JSON.internalize reviver k' v.
Proof.
  induction v as [| | | | |items IH|ms IH|] using value_nested_ind;
    intros k k'; try reflexivity.
Qed.

Lemma elements_index (items : list value) (n m : nat) :
  JSON.elements reviver n items = JSON.elements reviver m items.
Proof.
  revert n m. induction items as [|x items IH]; intros n m; simpl; [reflexivity|].
  now rewrite (internalize_key x (index_key n) (index_key m)), (IH (S n) (S m)).
Qed.

Lemma internalize_json (v : value) :
  is_json v = true -> forall k, is_json (JSON.internalize reviver k v) = true.
Proof.
  induction v as [| | | | s |items IH|ms IH|] using value_nested_ind;
    try discriminate; intros Hj k; try reflexivity.
  - simpl. now destruct (_ && _).
  - rewrite internalize_Arr. simpl in *. generalize 0%nat.
    induction IH as [|x items Hx _ IHl]; intros n; simpl; [reflexivity|].
    apply andb_prop in Hj as [Hjx Hjl]. now rewrite Hx, IHl.
  - rewrite internalize_Obj. simpl in *.
    induction IH as [|[k' x] ms Hx _ IHl]; simpl; [reflexivity|].
    apply andb_prop in Hj as [Hjx Hjl]. simpl in Hx.
    unfold JSON.keep_defined.
    pose proof (Hx Hjx k') as Hy.
    destruct (JSON.internalize reviver k' x); try discriminate;
      simpl in Hy |- *; rewrite ?Hy; simpl; now apply IHl.
Qed.

Lemma elements_twice (items : list value) :
  Forall (fun x => is_json x = true ->
                   forall k k',
                     JSON.internalize reviver k (JSON.internalize reviver k' x)
                     = JSON.internalize reviver k' x) items ->
  forallb is_json items = true ->
  forall n m,
    JSON.elements reviver n (JSON.elements reviver m items)
    = JSON.elements reviver m items.
Proof.
  induction 1 as [|x items Hx _ IHl]; intros Hj n m; simpl; [reflexivity|].
  simpl in Hj. apply andb_prop in Hj as [Hjx Hjl].
  now rewrite (Hx Hjx), (IHl Hjl).
Qed.

Lemma members_twice (ms : list (jsstring * value)) :
  Forall (fun kv => is_json (snd kv) = true ->
                    forall k k',
                      JSON.internalize reviver k (JSON.internalize reviver k' (snd kv))
                      = JSON.internalize reviver k' (snd kv)) ms ->
  is_json (Obj ms) = true ->
  JSON.members reviver (JSON.members reviver ms) = JSON.members reviver ms.
Proof.
  induction 1 as [|[k1 x] ms Hx _ IHl]; intros Hj; simpl; [reflexivity|].
  simpl in Hj, Hx. apply andb_prop in Hj as [Hjx Hjl].
  pose proof (Hx Hjx k1 k1) as Hxx.
  pose proof (@internalize_defined k1 x (@is_json_defined x Hjx)) as Hd.
  destruct (JSON.internalize reviver k1 x) eqn:E; try congruence;
    unfold JSON.keep_defined; cbn [JSON.members]; rewrite Hxx;
    unfold JSON.keep_defined; now rewrite (IHl Hjl).
Qed.

Lemma internalize_twice (v : value) :
  is_json v = true ->
  forall k k',
    JSON.internalize reviver k (JSON.internalize reviver k' v)
    = JSON.internalize reviver k' v.
Proof.
  induction v as [| | | | s |items IH|ms IH|] using value_nested_ind;
    try discriminate; intros Hj k k'; try reflexivity.
  - change (JSON.internalize reviver k' (Str s)) with (reviver k' (Str s)).
    assert (H : exists t, reviver k' (Str s) = Str t)
      by (simpl; destruct (_ && _); eauto).
    destruct H as (t & Ht).
    rewrite <- (reviver_twice k k' (Str s)) at 2. now rewrite Ht.
  - rewrite !internalize_Arr. f_equal. now apply elements_twice.
  - rewrite !internalize_Obj. f_equal. now apply members_twice.
Qed.

(** X2: the scrub is idempotent: walking a value that came out of the
    parse with the reviver once more changes nothing. *)
Theorem scrub_is_idempotent (text : jsstring) (revived : value) :
  JSON.parse reviver text = Ok revived ->
  JSON.internalize reviver [] revived = revived.
Proof.
  unfold JSON.parse.
  destruct (JSON.parse_text text) as [parsed|] eqn:E; [|discriminate].
  cbn [bind]. intros [= <-].
  apply internalize_twice. now apply (parse_text_json text).
Qed.

Lemma scrub_is_idempotent_witness :
  exists revived,
    JSON.parse reviver filler_text = Ok revived /\
    JSON.internalize reviver [] revived = revived.
Proof.
  destruct (JSON.parse reviver filler_text) as [revived|] eqn:E;
    [|vm_compute in E; discriminate E].
  exists revived. split; [reflexivity|].
  exact (scrub_is_idempotent filler_text E).
Defined.

(** ** What a run of layer-create stores *)

Lemma prepare_fields (other_get : value -> jsstring -> value) (r : revision)
      (req : Request) (input : LayerCreateInput) :
  prepare other_get r req = Ok input ->
  name input = String_ (form_name req) /\
  defaultSurvey input = defaultSurvey_of (form_surveyId req) /\
  match r with
  | ByDispatcher =>
      labelField input = Some (String_ (form_field req)) /\
      dispatcher input = Some (session_userId req) /\ admins input = None
  | ByAdmins =>
      labelField input = None /\
      dispatcher input = None /\ admins input = Some (session_userId req)
  end.
Proof.
  unfold prepare. destruct (JSON.parse reviver _) as [pf|]; [|discriminate].
  cbn [bind]. destruct r.
  - intros [= <-]. unfold Dispatcher.layer.
    destruct (is_empty_string (form_features req)); repeat split.
  - unfold Admins.layer. destruct (is_empty_string (form_features req)).
    + intros [= <-]. repeat split.
    + destruct (Admins.map_features _ _ _); [|discriminate].
      intros [= <-]. repeat split.
Qed.

Lemma validate_connects (input : LayerCreateInput) d a s rows :
  validate input = Some (d, a, s, rows) ->
  connect_id (dispatcher input) = Some d /\
  connect_id (admins input) = Some a /\
  connect_id (defaultSurvey input) = Some s.
Proof.
  unfold validate.
  destruct (connect_id (dispatcher input)), (connect_id (admins input)),
    (connect_id (defaultSurvey input)); try discriminate.
  destruct (features_createMany input) as [data|].
  - destruct (createMany_data data); [|discriminate].
    now intros [= <- <- <- <-].
  - now intros [= <- <- <- <-].
Qed.

Lemma layer_create_row (input : LayerCreateInput) (db db' : DB) (row : LayerRow) :
  layer_create input db = (Ok row, db') ->
  exists d a s rows,
    validate input = Some (d, a, s, rows) /\
    layers db' = layers db ++ [row] /\
    layer_name row = name input /\
    layer_labelField row = labelField input /\
    layer_dispatcherId row = d /\
    layer_adminIds row = match a with Some x => [x] | None => [] end /\
    layer_defaultSurveyId row = s.
Proof.
  unfold layer_create.
  destruct (validate input) as [[[[d a] s] rows]|]; [|discriminate].
  destruct (existsb _ (layers db)); [discriminate|].
  destruct (negb _); [discriminate|].
  intros [= <- <-]. exists d, a, s, rows. repeat split.
Qed.

(** X3: a run that succeeds has stored one layer named [String(name)],
    owned by the user of the session ([dispatcher] in one revision, the one
    [admins] entry in the other), with the default survey [parseInt] reads
    from a non-empty [surveyId] and none for an empty or missing one; the
    first revision keeps the label field on the layer, redirects to the page
    of that very layer and puts its name in the session, the second
    redirects to the list of layers. *)
Theorem stored_layer_record (other_get : value -> jsstring -> value)
        (r : revision) (req : Request) (db db' : DB) (resp : Response) :
  action other_get r req db = (Ok resp, db') ->
  exists layer uid,
    layers db' = layers db ++ [layer] /\
    session_userId req = Some uid /\
    layer_name layer = String_ (form_name req) /\
    layer_defaultSurveyId layer
    = (if truthy (form_surveyId req)
       then parseInt (String_ (form_surveyId req)) else None) /\
    match r with
    | ByDispatcher =>
        layer_dispatcherId layer = Some uid /\ layer_adminIds layer = [] /\
        layer_labelField layer = Some (String_ (form_field req)) /\
        location resp = str "/admin/layers/" ++ layer_name layer /\
        session_task resp = form_name req
    | ByAdmins =>
        layer_dispatcherId layer = None /\ layer_adminIds layer = [uid] /\
        layer_labelField layer = None /\
        location resp = str "/admin/layers" /\
        session_task resp = None
    end.
Proof.
  rewrite action_cases.
  destruct (prepare other_get r req) as [input|] eqn:Hprep; [|discriminate].
  destruct (layer_create input db) as [[row|] db''] eqn:E; [|discriminate].
  destruct (Remix.redirect _) as [u|]; [|discriminate].
  intros [= <- <-].
  apply layer_create_row in E
    as (d & a & s & rows & Hv & Hl & Hn & Hlf & Hd & Ha & Hs).
  apply validate_connects in Hv as (Hcd & Hca & Hcs).
  apply prepare_fields in Hprep as (Hname & Hsurvey & Hr).
  rewrite Hsurvey in Hcs. unfold defaultSurvey_of in Hcs.
  assert (Hs' : s = if truthy (form_surveyId req)
                    then parseInt (String_ (form_surveyId req)) else None).
  { destruct (truthy (form_surveyId req)); simpl in Hcs.
    - destruct (parseInt _); [now injection Hcs as <-|discriminate].
    - now injection Hcs as <-. }
  destruct r.
  - destruct Hr as (Hlabel & Hdis & Hadm). rewrite Hdis in Hcd. rewrite Hadm in Hca.
    simpl in Hcd, Hca. destruct (session_userId req) as [uid|]; [|discriminate].
    injection Hcd as <-. injection Hca as <-.
    exists row, uid. simpl. rewrite Hn, Hname. repeat split; congruence.
  - destruct Hr as (Hlabel & Hdis & Hadm). rewrite Hdis in Hcd. rewrite Hadm in Hca.
    simpl in Hcd, Hca. destruct (session_userId req) as [uid|]; [|discriminate].
    injection Hcd as <-. injection Hca as <-.
    exists row, uid. simpl. repeat split; congruence.
Qed.

Lemma stored_layer_record_witness :
  exists resp db' layer,
    action node_get ByDispatcher (request two_features (str "Hydrants")) db_one
    = (Ok resp, db') /\
    layers db' = layers db_one ++ [layer] /\
    layer_name layer = str "Hydrants" /\
    layer_dispatcherId layer = Some 7%Z /\
    layer_defaultSurveyId layer = Some 3%Z /\
    location resp = str "/admin/layers/Hydrants".
Proof.
  destruct (action node_get ByDispatcher (request two_features (str "Hydrants")) db_one)
    as [[resp|e] db'] eqn:E; [|vm_compute in E; discriminate E].
  destruct (stored_layer_record _ _ _ _ E)
    as (layer & uid & Hl & Hu & Hn & Hs & Hd & _ & _ & Hloc & _).
  injection Hu as <-.
  exists resp, db', layer. repeat split; try assumption.
  now rewrite Hloc, Hn.
Defined.

(** X4: a request whose session has no user, or whose [surveyId] is not
    empty and reads as no finite number, stores nothing: the run throws, and
    when the parse and the labels went through it is the ORM that refuses
    the arguments. *)
Theorem bad_connect_stores_nothing (other_get : value -> jsstring -> value)
        (r : revision) (req : Request) (db : DB) :
  session_userId req = None \/
  (truthy (form_surveyId req) = true /\
   parseInt (String_ (form_surveyId req)) = None) ->
  exists e,
    action other_get r req db = (Throw e, db) /\
    (forall input, prepare other_get r req = Ok input ->
                   e = PrismaValidationError).
Proof.
  intros Hbad. rewrite action_cases.
  destruct (prepare other_get r req) as [input|e] eqn:Hprep.
  - exists PrismaValidationError. split; [|reflexivity].
    assert (Hv : validate input = None).
    { apply prepare_fields in Hprep as (_ & Hsurvey & Hr). unfold validate.
      destruct Hbad as [Hu|[Ht Hp]].
      - destruct r; destruct Hr as (_ & Hdis & Hadm);
          rewrite Hdis, Hadm, Hu; simpl; [reflexivity|].
        reflexivity.
      - rewrite Hsurvey. unfold defaultSurvey_of. rewrite Ht, Hp. simpl.
        now destruct (connect_id (dispatcher input)), (connect_id (admins input)). }
    unfold layer_create. now rewrite Hv.
  - exists e. split; [reflexivity|discriminate].
Qed.

Lemma bad_connect_stores_nothing_witness :
  action node_get ByAdmins
         {| form_features := Some two_features; form_name := Some (str "Hydrants");
            form_field := Some (str "name"); form_surveyId := Some (str "none");
            session_userId := Some 7%Z |} db_one
  = (Throw PrismaValidationError, db_one).
Proof.
  destruct (@bad_connect_stores_nothing node_get ByAdmins
              {| form_features := Some two_features; form_name := Some (str "Hydrants");
                 form_field := Some (str "name"); form_surveyId := Some (str "none");
                 session_userId := Some 7%Z |} db_one)
    as (e & He & Hv).
  - right. split; reflexivity.
  - rewrite He. f_equal. f_equal. eapply Hv. vm_compute. reflexivity.
Defined.
(** ** Labels, end to end *)

Lemma own_label_internalize (f : jsstring) (item l : value) (k : jsstring) :
  is_json item = true ->
  own_label f item = Some l ->
  own_label f (JSON.internalize reviver k item)
  = Some (JSON.internalize reviver f l).
Proof.
  intros Hj. unfold own_label.
  destruct item as [| | | | | |ms|]; try discriminate.
  destruct (lookup (str "geojson") ms) as [[| | | | | |gm|]|] eqn:Hg;
    try discriminate.
  destruct (lookup (str "properties") gm) as [[| | | | | |props|]|] eqn:Hp;
    try discriminate.
  intros Hl.
  pose proof (is_json_lookup _ _ Hj Hg) as Hjg.
  pose proof (is_json_lookup _ _ Hjg Hp) as Hjp.
  rewrite internalize_Obj, (lookup_members _ _ Hj Hg).
  rewrite internalize_Obj, (lookup_members _ _ Hjg Hp).
  rewrite internalize_Obj. now apply lookup_members.
Qed.

Lemma elements_Forall2 (items : list value) (n : nat) :
  Forall2 (fun x y => exists k, y = JSON.internalize reviver k x)
          items (JSON.elements reviver n items).
Proof.
  revert n. induction items as [|x items IH]; intros n; simpl; constructor; eauto.
Qed.

Lemma parse_not_empty (req : Request) (v : value) :
  JSON.parse_text (String_ (form_features req)) = Ok v ->
  form_features req <> Some [].
Proof. intros H E. rewrite E in H. discriminate H. Qed.

(** X5: in the revision that derives labels, the label stored for a
    feature is the scrub of what the submitted text had under the label
    field: the empty string when that was 254 code units of one character,
    the string itself otherwise. *)
Theorem stored_label_is_scrubbed (other_get : value -> jsstring -> value)
        (req : Request) (db db' : DB) (resp : Response) (raw : list value) :
  JSON.parse_text (String_ (form_features req)) = Ok (Arr raw) ->
  Admins.action other_get req db = (Ok resp, db') ->
  exists layer rows,
    created db db' layer rows /\
    Forall2 (fun item row =>
               forall s,
                 own_label (String_ (form_field req)) item = Some (Str s) ->
                 (length s = 254%nat /\ one_character_repeated s ->
                  feature_label row = Some []) /\
                 (~ (length s = 254%nat /\ one_character_repeated s) ->
                  feature_label row = Some s))
            raw rows.
Proof.
  intros Hraw E.
  pose proof (parse_not_empty req Hraw) as Hne.
  pose proof (parse_text_json _ Hraw) as Hj.
  assert (Hp : JSON.parse reviver (String_ (form_features req))
               = Ok (Arr (JSON.elements reviver 0 raw))).
  { unfold JSON.parse. now rewrite Hraw. }
  destruct (admins_labels other_get _ _ Hne Hp E) as (layer & rows & Hc & Hall).
  exists layer, rows. split; [assumption|].
  pose proof (Forall2_compose (elements_Forall2 raw 0) Hall) as H.
  assert (Hjs : Forall (fun x => is_json x = true) raw).
  { apply Forall_forall. intros x Hx. simpl in Hj.
    rewrite forallb_forall in Hj. now apply Hj. }
  clear Hall Hp Hc E Hraw Hj.
  induction H as [|item row raw rows (y & (k & ->) & Hlab) _ IH];
    constructor; inversion Hjs; subst; auto.
  intros s Hown.
  specialize (Hlab _ (own_label_internalize _ _ k H1 Hown)).
  change (JSON.internalize reviver (String_ (form_field req)) (Str s))
    with (reviver (String_ (form_field req)) (Str s)) in Hlab.
  destruct (reviver_string (String_ (form_field req)) s) as (R1 & R2 & R3).
  split.
  - intros Hfill. rewrite (R1 Hfill) in Hlab.
    destruct (feature_label row); simpl in Hlab;
      [now injection Hlab as <-|destruct Hlab; discriminate].
  - intros Hno.
    assert (Hs : reviver (String_ (form_field req)) (Str s) = Str s).
    { destruct (Nat.eq_dec (length s) 254) as [Hlen|Hlen]; [|now apply R3].
      apply R2. split; [assumption|]. intros Hone. apply Hno. now split. }
    rewrite Hs in Hlab.
    destruct (feature_label row); simpl in Hlab;
      [now injection Hlab as <-|destruct Hlab; discriminate].
Qed.

Lemma stored_label_is_scrubbed_witness :
  exists resp db' f,
    Admins.action node_get (request filler_text (str "Hydrants")) db_one
    = (Ok resp, db') /\
    features db' = [f] /\ feature_label f = Some [].
Proof.
  destruct (Admins.action node_get (request filler_text (str "Hydrants")) db_one)
    as [[resp|e] db'] eqn:E; [|vm_compute in E; discriminate E].
  destruct (JSON.parse_text (String_ (form_features
              (request filler_text (str "Hydrants")))))
    as [[| | | | |raw| |]|] eqn:Hp; try (vm_compute in Hp; discriminate Hp).
  destruct (stored_label_is_scrubbed node_get _ _ Hp E)
    as (layer & rows & (_ & Hf & _) & Hall).
  vm_compute in Hp. injection Hp as <-.
  inversion Hall as [|item f its fs Hlab Hrest]; subst.
  inversion Hrest; subst.
  exists resp, db', f. split; [reflexivity|]. split; [exact Hf|].
  apply (Hlab (repeat 120%N 254) eq_refl). split; [reflexivity|].
  exists [120%N], 254%nat. split; [|reflexivity]. left. now exists 120%N.
Defined.

(** ** Records the label derivation cannot read *)

Lemma mapM_throws {A B} (f : A -> outcome B) (l : list A) (a : A) (e : error) :
  In a l -> f a = Throw e ->
  (forall a' e', f a' = Throw e' -> e' = e) ->
  mapM f l = Throw e.
Proof.
  intros Hin Ha Hall. induction l as [|x l IH]; [contradiction|]. simpl.
  destruct (f x) as [b|e'] eqn:Ex; cbn [bind].
  - destruct Hin as [->|Hin]; [congruence|]. now rewrite (IH Hin).
  - now rewrite (Hall _ _ Ex).
Qed.

Lemma with_label_null_properties (other_get : value -> jsstring -> value)
      (fld : option jsstring) (item : value) :
  null_properties item -> Admins.with_label other_get fld item = Throw TypeError.
Proof.
  intros (ms & gm & -> & Hg & Hp). unfold Admins.with_label, Get.
  rewrite Hg. cbn [bind]. rewrite Hp. reflexivity.
Qed.

(** X6: in the revision that derives labels, one submitted feature with
    [properties: null] makes the whole import fail with a type error:
    nothing is stored, the other features included. *)
Theorem null_properties_abort (other_get : value -> jsstring -> value)
        (req : Request) (db : DB) (items : list value) (item : value) :
  JSON.parse reviver (String_ (form_features req)) = Ok (Arr items) ->
  In item items -> null_properties item ->
  Admins.action other_get req db = (Throw TypeError, db).
Proof.
  intros Hp Hin Hnull.
  assert (Hne : is_empty_string (form_features req) = false).
  { destruct (form_features req) as [[|]|] eqn:E; try reflexivity.
    vm_compute in Hp. discriminate Hp. }
  change (Admins.action other_get) with (action other_get ByAdmins).
  rewrite action_cases. unfold prepare. rewrite Hp. cbn [bind].
  unfold Admins.layer. rewrite Hne. unfold Admins.map_features.
  rewrite (@mapM_throws _ _ (Admins.with_label other_get (form_field req))
             items item TypeError Hin
             (with_label_null_properties other_get (form_field req) Hnull)
             (@with_label_throw other_get (form_field req))).
  reflexivity.
Qed.

Lemma null_properties_abort_witness :
  Admins.action node_get (request null_properties_text (str "Hydrants")) db_one
  = (Throw TypeError, db_one).
Proof.
  eapply (@null_properties_abort node_get
            (request null_properties_text (str "Hydrants")) db_one).
  - vm_compute. reflexivity.
  - right. left. reflexivity.
  - do 2 eexists. repeat split.
Defined.

Lemma with_label_missing (other_get : value -> jsstring -> value)
      (fld : option jsstring) (item d : value) props :
  properties_of item = Some props ->
  lookup (String_ fld) props = None ->
  Admins.with_label other_get fld item = Ok d ->
  exists ms, d = Obj (obj_set (str "label")
                              (other_get (Obj props) (String_ fld)) ms).
Proof.
  unfold properties_of, Admins.with_label, Get.
  destruct item as [| | | | | |ms|]; try discriminate.
  destruct (lookup (str "geojson") ms) as [[| | | | | |gm|]|]; try discriminate.
  cbn [bind].
  destruct (lookup (str "properties") gm) as [[| | | | | |ps|]|];
    try discriminate.
  cbn [bind]. intros [= ->] ->. cbn [bind spread]. intros [= <-]. now exists ms.
Qed.

(** X7: in the revision that derives labels, a feature whose properties
    lack the label field is stored without a label when the runtime reads
    the missing key as [undefined]; the import goes on. *)
Theorem missing_label_key (other_get : value -> jsstring -> value)
        (req : Request) (db db' : DB) (resp : Response) (items : list value) :
  JSON.parse reviver (String_ (form_features req)) = Ok (Arr items) ->
  Admins.action other_get req db = (Ok resp, db') ->
  exists layer rows,
    created db db' layer rows /\
    Forall2 (fun item row =>
               forall props,
                 properties_of item = Some props ->
                 lookup (String_ (form_field req)) props = None ->
                 other_get (Obj props) (String_ (form_field req)) = Undefined ->
                 feature_label row = None)
            items rows.
Proof.
  intros Hp E.
  assert (Hne : form_features req <> Some []).
  { intros He. rewrite He in Hp. discriminate Hp. }
  change (Admins.action other_get) with (action other_get ByAdmins) in E.
  destruct (action_ok _ _ _ _ E)
    as (_ & input & d & a & s & irows & layer & Hprep & Hv & _ & Hc).
  destruct (submitted_rows other_get ByAdmins req Hne Hp Hprep Hv)
    as (data & Hd & Hall).
  eexists layer, _. split; [exact Hc|].
  apply feature_inputs_Forall2 in Hd.
  pose proof (Forall2_compose (Forall2_compose Hall Hd)
                (feature_rows_spec (layer_id layer)
                   (next_id (map feature_id (features db))) irows)) as H.
  eapply Forall2_impl; [|exact H]. clear.
  intros item row (ir & (x & Hw & Hi) & (_ & _ & Hl)) props Hprops Hnone Hund.
  destruct (with_label_missing _ _ _ Hprops Hnone Hw) as (ms & ->).
  rewrite Hund in Hi. destruct ir as [g lab]. simpl in Hl. rewrite Hl.
  pose proof (feature_input_label _ Hi (lookup_obj_set _ _ _)) as Hm.
  destruct lab; simpl in Hm; [discriminate|reflexivity].
Qed.

Lemma missing_label_key_witness :
  exists resp db' f,
    Admins.action node_get (request no_name_text (str "Hydrants")) db_one
    = (Ok resp, db') /\
    features db' = [f] /\ feature_label f = None.
Proof.
  destruct (Admins.action node_get (request no_name_text (str "Hydrants")) db_one)
    as [[resp|e] db'] eqn:E; [|vm_compute in E; discriminate E].
  destruct (JSON.parse reviver (String_ (form_features
              (request no_name_text (str "Hydrants")))))
    as [[| | | | |items| |]|] eqn:Hp; try (vm_compute in Hp; discriminate Hp).
  destruct (missing_label_key node_get _ _ Hp E)
    as (layer & rows & (_ & Hf & _) & Hall).
  vm_compute in Hp. injection Hp as <-.
  inversion Hall as [|item f its fs Hlab Hrest]; subst.
  inversion Hrest; subst.
  exists resp, db', f. split; [reflexivity|]. split; [exact Hf|].
  eapply Hlab; reflexivity.
Defined.

(** ** The extension of an uploaded file *)

Lemma split_dot_no_dot (s : jsstring) : no_dot s = true -> NewLayer.split_dot s = [s].
Proof.
  induction s as [|u s IH]; simpl; [reflexivity|].
  intros H. apply andb_prop in H as [Hu Hs].
  apply negb_true_iff in Hu. now rewrite Hu, (IH Hs).
Qed.

Lemma split_dot_suffix (pre ext : jsstring) :
  no_dot ext = true ->
  exists seg segs,
    NewLayer.split_dot (pre ++ 46%N :: ext) = seg :: segs ++ [ext].
Proof.
  intros He. induction pre as [|u pre (seg & segs & IH)].
  - exists [], []. cbn [app NewLayer.split_dot]. rewrite N.eqb_refl.
    now rewrite (split_dot_no_dot _ He).
  - change ((u :: pre) ++ 46%N :: ext) with (u :: (pre ++ 46%N :: ext)).
    cbn [NewLayer.split_dot]. destruct (N.eqb u 46).
    + exists [], (seg :: segs). now rewrite IH.
    + exists (u :: seg), segs. now rewrite IH.
Qed.

Lemma dot_or_not (s : jsstring) :
  no_dot s = true \/
  exists pre ext, s = pre ++ 46%N :: ext /\ no_dot ext = true.
Proof.
  induction s as [|u s [IH|(pre & ext & -> & He)]].
  - now left.
  - simpl. destruct (N.eqb_spec u 46) as [->|Hu].
    + right. now exists [], s.
    + left. now rewrite IH.
  - right. now exists (u :: pre), ext.
Qed.

(** X8: the extension the shapefile upload compares is what follows the
    last dot of the URL, and it is the whole URL when the URL has no dot;
    every URL is one of the two. *)
Theorem extension_after_last_dot :
  (forall pre ext,
      no_dot ext = true -> NewLayer.extension (pre ++ 46%N :: ext) = ext) /\
  (forall s, no_dot s = true -> NewLayer.extension s = s) /\
  (forall s, no_dot s = true \/
             exists pre ext, s = pre ++ 46%N :: ext /\ no_dot ext = true).
Proof.
  split; [|split].
  - intros pre ext He. unfold NewLayer.extension.
    destruct (split_dot_suffix pre ext He) as (seg & segs & E).
    transitivity (last ((seg :: segs) ++ [ext]) []);
      [f_equal; exact E|apply last_last].
  - intros s Hs. unfold NewLayer.extension. now rewrite (split_dot_no_dot _ Hs).
  - exact dot_or_not.
Qed.

Lemma extension_after_last_dot_witness :
  NewLayer.extension (str "/uploads/roads.v2.shp") = str "shp" /\
  NewLayer.extension (str "shp") = str "shp".
Proof.
  destruct extension_after_last_dot as (H1 & H2 & _). split.
  - apply (H1 (str "/uploads/roads.v2") (str "shp")). reflexivity.
  - apply H2. reflexivity.
Defined.

(** ** Which uploaded file is the shapefile *)

Section ShapefileChoice.
Variable File : Type.
Variable upload : File -> jsstring.

Lemma shp_fold_none (files : list File) (acc : jsstring) :
  (forall f, In f files -> is_shp upload f = false) ->
  fold_left (shp_pick upload) files acc = acc.
Proof.
  revert acc. induction files as [|f files IH]; intros acc H; [reflexivity|].
  simpl. unfold shp_pick at 2. unfold is_shp in H.
  rewrite (H f (or_introl eq_refl)). apply IH. intros g Hg. apply H. now right.
Qed.

Lemma shp_fold_last (l1 l2 : list File) (f : File) (acc : jsstring) :
  is_shp upload f = true ->
  (forall g, In g l2 -> is_shp upload g = false) ->
  fold_left (shp_pick upload) (l1 ++ f :: l2) acc = upload f.
Proof.
  intros Hf Hl2. rewrite fold_left_app. simpl. unfold shp_pick at 2.
  unfold is_shp in Hf. rewrite Hf. now apply shp_fold_none.
Qed.

Lemma shp_fold_agree (files : list File) (acc u : jsstring) :
  (forall f, In f files -> is_shp upload f = true -> upload f = u) ->
  (exists f, In f files /\ is_shp upload f = true) ->
  fold_left (shp_pick upload) files acc = u.
Proof.
  revert acc. induction files as [|f files IH]; intros acc Hu (g & Hg & Hs);
    [contradiction|].
  simpl.
  destruct (existsb (is_shp upload) files) eqn:Ex.
  - apply IH.
    + intros h Hh. apply Hu. now right.
    + apply existsb_exists in Ex. exact Ex.
  - assert (Hnone : forall h, In h files -> is_shp upload h = false).
    { intros h Hh. destruct (is_shp upload h) eqn:E; [|reflexivity].
      assert (existsb (is_shp upload) files = true); [|congruence].
      apply existsb_exists. now exists h. }
    rewrite (shp_fold_none _ _ Hnone).
    destruct Hg as [->|Hg]; [|rewrite (Hnone g Hg) in Hs; discriminate].
    unfold shp_pick. unfold is_shp in Hs. rewrite Hs.
    apply Hu; [now left|exact Hs].
Qed.

(** X9: the shapefile URL is the URL of the last uploaded file whose
    extension is exactly [shp], and the empty string when there is none;
    when the files with that extension all got one URL (one [.shp] file,
    say), the order in which the files were picked does not matter. *)
Theorem shapefile_url_choice :
  (forall files,
      (forall f, In f files -> is_shp upload f = false) ->
      NewLayer.shpUrl_of upload files = []) /\
  (forall l1 f l2,
      is_shp upload f = true ->
      (forall g, In g l2 -> is_shp upload g = false) ->
      NewLayer.shpUrl_of upload (l1 ++ f :: l2) = upload f) /\
  (forall files files',
      Permutation files files' ->
      (forall f g, In f files -> In g files ->
                   is_shp upload f = true -> is_shp upload g = true ->
                   upload f = upload g) ->
      NewLayer.shpUrl_of upload files = NewLayer.shpUrl_of upload files').
Proof.
  split; [|split].
  - intros files H. now apply shp_fold_none.
  - intros l1 f l2. apply shp_fold_last.
  - intros files files' Hperm Hsame. unfold NewLayer.shpUrl_of.
    fold (shp_pick upload).
    destruct (existsb (is_shp upload) files) eqn:Ex.
    + apply existsb_exists in Ex as (f & Hf & Hs).
      rewrite (@shp_fold_agree files [] (upload f)); [ | |now exists f].
      * symmetry. apply shp_fold_agree.
        -- intros g Hg Hgs. apply Hsame; try assumption.
           now apply (Permutation_in _ (Permutation_sym Hperm)).
        -- exists f. split; [now apply (Permutation_in _ Hperm)|assumption].
      * intros g Hg Hgs. now apply Hsame.
    + assert (Hnone : forall h, In h files -> is_shp upload h = false).
      { intros h Hh. destruct (is_shp upload h) eqn:E; [|reflexivity].
        assert (existsb (is_shp upload) files = true); [|congruence].
        apply existsb_exists. now exists h. }
      rewrite (shp_fold_none _ _ Hnone). symmetry. apply shp_fold_none.
      intros h Hh. apply Hnone.
      now apply (Permutation_in _ (Permutation_sym Hperm)).
Qed.

End ShapefileChoice.

Lemma shapefile_url_choice_witness :
  NewLayer.shpUrl_of (fun f : jsstring => str "/uploads/" ++ f)
                     [str "roads.dbf"; str "roads.shp"; str "roads.prj"]
  = str "/uploads/roads.shp" /\
  NewLayer.shpUrl_of (fun f : jsstring => str "/uploads/" ++ f)
                     [str "roads.shp"; str "roads.prj"; str "roads.dbf"]
  = str "/uploads/roads.shp".
Proof.
  destruct (shapefile_url_choice (fun f : jsstring => str "/uploads/" ++ f))
    as (_ & Hlast & Hperm).
  assert (H : NewLayer.shpUrl_of (fun f : jsstring => str "/uploads/" ++ f)
                [str "roads.dbf"; str "roads.shp"; str "roads.prj"]
              = str "/uploads/roads.shp").
  { apply (Hlast [str "roads.dbf"] (str "roads.shp") [str "roads.prj"]).
    - reflexivity.
    - intros g [<-|[]]. reflexivity. }
  split; [exact H|]. rewrite <- H. symmetry. apply Hperm.
  - apply Permutation_cons_app with (l1 := [str "roads.shp"; str "roads.prj"]) (l2 := []).
    rewrite app_nil_r. apply Permutation_refl.
  - intros f g [<-|[<-|[<-|[]]]] [<-|[<-|[<-|[]]]]; vm_compute;
      try discriminate; reflexivity.
Defined.
(** ** The options of the label field *)

Lemma insert_key_perm (n : N) (k : jsstring) (l : list (N * jsstring)) :
  Permutation (NewLayer.insert_key n k l) ((n, k) :: l).
Proof.
  induction l as [|[m k'] l IH]; simpl; [apply Permutation_refl|].
  destruct (N.leb n m); [apply Permutation_refl|].
  eapply Permutation_trans; [apply perm_skip, IH|apply perm_swap].
Qed.

Lemma object_keys_perm (keys : list jsstring) :
  Permutation (map snd (NewLayer.index_keys keys) ++ NewLayer.named_keys keys) keys.
Proof.
  induction keys as [|k keys IH]; simpl; [constructor|].
  destruct (NewLayer.index_of k) as [n|]; simpl.
  - eapply Permutation_trans;
      [apply Permutation_app_tail, Permutation_map, insert_key_perm|].
    simpl. now constructor.
  - eapply Permutation_trans; [symmetry; apply Permutation_middle|].
    now constructor.
Qed.

Lemma lookup_In (k : jsstring) (ms : list (jsstring * value)) :
  (exists l, lookup k ms = Some l) <-> In k (map fst ms).
Proof.
  induction ms as [|[k' y] ms IH]; simpl.
  - split; [intros (l & H); discriminate|tauto].
  - destruct (jsstring_eqb k k') eqn:E.
    + apply jsstring_eqb_eq in E. subst. split; eauto.
    + apply jsstring_eqb_neq in E. rewrite IH. split; [tauto|].
      intros [H|H]; [congruence|assumption].
Qed.

Lemma own_label_properties (k : jsstring) (item : value) props :
  properties_of item = Some props -> own_label k item = lookup k props.
Proof.
  unfold properties_of, own_label.
  destruct item as [| | | | | |ms|]; try discriminate.
  destruct (lookup (str "geojson") ms) as [[| | | | | |gm|]|]; try discriminate.
  destruct (lookup (str "properties") gm) as [[| | | | | |ps|]|];
    try discriminate.
  now intros [= ->].
Qed.

Lemma properties_of_read (other_get : value -> jsstring -> value) (item : value)
      props :
  properties_of item = Some props ->
  (g <- Get other_get item (str "geojson") ;;
   p <- Get other_get g (str "properties") ;; NewLayer.Object_keys p)
  = NewLayer.Object_keys (Obj props).
Proof.
  unfold properties_of, Get.
  destruct item as [| | | | | |ms|]; try discriminate.
  destruct (lookup (str "geojson") ms) as [[| | | | | |gm|]|]; try discriminate.
  cbn [bind].
  destruct (lookup (str "properties") gm) as [[| | | | | |ps|]|];
    try discriminate.
  now intros [= ->].
Qed.

(** X10: the label-field select offers nothing while no file is loaded;
    its options are exactly the property keys of the first feature (index
    keys first), so a field picked there exists on that feature; and a
    file without features makes the options throw a type error. *)
Theorem label_field_options (other_get : value -> jsstring -> value) :
  NewLayer.label_options other_get [] = Ok [] /\
  (forall features,
      JSON.parse_text features = Ok (Arr []) ->
      NewLayer.label_options other_get features = Throw TypeError) /\
  (forall features first rest props,
      JSON.parse_text features = Ok (Arr (first :: rest)) ->
      properties_of first = Some props ->
      exists opts,
        NewLayer.label_options other_get features = Ok opts /\
        Permutation opts (map fst props) /\
        forall k, In k opts <-> exists l, own_label k first = Some l).
Proof.
  split; [reflexivity|]. split.
  - intros features Hp. destruct features as [|u r]; [discriminate Hp|].
    unfold NewLayer.label_options. now rewrite Hp.
  - intros features first rest props Hp Hprops.
    destruct features as [|u r]; [discriminate Hp|].
    unfold NewLayer.label_options. rewrite Hp. cbn [bind NewLayer.first_of].
    rewrite (properties_of_read other_get _ Hprops).
    eexists. split; [reflexivity|].
    pose proof (object_keys_perm (map fst props)) as Hperm.
    split; [exact Hperm|]. intros k.
    rewrite (own_label_properties k _ Hprops), lookup_In. split.
    + apply Permutation_in. exact Hperm.
    + apply Permutation_in. symmetry. exact Hperm.
Qed.

Lemma label_field_options_witness :
  exists opts,
    NewLayer.label_options node_get
      (jsq "[{'geojson':{'properties':{'name':'A','7':1,'kind':'x','2':0}}}]")
    = Ok opts /\
    opts = [str "2"; str "7"; str "name"; str "kind"] /\
    In (str "kind") opts.
Proof.
  destruct (JSON.parse_text
              (jsq "[{'geojson':{'properties':{'name':'A','7':1,'kind':'x','2':0}}}]"))
    as [[| | | | |[|first rest]| |]|] eqn:Hp;
    try (vm_compute in Hp; discriminate Hp).
  destruct (properties_of first) as [props|] eqn:Hprops;
    [|vm_compute in Hp; injection Hp as <- _; vm_compute in Hprops;
      discriminate Hprops].
  destruct (proj2 (proj2 (label_field_options node_get)) _ _ _ _ Hp Hprops)
    as (opts & Ho & _ & Hin).
  exists opts. split; [exact Ho|]. split.
  - vm_compute in Ho. now injection Ho as <-.
  - apply Hin. vm_compute in Hp. injection Hp as <- _. eexists. reflexivity.
Defined.

(** ** Basemaps *)

Lemma popup_basemap_step (p : Props) (w : Popup.World) (ev : Popup.Event) :
  (forall b, ev = Popup.SelectBasemap b -> In b MapControls.popup_menu) ->
  In (Popup.basemap (Popup.ui w)) MapControls.popup_menu ->
  In (Popup.basemap (Popup.ui (Popup.step p w ev))) MapControls.popup_menu.
Proof.
  intros Hev Hw. destruct ev; simpl; try assumption.
  - unfold Popup.onFeatureClick. now destruct (hit e).
  - now destruct (Popup.addPoint (Popup.ui w)).
  - now apply Hev.
Qed.

Lemma popup_basemap_run (p : Props) (evs : list Popup.Event) :
  forall w,
    popup_menu_events evs ->
    In (Popup.basemap (Popup.ui w)) MapControls.popup_menu ->
    In (Popup.basemap (Popup.ui (Popup.run p evs w))) MapControls.popup_menu.
Proof.
  induction evs as [|ev evs IH]; intros w Hm Hw; [assumption|].
  apply IH.
  - intros b Hb. apply Hm. now right.
  - apply popup_basemap_step; [|assumption].
    intros b ->. apply Hm. now left.
Qed.

Lemma crosshair_basemap_step (p : Props) (w : Crosshair.World) (ev : Crosshair.Event) :
  (forall b, ev = Crosshair.SelectBasemap b -> In b MapControls.crosshair_menu) ->
  In (Crosshair.basemap (Crosshair.ui w)) MapControls.crosshair_menu ->
  In (Crosshair.basemap (Crosshair.ui (Crosshair.step p w ev)))
     MapControls.crosshair_menu.
Proof.
  intros Hev Hw. destruct ev; simpl; try assumption.
  - unfold Crosshair.onFeatureClick. now destruct (hit e).
  - now destruct (Crosshair.addPoint (Crosshair.ui w)).
  - destruct (Crosshair.showPopup (Crosshair.ui w)); [|assumption].
    now destruct (negb _ && _).
  - now apply Hev.
Qed.

Lemma crosshair_basemap_run (p : Props) (evs : list Crosshair.Event) :
  forall w,
    crosshair_menu_events evs ->
    In (Crosshair.basemap (Crosshair.ui w)) MapControls.crosshair_menu ->
    In (Crosshair.basemap (Crosshair.ui (Crosshair.run p evs w)))
       MapControls.crosshair_menu.
Proof.
  induction evs as [|ev evs IH]; intros w Hm Hw; [assumption|].
  apply IH.
  - intros b Hb. apply Hm. now right.
  - apply crosshair_basemap_step; [|assumption].
    intros b ->. apply Hm. now left.
Qed.

(** X11: in the revision with the Add Point popup the basemap is always
    one of the four of the menu, so the [custom] branch, with its raster
    tiles and its satellite style, is never rendered: the style is always
    the Mapbox style of the basemap's name. *)
Theorem popup_never_custom (p : Props) (evs : list Popup.Event) :
  popup_menu_events evs ->
  let b := Popup.basemap (Popup.ui (Popup.run p evs Popup.start)) in
  In b MapControls.popup_menu /\
  MapControls.popup_tiles b = false /\
  MapControls.popup_mapStyle b = str "mapbox://styles/mapbox/" ++ b.
Proof.
  intros Hm b.
  assert (Hb : In b MapControls.popup_menu).
  { apply popup_basemap_run; [assumption|]. now left. }
  split; [assumption|].
  unfold MapControls.popup_mapStyle, MapControls.popup_tiles.
  destruct Hb as [<-|[<-|[<-|[<-|[]]]]]; split; reflexivity.
Qed.

Lemma popup_never_custom_witness :
  MapControls.popup_mapStyle
    (Popup.basemap
       (Popup.ui (Popup.run props_one
                            [Popup.SelectBasemap (str "dark-v10");
                             Popup.Click click_nothing]
                            Popup.start)))
  = str "mapbox://styles/mapbox/dark-v10".
Proof.
  apply (@popup_never_custom props_one
           [Popup.SelectBasemap (str "dark-v10"); Popup.Click click_nothing]).
  intros b [[= <-]|[H|[]]]; [|discriminate H].
  right. right. right. now left.
Defined.

(** X12: in the revision with the crosshair the basemap is always one of
    the four of the menu; the raster tiles are rendered exactly when the
    style is the satellite one, which is the case at the start. *)
Theorem crosshair_basemaps (p : Props) (saved : option ViewState)
        (evs : list Crosshair.Event) :
  crosshair_menu_events evs ->
  let b := Crosshair.basemap
             (Crosshair.ui (Crosshair.run p evs (Crosshair.start saved))) in
  In b MapControls.crosshair_menu /\
  (MapControls.crosshair_tiles b = true <->
   MapControls.crosshair_mapStyle b = str "mapbox://styles/mapbox/satellite-v9") /\
  MapControls.crosshair_tiles
    (Crosshair.basemap (Crosshair.ui (Crosshair.start saved))) = true.
Proof.
  intros Hm b.
  assert (Hb : In b MapControls.crosshair_menu).
  { apply crosshair_basemap_run; [assumption|]. now left. }
  split; [assumption|]. split; [|reflexivity].
  unfold MapControls.crosshair_mapStyle, MapControls.crosshair_tiles.
  destruct Hb as [<-|[<-|[<-|[<-|[]]]]]; split; try reflexivity;
    vm_compute; discriminate.
Qed.

Lemma crosshair_basemaps_witness :
  MapControls.crosshair_tiles
    (Crosshair.basemap
       (Crosshair.ui (Crosshair.run props_one
                                    [Crosshair.SelectBasemap (str "streets-v11")]
                                    (Crosshair.start None))))
  = true <->
  MapControls.crosshair_mapStyle
    (Crosshair.basemap
       (Crosshair.ui (Crosshair.run props_one
                                    [Crosshair.SelectBasemap (str "streets-v11")]
                                    (Crosshair.start None))))
  = str "mapbox://styles/mapbox/satellite-v9".
Proof.
  apply (@crosshair_basemaps props_one None
           [Crosshair.SelectBasemap (str "streets-v11")]).
  intros b [[= <-]|[]]. right. now left.
Defined.

(** ** Directions *)

Lemma popup_coords_run (p : Props) (evs : list Popup.Event) :
  forall w,
    Popup.dCoords (Popup.ui (Popup.run p evs w))
    = fold_left (fun c ev => match ev with Popup.Click e => lngLat e | _ => c end)
                evs (Popup.dCoords (Popup.ui w)) /\
    Popup.cCoords (Popup.ui (Popup.run p evs w))
    = fold_left (fun c ev => match ev with Popup.Geolocate x => x | _ => c end)
                evs (Popup.cCoords (Popup.ui w)).
Proof.
  induction evs as [|ev evs IH]; intros w; [now split|].
  cbn [Popup.run fold_left]. fold (Popup.run p evs (Popup.step p w ev)).
  destruct (IH (Popup.step p w ev)) as [H1 H2]. rewrite H1, H2.
  destruct ev; simpl; try (split; reflexivity).
  - unfold Popup.onFeatureClick. destruct (hit e); split; reflexivity.
  - destruct (Popup.addPoint (Popup.ui w)); split; reflexivity.
Qed.

Lemma crosshair_coords_run (p : Props) (evs : list Crosshair.Event) :
  forall w,
    Crosshair.dCoords (Crosshair.ui (Crosshair.run p evs w))
    = fold_left (fun c ev => match ev with Crosshair.Click e => lngLat e | _ => c end)
                evs (Crosshair.dCoords (Crosshair.ui w)) /\
    Crosshair.cCoords (Crosshair.ui (Crosshair.run p evs w))
    = fold_left (fun c ev => match ev with Crosshair.Geolocate x => x | _ => c end)
                evs (Crosshair.cCoords (Crosshair.ui w)).
Proof.
  induction evs as [|ev evs IH]; intros w; [now split|].
  cbn [Crosshair.run fold_left].
  fold (Crosshair.run p evs (Crosshair.step p w ev)).
  destruct (IH (Crosshair.step p w ev)) as [H1 H2]. rewrite H1, H2.
  destruct ev; simpl; try (split; reflexivity).
  - unfold Crosshair.onFeatureClick. destruct (hit e); split; reflexivity.
  - destruct (Crosshair.addPoint (Crosshair.ui w)); split; reflexivity.
  - destruct (Crosshair.showPopup (Crosshair.ui w)); [|split; reflexivity].
    destruct (negb _ && _); split; reflexivity.
Qed.

(** X13: in both revisions Get Directions asks for the route from the last
    position the geolocate control reported to the place of the last click
    on the map, whether or not that click hit a feature; before any
    report the route starts at longitude 0, latitude 0. *)
Theorem directions_route (p : Props) :
  (forall evs,
      MapControls.popup_getDirections (Popup.ui (Popup.run p evs Popup.start))
      = {| MapControls.origin := popup_last_fix evs;
           MapControls.destination := popup_last_click_at evs |}) /\
  (forall saved evs,
      MapControls.crosshair_getDirections
        (Crosshair.ui (Crosshair.run p evs (Crosshair.start saved)))
      = {| MapControls.origin := crosshair_last_fix evs;
           MapControls.destination := crosshair_last_click_at evs |}).
Proof.
  split.
  - intros evs. destruct (popup_coords_run p evs Popup.start) as [H1 H2].
    unfold MapControls.popup_getDirections. now rewrite H1, H2.
  - intros saved evs.
    destruct (crosshair_coords_run p evs (Crosshair.start saved)) as [H1 H2].
    unfold MapControls.crosshair_getDirections. now rewrite H1, H2.
Qed.

(** ** What the map sends *)

Lemma popup_requests_step (p : Props) (w : Popup.World) (ev : Popup.Event) :
  Forall (own_request p) (Popup.submitted w) ->
  Forall (fun s => is_create s = true) (Popup.submitted w) ->
  Forall (own_request p) (Popup.submitted (Popup.step p w ev)) /\
  Forall (fun s => is_create s = true) (Popup.submitted (Popup.step p w ev)).
Proof.
  intros H1 H2. destruct ev; simpl; try (split; assumption).
  destruct (Popup.addPoint (Popup.ui w)); simpl; [|split; assumption].
  split; apply Forall_app; split; try assumption; repeat constructor.
Qed.

Lemma popup_requests_run (p : Props) (evs : list Popup.Event) :
  forall w,
    Forall (own_request p) (Popup.submitted w) ->
    Forall (fun s => is_create s = true) (Popup.submitted w) ->
    Forall (own_request p) (Popup.submitted (Popup.run p evs w)) /\
    Forall (fun s => is_create s = true) (Popup.submitted (Popup.run p evs w)).
Proof.
  induction evs as [|ev evs IH]; intros w H1 H2; [now split|].
  destruct (@popup_requests_step p w ev H1 H2) as [H1' H2'].
  now apply IH.
Qed.

Lemma crosshair_requests_step (other_get : value -> jsstring -> value)
      (p : Props) (w : Crosshair.World) (ev : Crosshair.Event) :
  (forall e mf, ev = Crosshair.Click e -> In mf (hit e) -> shown other_get p mf) ->
  about p (Crosshair.completed (Crosshair.ui w))
        (Crosshair.assignment (Crosshair.ui w)) ->
  Forall (own_request p) (Crosshair.submitted w) ->
  about p (Crosshair.completed (Crosshair.ui (Crosshair.step p w ev)))
        (Crosshair.assignment (Crosshair.ui (Crosshair.step p w ev))) /\
  Forall (own_request p) (Crosshair.submitted (Crosshair.step p w ev)).
Proof.
  intros Hev Hab Hsub. destruct ev; simpl; try (split; assumption).
  - split; [|assumption]. unfold Crosshair.onFeatureClick.
    destruct (hit e) as [|f fs] eqn:Hhit; simpl; [assumption|].
    apply (@shown_about other_get). apply (Hev e f eq_refl).
    rewrite Hhit. now left.
  - destruct (Crosshair.addPoint (Crosshair.ui w)); simpl; [|split; assumption].
    split; [assumption|]. apply Forall_app. split; [assumption|].
    repeat constructor.
  - destruct (Crosshair.showPopup (Crosshair.ui w)); [|split; assumption].
    destruct (negb _ && _) eqn:E; simpl; [|split; assumption].
    split; [assumption|]. apply Forall_app. split; [assumption|].
    constructor; [|constructor]. simpl. now apply (offered_open Hab).
Qed.

Lemma crosshair_requests_run (other_get : value -> jsstring -> value)
      (p : Props) (evs : list Crosshair.Event) :
  forall w,
    crosshair_clicks_shown other_get p evs ->
    about p (Crosshair.completed (Crosshair.ui w))
          (Crosshair.assignment (Crosshair.ui w)) ->
    Forall (own_request p) (Crosshair.submitted w) ->
    Forall (own_request p) (Crosshair.submitted (Crosshair.run p evs w)).
Proof.
  induction evs as [|ev evs IH]; intros w Hshown Hab Hsub; [assumption|].
  destruct (@crosshair_requests_step other_get p w ev) as [Hab' Hsub'];
    try assumption.
  - intros e mf ->. apply Hshown. now left.
  - apply IH; try assumption. intros e mf He. apply Hshown. now right.
Qed.

(** X14: whatever the session, every request the map has sent is its own:
    a create-point request carries the id of the loaded layer and the id
    of the user, and a survey is opened only for a fetched assignment that
    is not completed; the revision with the Add Point popup sends
    create-point requests only. *)
Theorem requests_are_own (other_get : value -> jsstring -> value) (p : Props) :
  (forall evs,
      let sent := Popup.submitted (Popup.run p evs Popup.start) in
      Forall (own_request p) sent /\
      Forall (fun s => is_create s = true) sent) /\
  (forall saved evs,
      crosshair_clicks_shown other_get p evs ->
      Forall (own_request p)
             (Crosshair.submitted (Crosshair.run p evs (Crosshair.start saved)))).
Proof.
  split.
  - intros evs. apply popup_requests_run; constructor.
  - intros saved evs Hshown.
    apply (@crosshair_requests_run other_get); try assumption.
    + now left.
    + constructor.
Qed.

Lemma requests_are_own_witness :
  Forall (own_request props_survey)
         (Crosshair.submitted
            (Crosshair.run props_survey
                           [Crosshair.Click click_todo; Crosshair.CompleteSurvey;
                            Crosshair.ToggleAddPoint; Crosshair.ConfirmAddPoint]
                           (Crosshair.start None))).
Proof.
  apply (proj2 (requests_are_own node_get props_survey) None).
  intros e mf [[= <-]|[H|[H|[H|[]]]]]; try discriminate H.
  intros [<-|[]]. do 2 eexists. repeat split; [vm_compute; reflexivity..|].
  vm_compute. right. now left.
Defined.

(** ** One click, one point *)

Lemma empty_clicks_cons (ev : Popup.Event) (evs : list Popup.Event) :
  empty_clicks (ev :: evs) = (empty_clicks [ev] + empty_clicks evs)%nat.
Proof.
  unfold empty_clicks. simpl. destruct ev; simpl; try reflexivity.
  destruct (hit e); reflexivity.
Qed.

Lemma popup_budget_step (p : Props) (w : Popup.World) (ev : Popup.Event) :
  (length (Popup.submitted (Popup.step p w ev))
   + Nat.b2n (Popup.addPoint (Popup.ui (Popup.step p w ev)))
   <= length (Popup.submitted w) + Nat.b2n (Popup.addPoint (Popup.ui w))
      + empty_clicks [ev])%nat.
Proof.
  destruct w as [st cam sub]. destruct st as [sp ap bm dc cc co asg].
  destruct ev; unfold empty_clicks; simpl.
  - unfold Popup.onFeatureClick. destruct (hit e); simpl; destruct ap; simpl; lia.
  - lia.
  - lia.
  - destruct ap; simpl; lia.
  - destruct ap; simpl; rewrite ?length_app; simpl; lia.
  - lia.
  - lia.
Qed.

Lemma popup_budget_run (p : Props) (evs : list Popup.Event) :
  forall w,
    (length (Popup.submitted (Popup.run p evs w))
     + Nat.b2n (Popup.addPoint (Popup.ui (Popup.run p evs w)))
     <= length (Popup.submitted w) + Nat.b2n (Popup.addPoint (Popup.ui w))
        + empty_clicks evs)%nat.
Proof.
  induction evs as [|ev evs IH]; intros w.
  - simpl. lia.
  - rewrite empty_clicks_cons.
    change (Popup.run p (ev :: evs) w) with (Popup.run p evs (Popup.step p w ev)).
    specialize (IH (Popup.step p w ev)).
    pose proof (popup_budget_step p w ev) as Hs. lia.
Qed.

(** X15: in the revision with the Add Point popup a click on the map is
    good for one new point at most: the session has sent no more
    create-point requests than it had clicks that hit no feature. *)
Theorem one_point_per_click (p : Props) (evs : list Popup.Event) :
  (length (Popup.submitted (Popup.run p evs Popup.start)) <= empty_clicks evs)%nat.
Proof.
  pose proof (popup_budget_run p evs Popup.start) as H. simpl in H. lia.
Qed.

Lemma crosshair_confirm_step (p : Props) (w : Crosshair.World) :
  Crosshair.addPoint (Crosshair.ui w) = true ->
  Crosshair.step p w Crosshair.ConfirmAddPoint
  = {| Crosshair.ui := Crosshair.ui w;
       Crosshair.camera := Crosshair.camera w;
       Crosshair.submitted :=
         Crosshair.submitted w
         ++ [CreatePoint (layer_id (layer_ p))
               {| lng := longitude (Crosshair.viewState (Crosshair.ui w));
                  lat := latitude (Crosshair.viewState (Crosshair.ui w)) |}
               (userId_ p)] |}.
Proof.
  intros Hw. simpl. now rewrite Hw.
Qed.

Lemma crosshair_confirm_again (p : Props) (n : nat) :
  forall w,
    Crosshair.addPoint (Crosshair.ui w) = true ->
    Crosshair.submitted (Crosshair.run p (repeat Crosshair.ConfirmAddPoint n) w)
    = Crosshair.submitted w
      ++ repeat (CreatePoint (layer_id (layer_ p))
                             {| lng := longitude (Crosshair.viewState (Crosshair.ui w));
                                lat := latitude (Crosshair.viewState (Crosshair.ui w)) |}
                             (userId_ p)) n /\
    Crosshair.addPoint
      (Crosshair.ui (Crosshair.run p (repeat Crosshair.ConfirmAddPoint n) w)) = true.
Proof.
  induction n as [|n IH]; intros w Hw.
  - simpl. now rewrite app_nil_r.
  - change (Crosshair.run p (repeat Crosshair.ConfirmAddPoint (S n)) w)
      with (Crosshair.run p (repeat Crosshair.ConfirmAddPoint n)
              (Crosshair.step p w Crosshair.ConfirmAddPoint)).
    rewrite (crosshair_confirm_step p w Hw).
    match goal with
    | |- context [Crosshair.run p _ ?w1] => destruct (IH w1 Hw) as [H1 H2]
    end.
    split; [|exact H2]. etransitivity; [exact H1|].
    cbn [Crosshair.submitted Crosshair.ui repeat]. now rewrite <- app_assoc.
Qed.

(** X16: in the revision with the crosshair the Add Point button stays
    after a point is created, and every further press sends the same
    request again: n presses in a row send n requests for a point at the
    map centre. *)
Theorem crosshair_repeats_points (p : Props) (saved : option ViewState)
        (evs : list Crosshair.Event) (n : nat) :
  let w := Crosshair.run p evs (Crosshair.start saved) in
  Crosshair.addPointButton (Crosshair.render (Crosshair.ui w)) = true ->
  let w' := Crosshair.run p (repeat Crosshair.ConfirmAddPoint n) w in
  Crosshair.submitted w'
  = Crosshair.submitted w
    ++ repeat (CreatePoint (layer_id (layer_ p)) (centre (Crosshair.camera w))
                           (userId_ p)) n /\
  Crosshair.addPointButton (Crosshair.render (Crosshair.ui w')) = true.
Proof.
  intros w Hw w'.
  pose proof (crosshair_camera_run p evs (Crosshair.start saved) eq_refl) as Hcam.
  fold w in Hcam. unfold centre. rewrite Hcam.
  apply crosshair_confirm_again. exact Hw.
Qed.

Lemma crosshair_repeats_points_witness :
  Crosshair.submitted
    (Crosshair.run props_one (repeat Crosshair.ConfirmAddPoint 2)
       (Crosshair.run props_one [Crosshair.ToggleAddPoint] (Crosshair.start None)))
  = repeat (CreatePoint 1 (centre Crosshair.defaultViewState) 7) 2.
Proof.
  apply (@crosshair_repeats_points props_one None [Crosshair.ToggleAddPoint] 2).
  reflexivity.
Defined.

(** ** Back from a survey *)

Section SurveyRoundTrip.
Variable Text : Type.
Variable stringify : ViewState -> Text.
Variable parse : Text -> ViewState.
Variable truthy_text : Text -> bool.
Variable String_value : value -> jsstring.

(** X17: Complete Survey saves the camera. When the URL of the
    assignment is header text, the action puts the submitted view state
    into the session and redirects to the assignment of the popup, and a
    map opened with that session starts with its camera where it was,
    provided the runtime reads back the JSON it writes. When the task id
    has a code unit above 255 the action throws a [TypeError] instead. *)
Theorem survey_keeps_the_camera (p : Props) (saved : option ViewState)
        (evs : list Crosshair.Event) (taskId : jsstring)
        (session : SurveyRoute.Session Text) :
  (forall v, parse (stringify v) = v) ->
  (forall v, truthy_text (stringify v) = true) ->
  let w := Crosshair.run p evs (Crosshair.start saved) in
  let form := SurveyRoute.getSurvey_form stringify String_value (Crosshair.ui w) in
  let url := str "/tasks/" ++ taskId ++ str "/"
             ++ String_value (Crosshair.assignment (Crosshair.ui w)) in
  (header_text url = true ->
   exists after,
     SurveyRoute.action taskId session form = Ok (after, url) /\
     let w' := Crosshair.start
                 (SurveyRoute.restored parse truthy_text
                    (SurveyRoute.savedState after)) in
     Crosshair.camera w' = Crosshair.camera w /\
     Crosshair.viewState (Crosshair.ui w') = Crosshair.camera w /\
     SurveyRoute.userId after = SurveyRoute.userId session) /\
  (beyond_bytes taskId ->
   SurveyRoute.action taskId session form = Throw TypeError).
Proof.
  intros Hround Htruthy w form url.
  pose proof (crosshair_camera_run p evs (Crosshair.start saved) eq_refl) as Hcam.
  fold w in Hcam. split.
  - intros Htext. apply header_text_redirect in Htext.
    eexists. unfold SurveyRoute.action. subst form. cbn [SurveyRoute.getSurvey_form
      SurveyRoute.assignmentId SurveyRoute.viewState_entry LayerCreate.String_].
    fold url. rewrite Htext. cbn [bind]. split; [reflexivity|].
    simpl. rewrite Htruthy, Hround, Hcam. repeat split.
  - intros Hbig. unfold SurveyRoute.action. subst form.
    cbn [SurveyRoute.getSurvey_form SurveyRoute.assignmentId LayerCreate.String_].
    rewrite beyond_bytes_redirect; [reflexivity|].
    destruct Hbig as (u & Hu & Hbig). exists u. split; [|assumption].
    apply in_or_app. right. apply in_or_app. now left.
Qed.

End SurveyRoundTrip.

Lemma survey_keeps_the_camera_witness :
  exists after,
    SurveyRoute.action (str "Roads")
      {| SurveyRoute.userId := Some 7%Z; SurveyRoute.viewState := None |}
      (SurveyRoute.getSurvey_form (fun v : ViewState => v) (fun _ => str "12")
         (Crosshair.ui
            (Crosshair.run props_one
               [Crosshair.Pan {| longitude := 1; latitude := 2; zoom := 9 |}]
               (Crosshair.start None))))
    = Ok (after, str "/tasks/Roads/12") /\
    Crosshair.camera
      (Crosshair.start
         (SurveyRoute.restored (fun t : ViewState => t) (fun _ => true)
            (SurveyRoute.savedState after)))
    = {| longitude := 1; latitude := 2; zoom := 9 |}.
Proof.
  destruct (@survey_keeps_the_camera ViewState (fun v => v) (fun t => t)
              (fun _ => true) (fun _ => str "12") props_one None
              [Crosshair.Pan {| longitude := 1; latitude := 2; zoom := 9 |}]
              (str "Roads")
              {| SurveyRoute.userId := Some 7%Z; SurveyRoute.viewState := None |}
              (fun v => eq_refl) (fun v => eq_refl))
    as [H _].
  destruct (H eq_refl) as (after & E & Hc & _).
  exists after. split; [exact E|exact Hc].
Defined.

(** ** The survey that is chosen *)

Lemma digits_of_uint (d : Decimal.uint) :
  forall acc,
    LayerCreate.digits_prefix 10 (Some acc) (str (NilEmpty.string_of_uint d))
    = Some (N.of_nat (Nat.of_uint_acc d (N.to_nat acc))).
Proof.
  induction d; intros acc;
    [simpl; now rewrite N2Nat.id
    |cbn [NilEmpty.string_of_uint Nat.of_uint_acc];
     match goal with
     | |- context [str (String ?c ?s)] =>
         change (str (String c s)) with (N_of_ascii c :: str s)
     end;
     cbn [LayerCreate.digits_prefix];
     match goal with
     | |- context [LayerCreate.digit_value ?r ?u] =>
         let v := eval vm_compute in (LayerCreate.digit_value r u) in
         change (LayerCreate.digit_value r u) with v
     end;
     cbv iota beta; rewrite IHd; do 3 apply f_equal;
     rewrite Nat.tail_mul_spec; lia ..].
Qed.

Lemma str_cons (c : ascii) (s : string) :
  str (String c s) = N_of_ascii c :: str s.
Proof. reflexivity. Qed.

Lemma to_double_small (n : N) :
  (n < 2 ^ 53)%N -> LayerCreate.to_double n = Some n.
Proof.
  intros H. unfold LayerCreate.to_double.
  apply N.ltb_lt in H. now rewrite H.
Qed.

Lemma parseInt_spelling (n : nat) :
  (N.of_nat n < 2 ^ 53)%N ->
  LayerCreate.parseInt (index_key n) = Some (Z.of_nat n) /\
  LayerCreate.parseInt (45%N :: index_key n) = Some (- Z.of_nat n)%Z.
Proof.
  intros Hsmall. apply to_double_small in Hsmall.
  pose proof (DecimalNat.Unsigned.of_to n) as H. unfold index_key.
  destruct (Nat.to_uint n) as [|d|d|d|d|d|d|d|d|d|d] eqn:E;
    [simpl in H; subst n; discriminate E
    |try (destruct d as [|d|d|d|d|d|d|d|d|d|d])..];
    unfold Nat.of_uint in H; cbn [Nat.of_uint_acc] in H;
    cbn [NilEmpty.string_of_uint]; rewrite ?str_cons;
    change (str EmptyString) with (@nil N);
    unfold LayerCreate.parseInt;
    cbn - [LayerCreate.digits_prefix LayerCreate.to_double str Z.of_nat Z.of_N];
    cbn [LayerCreate.digits_prefix];
    repeat match goal with
    | |- context [LayerCreate.digit_value ?r ?u] =>
        let v := eval vm_compute in (LayerCreate.digit_value r u) in
        change (LayerCreate.digit_value r u) with v; cbv iota beta
    end;
    rewrite ?digits_of_uint;
    match goal with
    | |- context [LayerCreate.to_double ?x] =>
        replace x with (N.of_nat n)
          by (rewrite <- H;
              first [vm_compute; reflexivity
                    |do 2 f_equal; rewrite ?Nat.tail_mul_spec; lia])
    end;
    rewrite Hsmall; split; do 2 f_equal; apply nat_N_Z.
Qed.

(** X18: the survey select and the action agree on the ids a database
    gives: for an id below 2^53 in size, the value of the option of the
    survey, the decimal spelling of the id, is a non-empty entry from which
    the action reads that very id as the default survey to connect, and no
    other id has that option value. *)
Theorem chosen_survey_is_read (id : Z) :
  (Z.abs id < 2 ^ 53)%Z ->
  exists v,
    survey_option id = Some v /\
    LayerCreate.defaultSurvey_of (Some v) = Some (Some id) /\
    forall id', survey_option id' = Some v -> id' = id.
Proof.
  assert (Hread : forall z, (Z.abs z < 2 ^ 53)%Z ->
                            LayerCreate.parseInt (decimal z) = Some z).
  { intros [|q|q] Hz; [reflexivity| |];
      assert (Hq : (N.of_nat (Pos.to_nat q) < 2 ^ 53)%N)
        by (change (2 ^ 53)%N with (Z.to_N (2 ^ 53)); lia);
      destruct (parseInt_spelling (Pos.to_nat q) Hq) as [H1 H2].
    - change (decimal (Z.pos q)) with (index_key (Pos.to_nat q)).
      rewrite H1. f_equal. lia.
    - change (decimal (Z.neg q)) with (45%N :: index_key (Pos.to_nat q)).
      rewrite H2. f_equal. lia. }
  intros Hid. exists (decimal id). split; [|split].
  - unfold survey_option. apply Z.ltb_lt in Hid. now rewrite Hid.
  - unfold LayerCreate.defaultSurvey_of. cbn [LayerCreate.String_].
    rewrite (Hread id Hid). destruct (decimal id) eqn:E; [|reflexivity].
    specialize (Hread id Hid). rewrite E in Hread. discriminate Hread.
  - intros id'. unfold survey_option.
    destruct (Z.ltb_spec (Z.abs id') (2 ^ 53)) as [Hid'|]; [|discriminate].
    intros [= E]. pose proof (Hread id' Hid') as H.
    rewrite E, (Hread id Hid) in H. now injection H.
Qed.

Lemma chosen_survey_is_read_witness :
  exists v,
    survey_option 12 = Some v /\
    LayerCreate.defaultSurvey_of (Some v) = Some (Some 12%Z).
Proof.
  destruct (chosen_survey_is_read 12) as (v & H1 & H2 & _); [reflexivity|].
  now exists v.
Defined.
